(** * The map explorer of the Indonesian Maps API documentation site

    A shallow embedding of [mapManager] (the script of the documentation
    page): the cascading province / city / district / village selection,
    the Leaflet overlays it owns, the reset operation and the cleaning of
    boundary polygons in [showProvinceBoundary] / [showCityBoundary].

    Conventions of the embedding.
    - JavaScript values are the JSON-shaped fragment the page handles
      ([value]); a number is a rational or [NaN] (no infinities, no signed
      zero).  Where the script computes a coordinate, a rational stands for
      the double nearest to it and the result is rounded to a double.
    - The script's global variables and the part of the document it touches
      form one record [state]; every method is a computation in a state
      monad with exceptions, in which the state reached at a [throw] is kept,
      as in JavaScript.
    - An [async] method is cut at its [await]s: the synchronous prefix runs
      when the method is called and registers a pending [task]; the rest
      runs when the awaited request settles ([resume]).
    - What the browser and Leaflet decide (JSON.parse, the conversion of
      strings to numbers, the rounding to doubles, which coordinates
      Leaflet accepts, where the bounds of the map let a view rest) is a
      parameter [host]. *)

From Stdlib Require Import List String Ascii Bool Arith ZArith QArith Lia Lqa.
From Stdlib Require Import Permutation Sorted Qabs Qpower.
Import ListNotations.
Local Open Scope string_scope.
Local Open Scope list_scope.
Set Warnings "-register-all".

(** ** JavaScript values and coercions *)

Module JS.

Inductive jsnum : Type :=
| NaN
| Num (q : Q).

Inductive value : Type :=
| VUndefined
| VNull
| VBool (b : bool)
| VNum (n : jsnum)
| VStr (s : string)
| VArr (elems : list value)
| VObj (fields : list (string * value)).

Inductive error : Type :=
| TypeError
| ReferenceError
| SyntaxError
| FetchError
| LeafletError.

Inductive result (A : Type) : Type :=
| Ok (a : A)
| Throw (e : error).
Arguments Ok {A} a.
Arguments Throw {A} e.

(** What the page takes from the browser and from Leaflet. *)
Record host : Type := {
  (** [JSON.parse]; [None] is a SyntaxError. *)
  JSON_parse : string -> option value;
  (** [Number(s)] for a string [s]. *)
  StringToNumber : string -> jsnum;
  (** [parseFloat(s)] for a string [s]. *)
  parseFloat_string : string -> jsnum;
  (** Whether Leaflet's [LatLng] constructor accepts the pair. *)
  latLng_ok : jsnum -> jsnum -> bool;
  (** Leaflet's limit on the centre of a view under [maxBounds], given as
      its two corners: the centre on which the view rests when [setView]
      is asked for a centre at a zoom level ([_limitCenter], which
      [setView] applies and the [moveend] listener of [setMaxBounds]
      repeats).  It depends on the size of the map container. *)
  limitCenter : (jsnum * jsnum) * (jsnum * jsnum) -> jsnum * jsnum -> Z -> jsnum * jsnum;
  (** The double nearest to a rational: how the browser rounds the
      operands and the result of an arithmetic operation. *)
  double : Q -> Q
}.

Definition is_nan (n : jsnum) : bool :=
  match n with NaN => true | Num _ => false end.

(** [a !== b] on numbers. *)
Definition strict_neq (a b : jsnum) : bool :=
  match a, b with
  | Num x, Num y => negb (Qeq_bool x y)
  | _, _ => true
  end.

Definition truthy (v : value) : bool :=
  match v with
  | VUndefined | VNull => false
  | VBool b => b
  | VNum NaN => false
  | VNum (Num q) => negb (Qeq_bool q 0)
  | VStr s => negb (String.eqb s "")
  | VArr _ | VObj _ => true
  end.

Definition isArray (v : value) : bool :=
  match v with VArr _ => true | _ => false end.

Definition is_string (v : value) : bool :=
  match v with VStr _ => true | _ => false end.

Fixpoint lookup_field (k : string) (fs : list (string * value)) : value :=
  match fs with
  | [] => VUndefined
  | (k', v) :: fs' => if String.eqb k k' then v else lookup_field k fs'
  end.

(** [v.k] for the property names the script reads (none of them exists on
    a primitive or on an array). *)
Definition get_prop (k : string) (v : value) : result value :=
  match v with
  | VUndefined | VNull => Throw TypeError
  | VObj fs => Ok (lookup_field k fs)
  | _ => Ok VUndefined
  end.

(** [v[0]]. *)
Definition index0 (v : value) : result value :=
  match v with
  | VUndefined | VNull => Throw TypeError
  | VArr [] => Ok VUndefined
  | VArr (x :: _) => Ok x
  | VStr EmptyString => Ok VUndefined
  | VStr (String c _) => Ok (VStr (String c EmptyString))
  | VObj fs => Ok (lookup_field "0" fs)
  | VBool _ | VNum _ => Ok VUndefined
  end.

Section Coercions.
Variable h : host.

  (** [Number(v)], the coercion behind the global [isNaN].  An array is
      converted through its string: the empty array and an array holding
      only [null] or [undefined] give the empty string, hence 0; two or
      more elements give a string with a comma, hence NaN. *)
Fixpoint ToNumber (v : value) : jsnum :=
    match v with
    | VUndefined => NaN
    | VNull => Num 0
    | VBool b => if b then Num 1 else Num 0
    | VNum n => n
    | VStr s => StringToNumber h s
    | VObj _ => NaN
    | VArr [] => Num 0
    | VArr [x] =>
        match x with
        | VUndefined | VNull => Num 0
        | VBool _ => NaN
        | _ => ToNumber x
        end
    | VArr (_ :: _ :: _) => NaN
    end.

Definition isNaN (v : value) : bool := is_nan (ToNumber v).

  (** [parseFloat(v)]: the argument is first turned into a string, of
      which the longest numeric prefix is read.  The string of an array
      starts with the string of its first element, followed by a comma. *)
Fixpoint parseFloat (v : value) : jsnum :=
    match v with
    | VUndefined | VNull | VBool _ | VObj _ => NaN
    | VNum n => n
    | VStr s => parseFloat_string h s
    | VArr [] => NaN
    | VArr (x :: _) =>
        match x with
        | VUndefined | VNull => NaN
        | _ => parseFloat x
        end
    end.
End Coercions.

End JS.
Import JS.

(** ** Cleaning of boundary polygons

    The block shared by [showProvinceBoundary] and [showCityBoundary]
    between the decoding of [geoData.path] and the call of [L.polygon]. *)

Module Polygon.

Definition point : Type := (jsnum * jsnum)%type.
Definition ring : Type := list point.

Section Cleaning.
Variable h : host.

  (** [pt => Array.isArray(pt) && pt.length === 2 && !isNaN(pt[0]) && !isNaN(pt[1])] *)
Definition valid_point (pt : value) : bool :=
    match pt with
    | VArr [a; b] => negb (isNaN h a) && negb (isNaN h b)
    | _ => false
    end.

  (** [pt => [parseFloat(pt[0]), parseFloat(pt[1])]], on what the filter kept. *)
Definition coerce_point (pt : value) : point :=
    match pt with
    | VArr (a :: b :: _) => (parseFloat h a, parseFloat h b)
    | _ => (NaN, NaN)
    end.

Definition clean (pts : list value) : ring :=
    map coerce_point (filter valid_point pts).

  (** [if (first[0] !== last[0] || first[1] !== last[1]) coords.push([first[0], first[1]])] *)
Definition close (coords : ring) : ring :=
    match coords with
    | [] => []
    | first :: _ =>
        let last := List.last coords first in
        if strict_neq (fst first) (fst last) || strict_neq (snd first) (snd last)
        then coords ++ [first]
        else coords
    end.

  (** The callback of [pathCoordinates.map] in the multi-polygon branch;
      [None] is its [return null]. *)
Definition clean_polygon (poly : value) : result (option ring) :=
    match poly with
    | VArr pts =>
        let coords := clean pts in
        if (List.length coords <? 3)%nat then Ok None else Ok (Some (close coords))
    | _ => Throw TypeError
    end.

Fixpoint map_polygons (polys : list value) : result (list (option ring)) :=
    match polys with
    | [] => Ok []
    | p :: ps =>
        match clean_polygon p with
        | Throw e => Throw e
        | Ok r =>
            match map_polygons ps with
            | Throw e => Throw e
            | Ok rs => Ok (r :: rs)
            end
        end
    end.

  (** [.filter(Boolean)]: an array is truthy, only the [null]s go. *)
Fixpoint filter_Boolean (rs : list (option ring)) : list ring :=
    match rs with
    | [] => []
    | None :: rs' => filter_Boolean rs'
    | Some r :: rs' => r :: filter_Boolean rs'
    end.

  (** The value of [polygons] computed from the decoded path; [Throw] when
      the block raises before [polygons] is assigned. *)
Definition polygons_of (pathCoordinates : value) : result (list ring) :=
    match index0 pathCoordinates with
    | Throw e => Throw e
    | Ok e0 =>
        match index0 e0 with
        | Throw e => Throw e
        | Ok e00 =>
            if isArray e00 then
              match pathCoordinates with
              | VArr polys =>
                  match map_polygons polys with
                  | Throw e => Throw e
                  | Ok rs => Ok (filter_Boolean rs)
                  end
              | _ => Throw TypeError
              end
            else
              match pathCoordinates with
              | VArr pts =>
                  let coords := clean pts in
                  if (3 <=? List.length coords)%nat then Ok [close coords] else Ok []
              | _ => Throw TypeError
              end
        end
    end.

  (** The decoding of [geoData.path] that precedes the block: a string is
      parsed, an array is taken as it is, anything else is not recognised.
      [None] stands for the two early [return]s. *)
Definition decode_path (path : value) : option value :=
    match path with
    | VStr s => JSON_parse h s
    | VArr _ => Some path
    | _ => None
    end.

  (** The rings that reach [L.polygon]: [polygons] starts as the empty
      array and stays so when the decoding returns early or the block
      throws. *)
Definition renderable (path : value) : list ring :=
    match decode_path path with
    | None => []
    | Some pc =>
        match polygons_of pc with
        | Ok rs => rs
        | Throw _ => []
        end
    end.
End Cleaning.

(** A ring list as a native array payload. *)
Definition value_of_point (p : point) : value := VArr [VNum (fst p); VNum (snd p)].
Definition value_of_ring (r : ring) : value := VArr (map value_of_point r).
Definition value_of_rings (rs : list ring) : value := VArr (map value_of_ring rs).

Definition numeric_point (p : point) : bool :=
  negb (is_nan (fst p)) && negb (is_nan (snd p)).

(** [first] and [last] agree under [===] on both coordinates. *)
Definition closed (r : ring) : bool :=
  match r with
  | [] => false
  | first :: _ =>
      let last := List.last r first in
      negb (strict_neq (fst first) (fst last)) && negb (strict_neq (snd first) (snd last))
  end.

(** What section 4.2 asks of a returned ring. *)
Definition normalized_ring (r : ring) : bool :=
  (3 <=? List.length r)%nat && forallb numeric_point r && closed r.

End Polygon.

(** ** The page state and the methods of [mapManager] *)

Module App.
Import Polygon.

Inductive level : Type := Province | City | District | Village.

(** A Leaflet layer made by the script.  Markers of the four levels differ
    by their icon, boundaries by their colour; the popup of a marker is
    kept as the record it is rendered from. *)
Inductive overlay : Type :=
| Marker (lvl : level) (lat lng : jsnum) (popup : value)
| Boundary (lvl : level) (rings : list ring).

Record layer : Type := { lid : nat; shape : overlay }.

(** [[southWest, northEast]], as [CONFIG.INDONESIA_BOUNDS] gives them. *)
Definition bounds : Type := ((jsnum * jsnum) * (jsnum * jsnum))%type.

Record map_state : Type := {
  center : jsnum * jsnum;
  zoom : Z;
  layers : list layer;
  (** [map.options.maxBounds] *)
  maxBounds : option bounds
}.

(** [selectedLocation] *)
Record selection : Type := {
  province : option string;
  city : option string;
  district : option string;
  village : option string
}.

Inductive display : Type := DisplayInitial | DisplayBlock | DisplayNone.

(** The content of [#province-info-content]. *)
Inductive panel : Type :=
| PanelInitial
| PanelLoading
| PanelInfo (data : value)
| PanelError.

(** The first [<option>] of a selector. *)
Inductive caption : Type := Prompt | LoadingCaption | ErrorCaption.

Record selector : Type := {
  sel_caption : caption;
  sel_options : list (value * value);
  sel_disabled : bool
}.

(** The elements the methods look up; [None] when [getElementById] finds
    nothing. *)
Record dom : Type := {
  province_info : option display;
  province_info_content : option panel;
  province_select : option string;
  city_selector : option selector;
  district_selector : option selector;
  village_selector : option selector
}.

(** A global name: [resetMap] reads two names that no [let] declares. *)
Inductive binding : Type :=
| Unbound
| Bound (l : option layer).

(** The rest of an [async] method, waiting for a request to settle; the
    last code is the one the request is made for. *)
Inductive task : Type :=
| KProvinceGeo (provinceCode : string)
| KCities (provinceCode : string)
| KCityGeo (cityCode : string)
| KDistricts (cityCode : string)
| KDistrictDetail (districtCode : string)
| KDistrictCityGeo (districtCode : string) (districtData : value) (cityCode : string)
| KVillages (districtCode : string)
| KVillageDetail (villageCode : string)
| KVillageCityGeo (villageCode : string) (villageData : value) (cityCode : string).

Record state : Type := {
  map : option map_state;
  currentProvinceLayer : option layer;
  currentCityLayer : option layer;
  currentDistrictLayer : option layer;
  currentVillageLayer : option layer;
  provinceBoundariesLayer : option layer;
  cityBoundariesLayer : option layer;
  provinceBoundaryLayer : binding;
  cityBoundaryLayer : binding;
  selectedLocation : selection;
  document : dom;
  next_lid : nat;
  pending : list task
}.

(** [CONFIG.DEFAULT_COORDINATE], [CONFIG.DEFAULT_ZOOM] *)
Definition DEFAULT_COORDINATE : jsnum * jsnum :=
  (Num (-68055 # 10000), Num (1108392 # 10000)).
Definition DEFAULT_ZOOM : Z := 6.
(** [CONFIG.INDONESIA_BOUNDS] *)
Definition INDONESIA_BOUNDS : bounds := ((Num (-13), Num 93), (Num 8, Num 145)).

Definition no_selection : selection :=
  {| province := None; city := None; district := None; village := None |}.

(** The state when the script has been loaded, over a document [d]. *)
Definition initial (d : dom) : state :=
  {| map := None;
     currentProvinceLayer := None; currentCityLayer := None;
     currentDistrictLayer := None; currentVillageLayer := None;
     provinceBoundariesLayer := None; cityBoundariesLayer := None;
     provinceBoundaryLayer := Unbound; cityBoundaryLayer := Unbound;
     selectedLocation := no_selection;
     document := d; next_lid := 0; pending := [] |}.

(** *** Field updates *)

Definition set_map (x : option map_state) (s : state) : state :=
  {| map := x;
     currentProvinceLayer := currentProvinceLayer s; currentCityLayer := currentCityLayer s;
     currentDistrictLayer := currentDistrictLayer s; currentVillageLayer := currentVillageLayer s;
     provinceBoundariesLayer := provinceBoundariesLayer s; cityBoundariesLayer := cityBoundariesLayer s;
     provinceBoundaryLayer := provinceBoundaryLayer s; cityBoundaryLayer := cityBoundaryLayer s;
     selectedLocation := selectedLocation s;
     document := document s; next_lid := next_lid s; pending := pending s |}.

Definition set_currentProvinceLayer (x : option layer) (s : state) : state :=
  {| map := map s;
     currentProvinceLayer := x; currentCityLayer := currentCityLayer s;
     currentDistrictLayer := currentDistrictLayer s; currentVillageLayer := currentVillageLayer s;
     provinceBoundariesLayer := provinceBoundariesLayer s; cityBoundariesLayer := cityBoundariesLayer s;
     provinceBoundaryLayer := provinceBoundaryLayer s; cityBoundaryLayer := cityBoundaryLayer s;
     selectedLocation := selectedLocation s;
     document := document s; next_lid := next_lid s; pending := pending s |}.

Definition set_currentCityLayer (x : option layer) (s : state) : state :=
  {| map := map s;
     currentProvinceLayer := currentProvinceLayer s; currentCityLayer := x;
     currentDistrictLayer := currentDistrictLayer s; currentVillageLayer := currentVillageLayer s;
     provinceBoundariesLayer := provinceBoundariesLayer s; cityBoundariesLayer := cityBoundariesLayer s;
     provinceBoundaryLayer := provinceBoundaryLayer s; cityBoundaryLayer := cityBoundaryLayer s;
     selectedLocation := selectedLocation s;
     document := document s; next_lid := next_lid s; pending := pending s |}.

Definition set_currentDistrictLayer (x : option layer) (s : state) : state :=
  {| map := map s;
     currentProvinceLayer := currentProvinceLayer s; currentCityLayer := currentCityLayer s;
     currentDistrictLayer := x; currentVillageLayer := currentVillageLayer s;
     provinceBoundariesLayer := provinceBoundariesLayer s; cityBoundariesLayer := cityBoundariesLayer s;
     provinceBoundaryLayer := provinceBoundaryLayer s; cityBoundaryLayer := cityBoundaryLayer s;
     selectedLocation := selectedLocation s;
     document := document s; next_lid := next_lid s; pending := pending s |}.

Definition set_currentVillageLayer (x : option layer) (s : state) : state :=
  {| map := map s;
     currentProvinceLayer := currentProvinceLayer s; currentCityLayer := currentCityLayer s;
     currentDistrictLayer := currentDistrictLayer s; currentVillageLayer := x;
     provinceBoundariesLayer := provinceBoundariesLayer s; cityBoundariesLayer := cityBoundariesLayer s;
     provinceBoundaryLayer := provinceBoundaryLayer s; cityBoundaryLayer := cityBoundaryLayer s;
     selectedLocation := selectedLocation s;
     document := document s; next_lid := next_lid s; pending := pending s |}.

Definition set_provinceBoundariesLayer (x : option layer) (s : state) : state :=
  {| map := map s;
     currentProvinceLayer := currentProvinceLayer s; currentCityLayer := currentCityLayer s;
     currentDistrictLayer := currentDistrictLayer s; currentVillageLayer := currentVillageLayer s;
     provinceBoundariesLayer := x; cityBoundariesLayer := cityBoundariesLayer s;
     provinceBoundaryLayer := provinceBoundaryLayer s; cityBoundaryLayer := cityBoundaryLayer s;
     selectedLocation := selectedLocation s;
     document := document s; next_lid := next_lid s; pending := pending s |}.

Definition set_cityBoundariesLayer (x : option layer) (s : state) : state :=
  {| map := map s;
     currentProvinceLayer := currentProvinceLayer s; currentCityLayer := currentCityLayer s;
     currentDistrictLayer := currentDistrictLayer s; currentVillageLayer := currentVillageLayer s;
     provinceBoundariesLayer := provinceBoundariesLayer s; cityBoundariesLayer := x;
     provinceBoundaryLayer := provinceBoundaryLayer s; cityBoundaryLayer := cityBoundaryLayer s;
     selectedLocation := selectedLocation s;
     document := document s; next_lid := next_lid s; pending := pending s |}.

Definition set_provinceBoundaryLayer (x : binding) (s : state) : state :=
  {| map := map s;
     currentProvinceLayer := currentProvinceLayer s; currentCityLayer := currentCityLayer s;
     currentDistrictLayer := currentDistrictLayer s; currentVillageLayer := currentVillageLayer s;
     provinceBoundariesLayer := provinceBoundariesLayer s; cityBoundariesLayer := cityBoundariesLayer s;
     provinceBoundaryLayer := x; cityBoundaryLayer := cityBoundaryLayer s;
     selectedLocation := selectedLocation s;
     document := document s; next_lid := next_lid s; pending := pending s |}.

Definition set_cityBoundaryLayer (x : binding) (s : state) : state :=
  {| map := map s;
     currentProvinceLayer := currentProvinceLayer s; currentCityLayer := currentCityLayer s;
     currentDistrictLayer := currentDistrictLayer s; currentVillageLayer := currentVillageLayer s;
     provinceBoundariesLayer := provinceBoundariesLayer s; cityBoundariesLayer := cityBoundariesLayer s;
     provinceBoundaryLayer := provinceBoundaryLayer s; cityBoundaryLayer := x;
     selectedLocation := selectedLocation s;
     document := document s; next_lid := next_lid s; pending := pending s |}.

Definition set_selectedLocation (x : selection) (s : state) : state :=
  {| map := map s;
     currentProvinceLayer := currentProvinceLayer s; currentCityLayer := currentCityLayer s;
     currentDistrictLayer := currentDistrictLayer s; currentVillageLayer := currentVillageLayer s;
     provinceBoundariesLayer := provinceBoundariesLayer s; cityBoundariesLayer := cityBoundariesLayer s;
     provinceBoundaryLayer := provinceBoundaryLayer s; cityBoundaryLayer := cityBoundaryLayer s;
     selectedLocation := x;
     document := document s; next_lid := next_lid s; pending := pending s |}.

Definition set_document (x : dom) (s : state) : state :=
  {| map := map s;
     currentProvinceLayer := currentProvinceLayer s; currentCityLayer := currentCityLayer s;
     currentDistrictLayer := currentDistrictLayer s; currentVillageLayer := currentVillageLayer s;
     provinceBoundariesLayer := provinceBoundariesLayer s; cityBoundariesLayer := cityBoundariesLayer s;
     provinceBoundaryLayer := provinceBoundaryLayer s; cityBoundaryLayer := cityBoundaryLayer s;
     selectedLocation := selectedLocation s;
     document := x; next_lid := next_lid s; pending := pending s |}.

Definition set_next_lid (x : nat) (s : state) : state :=
  {| map := map s;
     currentProvinceLayer := currentProvinceLayer s; currentCityLayer := currentCityLayer s;
     currentDistrictLayer := currentDistrictLayer s; currentVillageLayer := currentVillageLayer s;
     provinceBoundariesLayer := provinceBoundariesLayer s; cityBoundariesLayer := cityBoundariesLayer s;
     provinceBoundaryLayer := provinceBoundaryLayer s; cityBoundaryLayer := cityBoundaryLayer s;
     selectedLocation := selectedLocation s;
     document := document s; next_lid := x; pending := pending s |}.

Definition set_pending (x : list task) (s : state) : state :=
  {| map := map s;
     currentProvinceLayer := currentProvinceLayer s; currentCityLayer := currentCityLayer s;
     currentDistrictLayer := currentDistrictLayer s; currentVillageLayer := currentVillageLayer s;
     provinceBoundariesLayer := provinceBoundariesLayer s; cityBoundariesLayer := cityBoundariesLayer s;
     provinceBoundaryLayer := provinceBoundaryLayer s; cityBoundaryLayer := cityBoundaryLayer s;
     selectedLocation := selectedLocation s;
     document := document s; next_lid := next_lid s; pending := x |}.

(** *** Computations: state, exceptions, [try]/[catch] *)

Definition M (A : Type) : Type := state -> result A * state.

Definition ret {A : Type} (a : A) : M A := fun s => (Ok a, s).
Definition throw {A : Type} (e : error) : M A := fun s => (Throw e, s).
Definition bind {A B : Type} (m : M A) (k : A -> M B) : M B :=
  fun s =>
    match m s with
    | (Ok a, s') => k a s'
    | (Throw e, s') => (Throw e, s')
    end.
Definition lift {A : Type} (r : result A) : M A := fun s => (r, s).
Definition gets {A : Type} (f : state -> A) : M A := fun s => (Ok (f s), s).
Definition modify (f : state -> state) : M unit := fun s => (Ok tt, f s).

(** [try { m } catch (error) { handler }]; the handlers of the script never
    look at the error beyond logging it. *)
Definition try_catch (m handler : M unit) : M unit :=
  fun s =>
    match m s with
    | (Ok a, s') => (Ok a, s')
    | (Throw _, s') => handler s'
    end.

Definition exec {A : Type} (m : M A) (s : state) : state := snd (m s).
Definition outcome_of {A : Type} (m : M A) (s : state) : result A := fst (m s).

Declare Scope js_scope.
Delimit Scope js_scope with js.
Notation "x <- c1 ;; c2" := (bind c1 (fun x => c2))
  (at level 61, c1 at next level, right associativity) : js_scope.
Notation "c1 ;; c2" := (bind c1 (fun _ => c2))
  (at level 61, right associativity) : js_scope.
Local Open Scope js_scope.

(** [await request]: the method stops here and [t] waits for the request. *)
Definition await (t : task) : M unit :=
  modify (fun s => set_pending (pending s ++ [t]) s).

(** *** Leaflet *)

Definition without (l : layer) (ls : list layer) : list layer :=
  filter (fun x => negb (lid x =? lid l)%nat) ls.

(** The centre of the view that [setView] leaves: the one it is asked
    for, limited to the max bounds when the map has any.  (The zoom levels
    the script asks for, 5 to 14, are within the zoom range of every tile
    layer of the page and are not limited.) *)
Definition limited (h : host) (b : option bounds) (c : jsnum * jsnum) (z : Z)
    : jsnum * jsnum :=
  match b with
  | Some b => limitCenter h b c z
  | None => c
  end.

Definition map_setView (h : host) (c : jsnum * jsnum) (z : Z) : M unit :=
  fun s =>
    match map s with
    | None => (Throw TypeError, s)
    | Some m =>
        (Ok tt, set_map (Some {| center := limited h (maxBounds m) c z; zoom := z;
                                 layers := layers m; maxBounds := maxBounds m |}) s)
    end.

(** [map.setMaxBounds(b)]: the bounds are stored and the view is moved
    inside them. *)
Definition map_setMaxBounds (h : host) (b : bounds) : M unit :=
  fun s =>
    match map s with
    | None => (Throw TypeError, s)
    | Some m =>
        (Ok tt, set_map (Some {| center := limitCenter h b (center m) (zoom m);
                                 zoom := zoom m; layers := layers m;
                                 maxBounds := Some b |}) s)
    end.

Definition map_removeLayer (l : layer) : M unit :=
  fun s =>
    match map s with
    | None => (Throw TypeError, s)
    | Some m =>
        (Ok tt, set_map (Some {| center := center m; zoom := zoom m;
                                 layers := without l (layers m);
                                 maxBounds := maxBounds m |}) s)
    end.

Definition new_layer (sh : overlay) : M layer :=
  fun s => (Ok {| lid := next_lid s; shape := sh |}, set_next_lid (S (next_lid s)) s).

(** [layer.addTo(map)] *)
Definition addTo_map (l : layer) : M layer :=
  fun s =>
    match map s with
    | None => (Throw TypeError, s)
    | Some m =>
        (Ok l, set_map (Some {| center := center m; zoom := zoom m;
                                layers := layers m ++ [l];
                                maxBounds := maxBounds m |}) s)
    end.

Definition remove_if_any (cur : option layer) : M unit :=
  match cur with
  | Some l => map_removeLayer l
  | None => ret tt
  end.

Section Methods.
Variable h : host.

  (** [L.marker([lat, lng], {icon})]; the popup bound right after the
      marker is added is kept with it. *)
Definition L_marker (lvl : level) (lat lng : jsnum) (popup : value) : M layer :=
    if latLng_ok h lat lng then new_layer (Marker lvl lat lng popup)
    else throw LeafletError.

Definition L_polygon (lvl : level) (rings : list ring) : M layer :=
    if forallb (forallb (fun p => latLng_ok h (fst p) (snd p))) rings
    then new_layer (Boundary lvl rings)
    else throw LeafletError.

  (** *** The document *)

Definition on_document (f : dom -> dom) : M unit :=
    modify (fun s => set_document (f (document s)) s).

Definition with_info (x : display) (d : dom) : dom :=
    {| province_info := option_map (fun _ => x) (province_info d);
       province_info_content := province_info_content d;
       province_select := province_select d;
       city_selector := city_selector d;
       district_selector := district_selector d;
       village_selector := village_selector d |}.

Definition with_content (x : panel) (d : dom) : dom :=
    {| province_info := province_info d;
       province_info_content := option_map (fun _ => x) (province_info_content d);
       province_select := province_select d;
       city_selector := city_selector d;
       district_selector := district_selector d;
       village_selector := village_selector d |}.

Definition with_province_select (x : string) (d : dom) : dom :=
    {| province_info := province_info d;
       province_info_content := province_info_content d;
       province_select := option_map (fun _ => x) (province_select d);
       city_selector := city_selector d;
       district_selector := district_selector d;
       village_selector := village_selector d |}.

Definition with_city_selector (f : selector -> selector) (d : dom) : dom :=
    {| province_info := province_info d;
       province_info_content := province_info_content d;
       province_select := province_select d;
       city_selector := option_map f (city_selector d);
       district_selector := district_selector d;
       village_selector := village_selector d |}.

Definition with_district_selector (f : selector -> selector) (d : dom) : dom :=
    {| province_info := province_info d;
       province_info_content := province_info_content d;
       province_select := province_select d;
       city_selector := city_selector d;
       district_selector := option_map f (district_selector d);
       village_selector := village_selector d |}.

Definition with_village_selector (f : selector -> selector) (d : dom) : dom :=
    {| province_info := province_info d;
       province_info_content := province_info_content d;
       province_select := province_select d;
       city_selector := city_selector d;
       district_selector := district_selector d;
       village_selector := option_map f (village_selector d) |}.

  (** [innerHTML = '<option value="">Select ...</option>'; disabled = true] *)
Definition cleared (_ : selector) : selector :=
    {| sel_caption := Prompt; sel_options := []; sel_disabled := true |}.
  (** [innerHTML = '<option value="">Loading...</option>'; disabled = true] *)
Definition loading (_ : selector) : selector :=
    {| sel_caption := LoadingCaption; sel_options := []; sel_disabled := true |}.
  (** [innerHTML = '<option value="">Select ...</option>'] *)
Definition prompted (sel : selector) : selector :=
    {| sel_caption := Prompt; sel_options := []; sel_disabled := sel_disabled sel |}.
  (** the options appended by [forEach], then [disabled = false] *)
Definition populated (opts : list (value * value)) (sel : selector) : selector :=
    {| sel_caption := Prompt; sel_options := opts; sel_disabled := false |}.
  (** [innerHTML = '<option value="">Error loading ...</option>'] *)
Definition failed (sel : selector) : selector :=
    {| sel_caption := ErrorCaption; sel_options := []; sel_disabled := sel_disabled sel |}.

Definition clearVillageSelector : M unit :=
    on_document (with_village_selector cleared).

Definition clearDistrictSelector : M unit :=
    on_document (with_district_selector cleared);;
    clearVillageSelector.

Definition clearCitySelector : M unit :=
    on_document (with_city_selector cleared);;
    clearDistrictSelector.

  (** *** Responses *)

  (** A settled request: [fetchData] rethrows every transport, HTTP or
      decoding failure, otherwise returns the decoded body. *)
Inductive outcome : Type :=
  | Rejected
  | Fulfilled (response : value).

Definition settled (o : outcome) : M value :=
    match o with
    | Rejected => throw FetchError
    | Fulfilled response => ret response
    end.

  (** [response.success && response.data], and [response.data] when truthy. *)
Definition success_and_data (response : value) : result (option value) :=
    match get_prop "success" response with
    | Throw e => Throw e
    | Ok ok =>
        if truthy ok then
          match get_prop "data" response with
          | Throw e => Throw e
          | Ok data => if truthy data then Ok (Some data) else Ok None
          end
        else Ok None
    end.

  (** The [<option>]s built by [response.data.forEach(item => ...)]. *)
Fixpoint options_from (kcode kname : string) (items : list value)
    : result (list (value * value)) :=
    match items with
    | [] => Ok []
    | item :: rest =>
        match get_prop kcode item, get_prop kname item with
        | Ok c, Ok n =>
            match options_from kcode kname rest with
            | Ok opts => Ok ((c, n) :: opts)
            | Throw e => Throw e
            end
        | Throw e, _ => Throw e
        | _, Throw e => Throw e
        end
    end.

Definition options_of (kcode kname : string) (data : value)
    : result (list (value * value)) :=
    match data with
    | VArr items => options_from kcode kname items
    | _ => Throw TypeError
    end.

  (** *** The selectors *)

Definition populateCitySelector (provinceCode : string) : M unit :=
    d <- gets document;;
    match city_selector d with
    | None => ret tt
    | Some _ =>
        if String.eqb provinceCode "" then
          on_document (with_city_selector cleared);;
          clearDistrictSelector
        else
          try_catch
            (on_document (with_city_selector loading);;
             await (KCities provinceCode))
            (on_document (with_city_selector failed))
    end.

Definition resume_Cities (o : outcome) : M unit :=
    try_catch
      (response <- settled o;;
       r <- lift (success_and_data response);;
       match r with
       | Some data =>
           on_document (with_city_selector prompted);;
           opts <- lift (options_of "kode_kabupaten_kota" "nama_kabupaten_kota" data);;
           on_document (with_city_selector (populated opts))
       | None => ret tt
       end)
      (on_document (with_city_selector failed)).

Definition populateDistrictSelector (cityCode : string) : M unit :=
    d <- gets document;;
    match district_selector d with
    | None => ret tt
    | Some _ =>
        if String.eqb cityCode "" then
          on_document (with_district_selector cleared);;
          clearVillageSelector
        else
          try_catch
            (on_document (with_district_selector loading);;
             await (KDistricts cityCode))
            (on_document (with_district_selector failed))
    end.

Definition resume_Districts (o : outcome) : M unit :=
    try_catch
      (response <- settled o;;
       r <- lift (success_and_data response);;
       match r with
       | Some data =>
           on_document (with_district_selector prompted);;
           opts <- lift (options_of "kode_kecamatan" "nama_kecamatan" data);;
           on_document (with_district_selector (populated opts))
       | None => ret tt
       end)
      (on_document (with_district_selector failed)).

Definition populateVillageSelector (districtCode : string) : M unit :=
    d <- gets document;;
    match village_selector d with
    | None => ret tt
    | Some _ =>
        if String.eqb districtCode "" then
          on_document (with_village_selector cleared)
        else
          try_catch
            (on_document (with_village_selector loading);;
             await (KVillages districtCode))
            (on_document (with_village_selector failed))
    end.

Definition resume_Villages (o : outcome) : M unit :=
    try_catch
      (response <- settled o;;
       r <- lift (success_and_data response);;
       match r with
       | Some data =>
           on_document (with_village_selector prompted);;
           opts <- lift (options_of "kode_desa_kelurahan" "nama_desa_kelurahan" data);;
           on_document (with_village_selector (populated opts))
       | None => ret tt
       end)
      (on_document (with_village_selector failed)).

  (** *** Boundaries *)

Definition showProvinceBoundary (geoData : value) : M unit :=
    try_catch
      (if truthy geoData then
         path <- lift (get_prop "path" geoData);;
         if truthy path then
           cur <- gets provinceBoundariesLayer;;
           remove_if_any cur;;
           match decode_path h path with
           | None => ret tt
           | Some pathProvinceCoordinates =>
               polygons <- lift (polygons_of h pathProvinceCoordinates);;
               match polygons with
               | [] => ret tt
               | _ :: _ =>
                   l <- L_polygon Province polygons;;
                   l <- addTo_map l;;
                   modify (set_provinceBoundariesLayer (Some l))
               end
           end
         else ret tt
       else ret tt)
      (ret tt).

Definition showCityBoundary (geoData : value) : M unit :=
    try_catch
      (if truthy geoData then
         path <- lift (get_prop "path" geoData);;
         if truthy path then
           cur <- gets cityBoundariesLayer;;
           remove_if_any cur;;
           match decode_path h path with
           | None => ret tt
           | Some pathCoordinates =>
               polygons <- lift (polygons_of h pathCoordinates);;
               match polygons with
               | [] => ret tt
               | _ :: _ =>
                   l <- L_polygon City polygons;;
                   l <- addTo_map l;;
                   modify (set_cityBoundariesLayer (Some l))
               end
           end
         else ret tt
       else ret tt)
      (ret tt).

  (** *** The info panel *)

Definition showProvinceInfo (data : value) : M unit :=
    d <- gets document;;
    match province_info d, province_info_content d with
    | Some _, Some _ =>
        on_document (with_content (PanelInfo data));;
        on_document (with_info DisplayBlock)
    | _, _ => ret tt
    end.

  (** *** Reset *)

  (** Evaluating a global name: a name that was never declared nor
      assigned raises a ReferenceError. *)
Definition read (b : state -> binding) : M (option layer) :=
    x <- gets b;;
    match x with
    | Unbound => throw ReferenceError
    | Bound l => ret l
    end.

Definition resetMap : M unit :=
    map_setView h DEFAULT_COORDINATE DEFAULT_ZOOM;;
    (* Remove all current layers *)
    cur <- gets currentProvinceLayer;;
    match cur with
    | Some l => map_removeLayer l;; modify (set_currentProvinceLayer None)
    | None => ret tt
    end;;
    cur <- gets currentCityLayer;;
    match cur with
    | Some l => map_removeLayer l;; modify (set_currentCityLayer None)
    | None => ret tt
    end;;
    cur <- gets currentDistrictLayer;;
    match cur with
    | Some l => map_removeLayer l;; modify (set_currentDistrictLayer None)
    | None => ret tt
    end;;
    cur <- gets currentVillageLayer;;
    match cur with
    | Some l => map_removeLayer l;; modify (set_currentVillageLayer None)
    | None => ret tt
    end;;
    (* Remove boundary layers *)
    cur <- read provinceBoundaryLayer;;
    match cur with
    | Some l => map_removeLayer l;; modify (set_provinceBoundaryLayer (Bound None))
    | None => ret tt
    end;;
    cur <- read cityBoundaryLayer;;
    match cur with
    | Some l => map_removeLayer l;; modify (set_cityBoundaryLayer (Bound None))
    | None => ret tt
    end;;
    (* Reset selected location *)
    modify (set_selectedLocation no_selection);;
    (* Reset all selectors *)
    on_document (with_province_select "");;
    on_document (with_city_selector cleared);;
    on_document (with_district_selector cleared);;
    on_document (with_village_selector cleared);;
    (* Hide info panel *)
    on_document (with_info DisplayNone);;
    (* Clear boundary layers *)
    cur <- read provinceBoundaryLayer;;
    match cur with
    | Some l => map_removeLayer l;; modify (set_provinceBoundaryLayer (Bound None))
    | None => ret tt
    end;;
    cur <- gets cityBoundariesLayer;;
    match cur with
    | Some l => map_removeLayer l;; modify (set_cityBoundariesLayer None)
    | None => ret tt
    end.

  (** *** Selection: the synchronous prefix of each method *)

Definition selectProvince (provinceCode : string) : M unit :=
    if String.eqb provinceCode "" then
      resetMap;;
      clearCitySelector
    else
      try_catch
        ((* Show loading indicator *)
         on_document (with_content PanelLoading);;
         on_document (with_info DisplayBlock);;
         (* Store selected province *)
         modify (set_selectedLocation
                   {| province := Some provinceCode; city := None;
                      district := None; village := None |});;
         await (KProvinceGeo provinceCode))
        (on_document (with_content PanelError)).

Definition selectCity (cityCode : string) : M unit :=
    if String.eqb cityCode "" then
      cur <- gets currentCityLayer;;
      match cur with
      | Some l => map_removeLayer l;; modify (set_currentCityLayer None)
      | None => ret tt
      end;;
      clearDistrictSelector;;
      modify (fun s => set_selectedLocation
                         {| province := province (selectedLocation s); city := None;
                            district := None; village := None |} s)
    else
      try_catch
        (modify (fun s => set_selectedLocation
                            {| province := province (selectedLocation s);
                               city := Some cityCode;
                               district := None; village := None |} s);;
         await (KCityGeo cityCode))
        (ret tt).

Definition selectDistrict (districtCode : string) : M unit :=
    if String.eqb districtCode "" then
      cur <- gets currentDistrictLayer;;
      match cur with
      | Some l => map_removeLayer l;; modify (set_currentDistrictLayer None)
      | None => ret tt
      end;;
      clearVillageSelector;;
      modify (fun s => set_selectedLocation
                         {| province := province (selectedLocation s);
                            city := city (selectedLocation s);
                            district := None; village := None |} s)
    else
      try_catch
        (modify (fun s => set_selectedLocation
                            {| province := province (selectedLocation s);
                               city := city (selectedLocation s);
                               district := Some districtCode; village := None |} s);;
         await (KDistrictDetail districtCode))
        (ret tt).

Definition selectVillage (villageCode : string) : M unit :=
    if String.eqb villageCode "" then
      cur <- gets currentVillageLayer;;
      match cur with
      | Some l => map_removeLayer l;; modify (set_currentVillageLayer None)
      | None => ret tt
      end;;
      modify (fun s => set_selectedLocation
                         {| province := province (selectedLocation s);
                            city := city (selectedLocation s);
                            district := district (selectedLocation s);
                            village := None |} s)
    else
      try_catch
        (modify (fun s => set_selectedLocation
                            {| province := province (selectedLocation s);
                               city := city (selectedLocation s);
                               district := district (selectedLocation s);
                               village := Some villageCode |} s);;
         await (KVillageDetail villageCode))
        (ret tt).

  (** *** Selection: what runs when the awaited request settles *)

  (** Truthiness of a field of [selectedLocation]: [null] and the empty
      string are falsy. *)
Definition selected (x : option string) : bool :=
    match x with
    | Some c => negb (String.eqb c "")
    | None => false
    end.

  (** The code a field of [selectedLocation] holds. *)
Definition code_in (x : option string) : string :=
    match x with
    | Some c => c
    | None => ""
    end.

  (** [a + b], [a - b] and [a * b] on doubles: a number stands for the
      double nearest to it, and the result is rounded to a double. *)
Definition num_add (a b : jsnum) : jsnum :=
    match a, b with
    | Num x, Num y => Num (double h (double h x + double h y))
    | _, _ => NaN
    end.

Definition num_sub (a b : jsnum) : jsnum :=
    match a, b with
    | Num x, Num y => Num (double h (double h x - double h y))
    | _, _ => NaN
    end.

Definition num_mul (a b : jsnum) : jsnum :=
    match a, b with
    | Num x, Num y => Num (double h (double h x * double h y))
    | _, _ => NaN
    end.

  (** [(Math.random() - 0.5) * scale] for a draw [r]. *)
Definition jitter (r scale : Q) : jsnum :=
    num_mul (num_sub (Num r) (Num (1 # 2))) (Num scale).

  (** [selectProvince] after [await apiService.getProvinceGeo(provinceCode)]. *)
Definition resume_ProvinceGeo (provinceCode : string) (o : outcome) : M unit :=
    try_catch
      (geoResponse <- settled o;;
       r <- lift (success_and_data geoResponse);;
       match r with
       | Some geoData =>
           latv <- lift (get_prop "lat" geoData);;
           lngv <- lift (get_prop "lng" geoData);;
           let lat := parseFloat h latv in
           let lng := parseFloat h lngv in
           if negb (is_nan lat) && negb (is_nan lng) then
             (* Remove existing province layer if any *)
             cur <- gets currentProvinceLayer;;
             remove_if_any cur;;
             (* Add marker for selected province *)
             l <- L_marker Province lat lng geoData;;
             l <- addTo_map l;;
             modify (set_currentProvinceLayer (Some l));;
             (* Pan to province *)
             map_setView h (lat, lng) 8;;
             showProvinceInfo geoData;;
             (* Automatically show province boundary *)
             showProvinceBoundary geoData;;
             (* Load cities for this province *)
             populateCitySelector provinceCode
           else ret tt
       | None => ret tt
       end)
      (on_document (with_content PanelError)).

  (** [selectCity] after [await apiService.getCityGeo(cityCode)]. *)
Definition resume_CityGeo (cityCode : string) (o : outcome) : M unit :=
    try_catch
      (geoResponse <- settled o;;
       r <- lift (success_and_data geoResponse);;
       match r with
       | Some geoData =>
           latv <- lift (get_prop "lat" geoData);;
           lngv <- lift (get_prop "lng" geoData);;
           let lat := parseFloat h latv in
           let lng := parseFloat h lngv in
           if negb (is_nan lat) && negb (is_nan lng) then
             cur <- gets currentCityLayer;;
             remove_if_any cur;;
             l <- L_marker City lat lng geoData;;
             l <- addTo_map l;;
             modify (set_currentCityLayer (Some l));;
             (* Pan to city with higher zoom *)
             map_setView h (lat, lng) 10;;
             showCityBoundary geoData;;
             populateDistrictSelector cityCode
           else ret tt
       | None => ret tt
       end)
      (ret tt).

  (** [selectDistrict] after [await apiService.getDistrictDetail(districtCode)]. *)
Definition resume_DistrictDetail (districtCode : string) (o : outcome) : M unit :=
    try_catch
      (detailResponse <- settled o;;
       r <- lift (success_and_data detailResponse);;
       match r with
       | Some districtData =>
           sel <- gets selectedLocation;;
           if selected (city sel)
           then await (KDistrictCityGeo districtCode districtData (code_in (city sel)))
           else ret tt
       | None => ret tt
       end)
      (ret tt).

  (** [selectDistrict] after [await apiService.getCityGeo(selectedLocation.city)],
      the city being the one selected when the detail arrived; [r1] and [r2]
      are the two values of [Math.random()]. *)
Definition resume_DistrictCityGeo (districtCode : string) (districtData : value)
      (o : outcome) (r1 r2 : Q) : M unit :=
    try_catch
      (cityGeoResponse <- settled o;;
       r <- lift (success_and_data cityGeoResponse);;
       match r with
       | Some data =>
           latv <- lift (get_prop "lat" data);;
           lngv <- lift (get_prop "lng" data);;
           let cityLat := parseFloat h latv in
           let cityLng := parseFloat h lngv in
           (* Add small random offset for district marker *)
           let districtLat := num_add cityLat (jitter r1 (1 # 10)) in
           let districtLng := num_add cityLng (jitter r2 (1 # 10)) in
           cur <- gets currentDistrictLayer;;
           remove_if_any cur;;
           l <- L_marker District districtLat districtLng districtData;;
           l <- addTo_map l;;
           modify (set_currentDistrictLayer (Some l));;
           (* Pan to district with higher zoom *)
           map_setView h (districtLat, districtLng) 12;;
           populateVillageSelector districtCode
       | None => ret tt
       end)
      (ret tt).

  (** [selectVillage] after [await apiService.getVillageDetail(villageCode)]. *)
Definition resume_VillageDetail (villageCode : string) (o : outcome) : M unit :=
    try_catch
      (detailResponse <- settled o;;
       r <- lift (success_and_data detailResponse);;
       match r with
       | Some villageData =>
           sel <- gets selectedLocation;;
           if selected (city sel)
           then await (KVillageCityGeo villageCode villageData (code_in (city sel)))
           else ret tt
       | None => ret tt
       end)
      (ret tt).

  (** [selectVillage] after [await apiService.getCityGeo(selectedLocation.city)]. *)
Definition resume_VillageCityGeo (villageCode : string) (villageData : value)
      (o : outcome) (r1 r2 : Q) : M unit :=
    try_catch
      (cityGeoResponse <- settled o;;
       r <- lift (success_and_data cityGeoResponse);;
       match r with
       | Some data =>
           latv <- lift (get_prop "lat" data);;
           lngv <- lift (get_prop "lng" data);;
           let cityLat := parseFloat h latv in
           let cityLng := parseFloat h lngv in
           (* Add larger random offset for village marker *)
           let villageLat := num_add cityLat (jitter r1 (2 # 10)) in
           let villageLng := num_add cityLng (jitter r2 (2 # 10)) in
           cur <- gets currentVillageLayer;;
           remove_if_any cur;;
           l <- L_marker Village villageLat villageLng villageData;;
           l <- addTo_map l;;
           modify (set_currentVillageLayer (Some l));;
           (* Pan to village with highest zoom *)
           map_setView h (villageLat, villageLng) 14
       | None => ret tt
       end)
      (ret tt).

Definition resume (t : task) (o : outcome) (r1 r2 : Q) : M unit :=
    match t with
    | KProvinceGeo code => resume_ProvinceGeo code o
    | KCities _ => resume_Cities o
    | KCityGeo code => resume_CityGeo code o
    | KDistricts _ => resume_Districts o
    | KDistrictDetail code => resume_DistrictDetail code o
    | KDistrictCityGeo code data _ => resume_DistrictCityGeo code data o r1 r2
    | KVillages _ => resume_Villages o
    | KVillageDetail code => resume_VillageDetail code o
    | KVillageCityGeo code data _ => resume_VillageCityGeo code data o r1 r2
    end.

  (** *** The page as a transition system *)

  (** [map = L.map('indonesia-map').setView(c, z)]: Leaflet refuses a
      container that already holds a map. *)
Definition L_map (c : jsnum * jsnum) (z : Z) : M unit :=
    fun s =>
      match map s with
      | Some _ => (Throw LeafletError, s)
      | None =>
          (Ok tt, set_map (Some {| center := c; zoom := z; layers := [];
                                   maxBounds := None |}) s)
      end.

  (** [mapManager.init]: the map is created at the default view and
      given the bounds of Indonesia.  (The tile layers and the layer
      control are none of the overlays of this model, and the province list
      that [init] then loads only fills [#province-selector], which no
      method of this model reads.) *)
Definition init : M unit :=
    L_map DEFAULT_COORDINATE DEFAULT_ZOOM;;
    map_setMaxBounds h INDONESIA_BOUNDS.

Fixpoint remove_nth {A : Type} (i : nat) (l : list A) : list A :=
    match i, l with
    | _, [] => []
    | O, _ :: l' => l'
    | S i', x :: l' => x :: remove_nth i' l'
    end.

  (** The [i]-th pending request settles with [o]. *)
Definition settle (i : nat) (o : outcome) (r1 r2 : Q) : M unit :=
    ts <- gets pending;;
    match nth_error ts i with
    | None => ret tt
    | Some t =>
        modify (set_pending (remove_nth i ts));;
        resume t o r1 r2
    end.

Inductive event : Type :=
  | EInit
  | ESelectProvince (code : string)
  | ESelectCity (code : string)
  | ESelectDistrict (code : string)
  | ESelectVillage (code : string)
  | EResetMap
  | ESettle (i : nat) (o : outcome) (r1 r2 : Q).

Definition handler (e : event) : M unit :=
    match e with
    | EInit => init
    | ESelectProvince code => selectProvince code
    | ESelectCity code => selectCity code
    | ESelectDistrict code => selectDistrict code
    | ESelectVillage code => selectVillage code
    | EResetMap => resetMap
    | ESettle i o r1 r2 => settle i o r1 r2
    end.

  (** An error that leaves a handler is reported by the browser; the state
      reached when it was thrown is the state the page continues from. *)
Definition step (s : state) (e : event) : state := exec (handler e) s.

Definition run (es : list event) (s : state) : state := fold_left step es s.

End Methods.

(** *** Observations *)

Definition level_eqb (a b : level) : bool :=
  match a, b with
  | Province, Province | City, City | District, District | Village, Village => true
  | _, _ => false
  end.

Definition is_marker (lvl : level) (l : layer) : bool :=
  match shape l with
  | Marker lvl' _ _ _ => level_eqb lvl lvl'
  | Boundary _ _ => false
  end.

Definition is_boundary (lvl : level) (l : layer) : bool :=
  match shape l with
  | Boundary lvl' _ => level_eqb lvl lvl'
  | Marker _ _ _ _ => false
  end.

Definition live_layers (s : state) : list layer :=
  match map s with
  | Some m => layers m
  | None => []
  end.

Definition live_markers (lvl : level) (s : state) : list layer :=
  filter (is_marker lvl) (live_layers s).

Definition live_boundaries (lvl : level) (s : state) : list layer :=
  filter (is_boundary lvl) (live_layers s).

Definition viewport (s : state) : option ((jsnum * jsnum) * Z) :=
  match map s with
  | Some m => Some (center m, zoom m)
  | None => None
  end.

(** The ancestor invariant of the selection (section 3 of the design). *)
Definition is_set (x : option string) : bool :=
  match x with Some _ => true | None => false end.

Definition ancestors_set (sel : selection) : bool :=
  implb (is_set (city sel)) (is_set (province sel))
  && implb (is_set (district sel)) (is_set (city sel))
  && implb (is_set (village sel)) (is_set (district sel)).

End App.

(** ** A reference browser

    One concrete [host], used to run the methods on concrete payloads:
    a reader for the decimal numerals and the array fragment of JSON
    (numbers without exponent, strings without escapes, [null], [true],
    [false], arrays), and Leaflet's refusal of NaN coordinates. *)

Module Reference.
Local Open Scope char_scope.

Definition digit (c : ascii) : option Z :=
  let n := nat_of_ascii c in
  if ((48 <=? n) && (n <=? 57))%nat then Some (Z.of_nat (n - 48)) else None.

Definition is_space (c : ascii) : bool :=
  let n := nat_of_ascii c in
  ((n =? 32) || (n =? 9) || (n =? 10) || (n =? 13))%nat.

Fixpoint skip_spaces (cs : list ascii) : list ascii :=
  match cs with
  | c :: cs' => if is_space c then skip_spaces cs' else cs
  | [] => []
  end.

(** Reads a run of digits: its value after [acc], how many there were,
    and what follows. *)
Fixpoint read_digits (cs : list ascii) (acc : Z) (n : nat) : Z * nat * list ascii :=
  match cs with
  | c :: cs' =>
      match digit c with
      | Some d => read_digits cs' (10 * acc + d)%Z (S n)
      | None => (acc, n, cs)
      end
  | [] => (acc, n, [])
  end.

(** [-?digits(.digits)?] at the head of [cs]. *)
Definition read_number (cs : list ascii) : option (Q * list ascii) :=
  let '(neg, cs1) := match cs with
                     | "-" :: r => (true, r)
                     | _ => (false, cs)
                     end in
  let '(i, n, cs2) := read_digits cs1 0 0 in
  if (n =? 0)%nat then None
  else
    let '(num, den, rest) :=
      match cs2 with
      | "." :: r =>
          let '(f, k, cs3) := read_digits r i 0 in
          if (k =? 0)%nat then (i, 1%positive, cs2)
          else (f, Z.to_pos (10 ^ Z.of_nat k), cs3)
      | _ => (i, 1%positive, cs2)
      end in
    Some (Qmake (if neg then - num else num) den, rest).

Definition parseFloat_string (s : string) : jsnum :=
  match read_number (skip_spaces (list_ascii_of_string s)) with
  | Some (q, _) => Num q
  | None => NaN
  end.

Definition StringToNumber (s : string) : jsnum :=
  match skip_spaces (list_ascii_of_string s) with
  | [] => Num 0
  | cs =>
      match read_number cs with
      | Some (q, rest) =>
          match skip_spaces rest with
          | [] => Num q
          | _ :: _ => NaN
          end
      | None => NaN
      end
  end.

Definition quote : ascii := ascii_of_nat 34.

Fixpoint read_string (cs : list ascii) : option (string * list ascii) :=
  match cs with
  | [] => None
  | c :: cs' =>
      if Ascii.eqb c quote then Some (EmptyString, cs')
      else
        match read_string cs' with
        | Some (s, rest) => Some (String c s, rest)
        | None => None
        end
  end.

Fixpoint read_value (fuel : nat) (cs : list ascii) : option (value * list ascii) :=
  match fuel with
  | O => None
  | S fuel' =>
      match skip_spaces cs with
      | "n" :: "u" :: "l" :: "l" :: r => Some (VNull, r)
      | "t" :: "r" :: "u" :: "e" :: r => Some (VBool true, r)
      | "f" :: "a" :: "l" :: "s" :: "e" :: r => Some (VBool false, r)
      | "[" :: r =>
          match skip_spaces r with
          | "]" :: r' => Some (VArr [], r')
          | _ =>
              match read_elements fuel' r with
              | Some (vs, r') => Some (VArr vs, r')
              | None => None
              end
          end
      | c :: r =>
          if Ascii.eqb c quote then
            match read_string r with
            | Some (s, r') => Some (VStr s, r')
            | None => None
            end
          else
            match read_number (c :: r) with
            | Some (q, r') => Some (VNum (Num q), r')
            | None => None
            end
      | [] => None
      end
  end
with read_elements (fuel : nat) (cs : list ascii) : option (list value * list ascii) :=
  match fuel with
  | O => None
  | S fuel' =>
      match read_value fuel' cs with
      | Some (v, r) =>
          match skip_spaces r with
          | "," :: r' =>
              match read_elements fuel' r' with
              | Some (vs, r'') => Some (v :: vs, r'')
              | None => None
              end
          | "]" :: r' => Some ([v], r')
          | _ => None
          end
      | None => None
      end
  end.

Definition JSON_parse (s : string) : option value :=
  let cs := list_ascii_of_string s in
  match read_value (S (List.length cs)) cs with
  | Some (v, rest) =>
      match skip_spaces rest with
      | [] => Some v
      | _ :: _ => None
      end
  | None => None
  end.

Definition latLng_ok (lat lng : jsnum) : bool :=
  negb (is_nan lat || is_nan lng).

Definition clamp (lo hi x : jsnum) : jsnum :=
  match lo, hi, x with
  | Num l, Num u, Num q =>
      if Qle_bool q l then lo else if Qle_bool u q then hi else x
  | _, _, _ => x
  end.

(** The limit of Leaflet for a map container without a size: a centre
    inside the bounds stays where it is, a centre outside them goes to the
    nearest point of the bounds (Leaflet takes the next pixel of its
    projection; the pixels are left out). *)
Definition limitCenter (b : (jsnum * jsnum) * (jsnum * jsnum)) (c : jsnum * jsnum)
    (z : Z) : jsnum * jsnum :=
  (clamp (fst (fst b)) (fst (snd b)) (fst c),
   clamp (snd (fst b)) (snd (snd b)) (snd c)).

(** The integer nearest to [y], the even one of two. *)
Definition nearest (y : Q) : Z :=
  let n := Qnum y in
  let d := Zpos (Qden y) in
  let q := (n / d)%Z in
  match (2 * (n mod d) ?= d)%Z with
  | Lt => q
  | Gt => (q + 1)%Z
  | Eq => if Z.even q then q else (q + 1)%Z
  end.

(** The greatest [e] with [2 ^ e <= |x|], for [x] other than 0. *)
Definition exponent (x : Q) : Z :=
  let e := (Z.log2 (Z.abs (Qnum x)) - Z.log2 (Zpos (Qden x)))%Z in
  if Qle_bool (2 ^ e) (Qabs x) then e else (e - 1)%Z.

(** Rounding to binary64: 53 bits, no exponent below -1074, ties to the
    even neighbour.  (There is no infinity in this model: the numbers of
    the page stay far below [2 ^ 1024].) *)
Definition double (x : Q) : Q :=
  if Qeq_bool x 0 then 0
  else
    let p := Z.max (exponent x - 52) (-1074) in
    Qred (inject_Z (nearest (x * 2 ^ (- p))) * 2 ^ p).

Local Open Scope string_scope.

Definition browser : host :=
  {| JS.JSON_parse := JSON_parse;
     JS.StringToNumber := StringToNumber;
     JS.parseFloat_string := parseFloat_string;
     JS.latLng_ok := latLng_ok;
     JS.limitCenter := limitCenter;
     JS.double := double |}.

(** A document that has every element the methods look up, as the page
    ships it. *)
Definition page : App.dom :=
  {| App.province_info := Some App.DisplayNone;
     App.province_info_content := Some App.PanelInitial;
     App.province_select := None;
     App.city_selector := Some {| App.sel_caption := App.Prompt; App.sel_options := [];
                                  App.sel_disabled := true |};
     App.district_selector := Some {| App.sel_caption := App.Prompt; App.sel_options := [];
                                      App.sel_disabled := true |};
     App.village_selector := Some {| App.sel_caption := App.Prompt; App.sel_options := [];
                                     App.sel_disabled := true |} |}.

(** Bodies of [/provinsi/{code}/geo] and [/kabupaten-kota/{code}/geo]. *)
Definition geo_body (name lat lng path : string) : value :=
  VObj [("success", VBool true);
        ("data", VObj [("nama", VStr name); ("lat", VStr lat); ("lng", VStr lng);
                       ("path", VStr path)])].

Definition jakarta : value :=
  geo_body "DKI JAKARTA" "-6.2" "106.8" "[[-6.1,106.7],[-6.3,106.7],[-6.3,106.9]]".

Definition aceh : value :=
  geo_body "ACEH" "4.7" "96.7" "[[[5,95],[5,97],[4,97]],[[2,96],[2,97]]]".

(** A record whose coordinate lies outside the bounds of the map. *)
Definition far_away : value := geo_body "ELSEWHERE" "50" "10" "".

(** An already normalized ring list. *)
Definition triangle : Polygon.ring :=
  [(Num 1, Num 2); (Num 3, Num 4); (Num 5, Num 6); (Num 1, Num 2)].

(** A record whose boundary is not JSON. *)
Definition broken_geo : value := VObj [("path", VStr "not json")].

(** A payload with a [null] pair in front of a triangle. *)
Definition null_first : value :=
  VArr [VArr [VNull; VNull];
        VArr [VNum (Num 1); VNum (Num 2)];
        VArr [VNum (Num 3); VNum (Num 4)];
        VArr [VNum (Num 5); VNum (Num 6)]].

(** The record inside [jakarta], and the map right after [init]. *)
Definition jakarta_data : value :=
  VObj [("nama", VStr "DKI JAKARTA"); ("lat", VStr "-6.2"); ("lng", VStr "106.8");
        ("path", VStr "[[-6.1,106.7],[-6.3,106.7],[-6.3,106.9]]")].

Definition fresh_map : App.map_state :=
  {| App.center := App.DEFAULT_COORDINATE; App.zoom := App.DEFAULT_ZOOM;
     App.layers := []; App.maxBounds := Some App.INDONESIA_BOUNDS |}.

Definition ready : App.state := App.step browser (App.initial page) App.EInit.

(** Body of [/kecamatan/{code}]. *)
Definition detail_body (name : string) : value :=
  VObj [("success", VBool true); ("data", VObj [("nama", VStr name)])].

End Reference.

(** ** Assertions on the page state *)

Module Logic.
Import Polygon App.

(** [hoare P m Q]: from a state in [P], the state in which [m] stops,
    normally or by a [throw], is in [Q]. *)
Definition hoare {A : Type} (P : state -> Prop) (m : M A) (Q : state -> Prop) : Prop :=
  forall s, P s -> Q (exec m s).

Definition preserves {A : Type} (P : state -> Prop) (m : M A) : Prop := hoare P m P.

(** [triple P m Q E]: from a state in [P], [m] returns [a] in a state in
    [Q a], or throws [e] in a state in [E e]. *)
Definition triple {A : Type} (P : state -> Prop) (m : M A)
    (Q : A -> state -> Prop) (E : error -> state -> Prop) : Prop :=
  forall s, P s ->
    match m s with
    | (Ok a, s') => Q a s'
    | (Throw e, s') => E e s'
    end.

(** The six variables that hold a layer. *)
Inductive slot : Type :=
| SProvince | SCity | SDistrict | SVillage
| SProvinceBoundary | SCityBoundary.

Definition slot_get (sl : slot) : state -> option layer :=
  match sl with
  | SProvince => currentProvinceLayer
  | SCity => currentCityLayer
  | SDistrict => currentDistrictLayer
  | SVillage => currentVillageLayer
  | SProvinceBoundary => provinceBoundariesLayer
  | SCityBoundary => cityBoundariesLayer
  end.

Definition slot_set (sl : slot) : option layer -> state -> state :=
  match sl with
  | SProvince => set_currentProvinceLayer
  | SCity => set_currentCityLayer
  | SDistrict => set_currentDistrictLayer
  | SVillage => set_currentVillageLayer
  | SProvinceBoundary => set_provinceBoundariesLayer
  | SCityBoundary => set_cityBoundariesLayer
  end.

(** The variable a layer of this shape is assigned to, if any. *)
Definition slot_of (sh : overlay) : option slot :=
  match sh with
  | Marker Province _ _ _ => Some SProvince
  | Marker City _ _ _ => Some SCity
  | Marker District _ _ _ => Some SDistrict
  | Marker Village _ _ _ => Some SVillage
  | Boundary Province _ => Some SProvinceBoundary
  | Boundary City _ => Some SCityBoundary
  | Boundary _ _ => None
  end.

Definition marker_slot (lvl : level) : slot :=
  match lvl with
  | Province => SProvince
  | City => SCity
  | District => SDistrict
  | Village => SVillage
  end.

Definition slot_eqb (a b : slot) : bool :=
  match a, b with
  | SProvince, SProvince | SCity, SCity | SDistrict, SDistrict
  | SVillage, SVillage | SProvinceBoundary, SProvinceBoundary
  | SCityBoundary, SCityBoundary => true
  | _, _ => false
  end.

Definition in_slot (sl : slot) (l : layer) : bool :=
  match slot_of (shape l) with
  | Some sl' => slot_eqb sl sl'
  | None => false
  end.

(** A live layer is the one its variable holds. *)
Definition owned (s : state) (l : layer) : Prop :=
  match slot_of (shape l) with
  | Some sl => slot_get sl s = Some l
  | None => False
  end.

(** No layer of slot [sl] is on the map. *)
Definition nolive (sl : slot) (s : state) : Prop :=
  forall l, In l (live_layers s) -> in_slot sl l = false.

(** The overlay invariant: layers carry distinct, already issued
    identities, and every layer on the map is the current value of the
    variable of its kind. *)
Record Inv (s : state) : Prop := {
  live_fresh : forall l, In l (live_layers s) -> (lid l < next_lid s)%nat;
  held_fresh : forall sl l, slot_get sl s = Some l -> (lid l < next_lid s)%nat;
  held_kind : forall sl l, slot_get sl s = Some l -> in_slot sl l = true;
  live_nodup : NoDup (List.map lid (live_layers s));
  live_owned : forall l, In l (live_layers s) -> owned s l;
  held_ident : forall sl l l', slot_get sl s = Some l -> In l' (live_layers s) ->
                               lid l' = lid l -> l' = l
}.

(** The two names read by [resetMap] without a declaration are unbound. *)
Definition undeclared (s : state) : Prop :=
  provinceBoundaryLayer s = Unbound /\ cityBoundaryLayer s = Unbound.

Definition is_some {A : Type} (x : option A) : bool :=
  match x with
  | Some _ => true
  | None => false
  end.

Definition has_map (s : state) : bool :=
  match map s with
  | Some _ => true
  | None => false
  end.

(** What [resetMap] has not touched when it stops. *)
Definition untouched_by_reset (sel : selection) (d : dom) (p : list task)
    (mapped : bool) (s : state) : Prop :=
  undeclared s /\ selectedLocation s = sel /\ document s = d /\ pending s = p /\
  has_map s = mapped.

(** [resetMap] has thrown: the undeclared name, or no map yet. *)
Definition stopped (sel : selection) (d : dom) (p : list task) (mapped : bool)
    (e : error) (s : state) : Prop :=
  (e = ReferenceError \/ (e = TypeError /\ map s = None)) /\
  untouched_by_reset sel d p mapped s.

(** [resetMap] is past [map.setView]. *)
Definition going (sel : selection) (d : dom) (p : list task) (mapped : bool)
    (s : state) : Prop :=
  untouched_by_reset sel d p mapped s /\ has_map s = true.

(** A variable holds a layer only once there is a map. *)
Definition anchored (s : state) : Prop :=
  has_map s = true \/ forall sl, slot_get sl s = None.

(** The map, once made, has the max bounds [b]. *)
Definition has_bounds (b : bounds) (s : state) : Prop :=
  match map s with
  | Some m => maxBounds m = Some b
  | None => True
  end.

Definition is_settle (e : event) : bool :=
  match e with
  | ESettle _ _ _ _ => true
  | _ => false
  end.

(** A response that carries a record with a readable coordinate. *)
Definition geo_of (h : host) (o : outcome) : option (value * jsnum * jsnum) :=
  match o with
  | Rejected => None
  | Fulfilled response =>
      match success_and_data response with
      | Ok (Some data) =>
          match get_prop "lat" data, get_prop "lng" data with
          | Ok latv, Ok lngv => Some (data, parseFloat h latv, parseFloat h lngv)
          | _, _ => None
          end
      | _ => None
      end
  end.

(** A response that carries a record. *)
Definition detail_of (o : outcome) : option value :=
  match o with
  | Rejected => None
  | Fulfilled response =>
      match success_and_data response with
      | Ok (Some data) => Some data
      | _ => None
      end
  end.

(** The selection of [code] at a level, as an event of the page, and the
    request it makes when [code] is not empty. *)
Definition select (lvl : level) (code : string) : event :=
  match lvl with
  | Province => ESelectProvince code
  | City => ESelectCity code
  | District => ESelectDistrict code
  | Village => ESelectVillage code
  end.

Definition request (lvl : level) (code : string) : task :=
  match lvl with
  | Province => KProvinceGeo code
  | City => KCityGeo code
  | District => KDistrictDetail code
  | Village => KVillageDetail code
  end.

(** What a field of [selectedLocation] holds once [code] has been
    selected at its level: nothing for the empty code. *)
Definition stored (code : string) : option string :=
  if String.eqb code "" then None else Some code.

(** [selectedLocation] after the selection of [code] at a level, when
    it was [sel]: the level is set, the deeper ones are unset. *)
Definition chosen (lvl : level) (code : string) (sel : selection) : selection :=
  match lvl with
  | Province =>
      {| province := stored code; city := None; district := None; village := None |}
  | City =>
      {| province := province sel; city := stored code; district := None;
         village := None |}
  | District =>
      {| province := province sel; city := city sel; district := stored code;
         village := None |}
  | Village =>
      {| province := province sel; city := city sel; district := district sel;
         village := stored code |}
  end.

(** A polygon made of two points. *)
Definition two_point_polygon (v : value) : bool :=
  match v with
  | VArr [p; q] => isArray p && isArray q
  | _ => false
  end.

(** The state right after [v = L.marker(...).addTo(map)], with the view
    at [c] and [z], when the previous layer of [v] has been removed. *)
Definition placed (sl : slot) (sh : overlay) (c : jsnum * jsnum) (z : Z)
    (m : map_state) (s : state) : state :=
  let l := {| lid := next_lid s; shape := sh |} in
  let kept := match slot_get sl s with
              | Some l0 => without l0 (layers m)
              | None => layers m
              end in
  set_map (Some {| center := c; zoom := z; layers := kept ++ [l];
                   maxBounds := maxBounds m |})
    (slot_set sl (Some l) (set_next_lid (S (next_lid s)) s)).

(** [m] always returns. *)
Definition returns {A : Type} (m : M A) : Prop :=
  forall s, exists a, outcome_of m s = Ok a.

(** The payloads of section 8 that must draw nothing: text that is not
    JSON, and (as text or as an array) an array of two-point polygons,
    the empty array included. *)
Definition degenerate (h : host) (path : value) : bool :=
  match path with
  | VStr t =>
      match JSON_parse h t with
      | None => true
      | Some (VArr polys) => forallb two_point_polygon polys
      | Some _ => false
      end
  | VArr polys => forallb two_point_polygon polys
  | _ => false
  end.

Definition unit_draw (r : Q) : Prop := 0 <= r /\ r < 1.

(** Half the gap between 1 and the double before it, half the least
    positive double, and the greatest power of two among the doubles. *)
Definition ulp : Q := 1 # (2 ^ 53).
Definition tiny : Q := 1 # (2 ^ 1075).
Definition huge : Q := 2 ^ 1023.

(** The rounding of the browser is that of binary64 on the numbers within
    the range of the doubles: to a nearest double, which lies within the
    relative error [ulp], or within [tiny] where the doubles thin out. *)
Definition rounds (h : host) : Prop :=
  forall x, Qabs x <= huge -> Qabs (double h x - x) <= ulp * Qabs x + tiny.

Definition within (bound : Q) (x c : jsnum) : Prop :=
  match x, c with
  | Num a, Num b => b - bound <= a /\ a <= b + bound
  | _, _ => False
  end.

End Logic.

(** ** Assertions on selectors, requests and layers *)

Module Protocol.
Import Polygon App Logic.

Definition nullish (v : value) : bool :=
  match v with
  | VUndefined | VNull => true
  | _ => false
  end.

(** [item.k] for an item that is neither [null] nor [undefined]. *)
Definition field (k : string) (item : value) : value :=
  match item with
  | VObj fs => lookup_field k fs
  | _ => VUndefined
  end.

Definition waiting : selector :=
  {| sel_caption := LoadingCaption; sel_options := []; sel_disabled := true |}.

Definition listing (opts : list (value * value)) : selector :=
  {| sel_caption := Prompt; sel_options := opts; sel_disabled := false |}.

Definition broken (disabled : bool) : selector :=
  {| sel_caption := ErrorCaption; sel_options := []; sel_disabled := disabled |}.

(** What a selector shows once the request for its list has settled with
    [o], when it was [sel] before. *)
Definition answered (kcode kname : string) (o : outcome) (sel : selector) : selector :=
  match o with
  | Rejected => broken (sel_disabled sel)
  | Fulfilled response =>
      match success_and_data response with
      | Throw _ => broken (sel_disabled sel)
      | Ok None => sel
      | Ok (Some (VArr items)) =>
          if forallb (fun item => negb (nullish item)) items
          then listing (List.map (fun item => (field kcode item, field kname item)) items)
          else broken (sel_disabled sel)
      | Ok (Some _) => broken (sel_disabled sel)
      end
  end.

(** The life of one of the three dependent selectors: [populate] with a
    code puts it on hold and asks for the list, [continue] shows the
    answer; both return. *)
Definition selector_protocol (get : dom -> option selector)
    (populate : string -> M unit) (continue : outcome -> M unit)
    (request : string -> task) (kcode kname : string) : Prop :=
  forall (s : state) (sel : selector),
    get (document s) = Some sel ->
    (forall (c : ascii) (code : string),
        populate (String c code) s
        = (Ok tt, exec (populate (String c code)) s) /\
        get (document (exec (populate (String c code)) s)) = Some waiting /\
        pending (exec (populate (String c code)) s)
          = pending s ++ [request (String c code)]) /\
    (forall o : outcome,
        continue o s = (Ok tt, exec (continue o) s) /\
        get (document (exec (continue o) s)) = Some (answered kcode kname o sel) /\
        pending (exec (continue o) s) = pending s).

(** The requests that the answer to a pending request can still cause:
    the list of cities follows the coordinate of the province, the
    coordinate of the city and then the list of villages follow the detail
    of a district, and so on. *)
Definition follow_ups (t : task) : nat :=
  match t with
  | KProvinceGeo _ => 1
  | KCities _ => 0
  | KCityGeo _ => 1
  | KDistricts _ => 0
  | KDistrictDetail _ => 2
  | KDistrictCityGeo _ _ _ => 1
  | KVillages _ => 0
  | KVillageDetail _ => 1
  | KVillageCityGeo _ _ _ => 0
  end.

(** The pending requests together with all they can still cause. *)
Definition outstanding (ts : list task) : nat :=
  list_sum (List.map (fun t => S (follow_ups t)) ts).

(** After the answer to [t]: no new request, or one that is further down
    the chain. *)
Definition chained (p : list task) (t : task) (s : state) : Prop :=
  pending s = p \/
  exists t', pending s = p ++ [t'] /\ (follow_ups t' < follow_ups t)%nat.

Definition is_user (e : event) : bool := negb (is_settle e).

(** The responses delivered along a run: the settle events that find
    their request. *)
Fixpoint delivered (h : host) (es : list event) (s : state) : nat :=
  match es with
  | [] => 0
  | e :: es' =>
      (match e with
       | ESettle i _ _ _ => if (i <? List.length (pending s))%nat then 1 else 0
       | _ => 0
       end + delivered h es' (step h s e))%nat
  end.

(** The request failed, or its body is [null] (or [undefined]), on which
    the read of [success] throws: what the [catch] of a method sees. *)
Definition rejected (o : outcome) : bool :=
  match o with
  | Rejected => true
  | Fulfilled response =>
      match success_and_data response with
      | Throw _ => true
      | Ok _ => false
      end
  end.

(** A body that is a boolean, a number, a string or an array: reading
    [success] on it does not throw and gives [undefined]. *)
Definition primitive_or_array (response : value) : bool :=
  match response with
  | VBool _ | VNum _ | VStr _ | VArr _ => true
  | _ => false
  end.

(** The response carries a record with a numeric coordinate. *)
Definition usable (h : host) (o : outcome) : bool :=
  match geo_of h o with
  | Some (_, lat, lng) => negb (is_nan lat) && negb (is_nan lng)
  | None => false
  end.

(** What the script itself guarantees of a layer it puts on the map: a
    province or city marker has a numeric coordinate; a boundary has at
    least one ring, and each ring at least three points.  (Of a district or
    village marker the script checks nothing: its coordinate is whatever
    Leaflet accepts.) *)
Definition well_formed (sh : overlay) : bool :=
  match sh with
  | Marker Province lat lng _ | Marker City lat lng _ =>
      negb (is_nan lat) && negb (is_nan lng)
  | Marker _ _ _ _ => true
  | Boundary _ rings =>
      match rings with
      | [] => false
      | _ :: _ => forallb (fun r => (3 <=? List.length r)%nat) rings
      end
  end.

Definition all_well_formed (s : state) : Prop :=
  (forall l, In l (live_layers s) -> well_formed (shape l) = true) /\
  (forall sl l, slot_get sl s = Some l -> well_formed (shape l) = true).

(** Body of [/kabupaten-kota?kode_provinsi=31]. *)
Definition cities_body : value :=
  VObj [("success", VBool true);
        ("data", VArr [VObj [("kode_kabupaten_kota", VStr "3171");
                             ("nama_kabupaten_kota", VStr "KOTA JAKARTA PUSAT")];
                       VObj [("kode_kabupaten_kota", VStr "3172");
                             ("nama_kabupaten_kota", VStr "KOTA JAKARTA UTARA")]])].

(** The list of provinces as the API sends it. *)
Definition provinces_body (provinces : list value) : value :=
  VObj [("success", VBool true); ("data", VArr provinces)].

End Protocol.

(** ** The provinces table of [visualizationManager]

    The table of the second version of the script ([script.js]): a basic
    row per province, then the detail of each province fetched five at a
    time.  The state is the body of [#provinces-table-body] and, to observe
    the traffic, the log of what [loadDetailedProvinceData] asks of the
    network and of the timer. *)

Module Table.

(** The content of one of the cells 2, 3 and 4 of a row. *)
Inductive cell : Type :=
| Placeholder
| NotAvailable
| Raw (v : value)
| Formatted (n : Q)
| FormattedArea (n : Q).

(** A [<tr>]: its [data-province-code] and the three cells written by
    [loadDetailedProvinceData]. *)
Record row : Type := {
  row_code : string;
  capital : cell;
  population : cell;
  area : cell
}.

Inductive body : Type :=
| Spinner
| Alert
| Rows (rows : list row).

Inductive effect : Type :=
| Requested (code : value)
| Waited.

Record page : Type := {
  tbody : option body;
  log : list effect
}.

Definition T (A : Type) : Type := page -> result A * page.

Definition ret {A : Type} (a : A) : T A := fun p => (Ok a, p).
Definition bind {A B : Type} (m : T A) (k : A -> T B) : T B :=
  fun p =>
    match m p with
    | (Ok a, p') => k a p'
    | (Throw e, p') => (Throw e, p')
    end.
Definition lift {A : Type} (r : result A) : T A := fun p => (r, p).
Definition modify (f : page -> page) : T unit := fun p => (Ok tt, f p).
Definition try_catch (m handler : T unit) : T unit :=
  fun p =>
    match m p with
    | (Ok a, p') => (Ok a, p')
    | (Throw _, p') => handler p'
    end.

Declare Scope table_scope.
Delimit Scope table_scope with table.
Notation "x <- c1 ;; c2" := (bind c1 (fun x => c2))
  (at level 61, c1 at next level, right associativity) : table_scope.
Notation "c1 ;; c2" := (bind c1 (fun _ => c2))
  (at level 61, right associativity) : table_scope.
Local Open Scope table_scope.

Definition batchSize : nat := 5.

(** [a.slice(i, j)] for [i <= j]. *)
Definition slice {A : Type} (i j : nat) (a : list A) : list A :=
  firstn (j - i) (skipn i a).

Definition code_of (province : value) : value :=
  Protocol.field "kode_provinsi" province.

Section Methods.
Variable h : host.
(** The text of a value inside a template literal. *)
Variable to_text : value -> string.
(** Whether [tr[data-province-code="..."]] with this text is a selector. *)
Variable selector_ok : string -> bool.

Definition formatPopulation (pop : value) : cell :=
  match parseFloat h pop with
  | NaN => NotAvailable
  | Num n => Formatted n
  end.

Definition formatArea (a : value) : cell :=
  match parseFloat h a with
  | NaN => NotAvailable
  | Num n => FormattedArea n
  end.

(** [v || 'N/A'] *)
Definition or_NA (v : value) : cell :=
  if truthy v then Raw v else NotAvailable.

Fixpoint first_row (key : string) (rows : list row) : option nat :=
  match rows with
  | [] => None
  | r :: rows' =>
      if String.eqb (row_code r) key then Some O
      else option_map S (first_row key rows')
  end.

(** [tbody.querySelector(`tr[data-province-code="${code}"]`)]: the
    position of the row, if there is one. *)
Definition querySelector (code : value) : T (option nat) :=
  fun p =>
    match tbody p with
    | None => (Throw TypeError, p)
    | Some b =>
        if selector_ok (to_text code) then
          (Ok (match b with
               | Rows rows => first_row (to_text code) rows
               | _ => None
               end), p)
        else (Throw SyntaxError, p)
    end.

Fixpoint set_cells (i : nat) (c2 c3 c4 : cell) (rows : list row) : list row :=
  match i, rows with
  | _, [] => []
  | O, r :: rows' =>
      {| row_code := row_code r; capital := c2; population := c3; area := c4 |} :: rows'
  | S i', r :: rows' => r :: set_cells i' c2 c3 c4 rows'
  end.

(** [row.cells[2].innerHTML = ...; row.cells[3].innerHTML = ...;
    row.cells[4].innerHTML = ...] *)
Definition write_cells (i : nat) (c2 c3 c4 : cell) : T unit :=
  modify (fun p =>
            match tbody p with
            | Some (Rows rows) =>
                {| tbody := Some (Rows (set_cells i c2 c3 c4 rows)); log := log p |}
            | _ => p
            end).

Definition request (code : value) : T unit :=
  modify (fun p => {| tbody := tbody p; log := log p ++ [Requested code] |}).

(** [await new Promise(resolve => setTimeout(resolve, 500))] *)
Definition delay : T unit :=
  modify (fun p => {| tbody := tbody p; log := log p ++ [Waited] |}).

Definition settled (o : App.outcome) : T value :=
  match o with
  | App.Rejected => fun p => (Throw FetchError, p)
  | App.Fulfilled response => ret response
  end.

(** The callback of [batch.map], for a request that settles with [o]. *)
Definition detail (province : value) (o : App.outcome) : T unit :=
  try_catch
    (code <- lift (get_prop "kode_provinsi" province);;
     request code;;
     geoResponse <- settled o;;
     r <- lift (App.success_and_data geoResponse);;
     match r with
     | Some geo =>
         (* Update the specific row with detailed data *)
         row <- querySelector code;;
         match row with
         | Some i =>
             ibukota <- lift (get_prop "ibukota" geo);;
             penduduk <- lift (get_prop "penduduk" geo);;
             luas <- lift (get_prop "luas" geo);;
             write_cells i (or_NA ibukota) (formatPopulation penduduk) (formatArea luas)
         | None => ret tt
         end
     | None => ret tt
     end)
    ((* Update row with error state *)
     code <- lift (get_prop "kode_provinsi" province);;
     row <- querySelector code;;
     match row with
     | Some i => write_cells i NotAvailable NotAvailable NotAvailable
     | None => ret tt
     end).

(** The callbacks of a batch that starts at position [i]; [answers j] is
    how the request for the [j]-th province settles. *)
Fixpoint callbacks (i : nat) (batch : list value) (answers : nat -> App.outcome)
    : list (T unit) :=
  match batch with
  | [] => []
  | province :: batch' => detail province (answers i) :: callbacks (S i) batch' answers
  end.

(** [await Promise.all(promises)]: every callback runs to its end; the
    [await] throws when one of them has thrown. *)
Fixpoint promise_all (ms : list (T unit)) : T unit :=
  match ms with
  | [] => ret tt
  | m :: ms' =>
      fun p =>
        match m p with
        | (r, p') =>
            match promise_all ms' p' with
            | (r', p'') =>
                (match r with
                 | Throw e => Throw e
                 | Ok _ => r'
                 end, p'')
            end
        end
  end.

(** The [for] loop from [i] on; [None] when the fuel runs out. *)
Fixpoint batches (fuel i : nat) (provinces : list value) (answers : nat -> App.outcome)
    (p : page) : option (result unit * page) :=
  match fuel with
  | O => None
  | S fuel' =>
      if (i <? List.length provinces)%nat then
        let batch := slice i (i + batchSize) provinces in
        match promise_all (callbacks i batch answers) p with
        | (Throw e, p') => Some (Throw e, p')
        | (Ok _, p') =>
            (* Small delay between batches to be nice to the server *)
            match (if (i + batchSize <? List.length provinces)%nat
                   then delay else ret tt) p' with
            | (Throw e, p'') => Some (Throw e, p'')
            | (Ok _, p'') => batches fuel' (i + batchSize) provinces answers p''
            end
        end
      else Some (Ok tt, p)
  end.

Definition loadDetailedProvinceData (provinces : list value)
    (answers : nat -> App.outcome) (p : page) : option (result unit * page) :=
  batches (S (List.length provinces)) 0 provinces answers p.

(** The rows of [renderBasicProvincesTable].  (The attribute is taken to
    hold the text of the code as it is: a text with a double quote or an
    ampersand would reach the row cut or decoded by the HTML parser.) *)
Fixpoint basic_rows (items : list value) : result (list row) :=
  match items with
  | [] => Ok []
  | province :: rest =>
      match get_prop "kode_provinsi" province with
      | Throw e => Throw e
      | Ok code =>
          match basic_rows rest with
          | Throw e => Throw e
          | Ok rows =>
              Ok ({| row_code := to_text code; capital := Placeholder;
                     population := Placeholder; area := Placeholder |} :: rows)
          end
      end
  end.

Definition renderBasicProvincesTable (data : value) : T unit :=
  fun p =>
    match tbody p with
    | None => (Ok tt, p)
    | Some _ =>
        match data with
        | VArr items =>
            match basic_rows items with
            | Ok rows => (Ok tt, {| tbody := Some (Rows rows); log := log p |})
            | Throw e => (Throw e, p)
            end
        | _ => (Throw TypeError, p)
        end
    end.

(** [utils.showLoading('provinces-table-body')],
    [utils.showError('provinces-table-body', ...)] *)
Definition showLoading : T unit :=
  modify (fun p => {| tbody := option_map (fun _ => Spinner) (tbody p); log := log p |}).

Definition showError : T unit :=
  modify (fun p => {| tbody := option_map (fun _ => Alert) (tbody p); log := log p |}).

(** [loadProvincesTable] up to its [await]. *)
Definition loadProvincesTable : T unit := showLoading.

(** The [try] of [loadProvincesTable] after
    [await apiService.getProvinces()], up to the call of
    [loadDetailedProvinceData]: the argument of that call, when it is
    reached. *)
Definition resume_try (o : App.outcome) : T (option value) :=
  fun p =>
    match (response <- settled o;;
           r <- lift (App.success_and_data response);;
           match r with
           | Some data =>
               (* Show basic table first without geo data *)
               renderBasicProvincesTable data;;
               ret (Some data)
           | None => ret None
           end) p with
    | (Ok x, p') => (Ok x, p')
    | (Throw _, p') => (showError;; ret None) p'
    end.

(** [loadProvincesTable] after its [await], with the loading of the
    details that it starts and does not wait for: what that loading throws
    is lost.  What is not an array has no elements to load, or (a string)
    no [map] to load them with. *)
Definition resume_loadProvincesTable (o : App.outcome) (answers : nat -> App.outcome)
    (p : page) : option page :=
  match resume_try o p with
  | (Ok (Some (VArr provinces)), p') =>
      option_map snd (loadDetailedProvinceData provinces answers p')
  | (_, p') => Some p'
  end.

(** *** What the table shows, what the network sees *)

(** The cells of a row once the request for its province has settled. *)
Definition shown (o : App.outcome) (r : row) : row :=
  match o with
  | App.Rejected =>
      {| row_code := row_code r; capital := NotAvailable;
         population := NotAvailable; area := NotAvailable |}
  | App.Fulfilled response =>
      match App.success_and_data response with
      | Throw _ =>
          {| row_code := row_code r; capital := NotAvailable;
             population := NotAvailable; area := NotAvailable |}
      | Ok None => r
      | Ok (Some geo) =>
          {| row_code := row_code r;
             capital := or_NA (Protocol.field "ibukota" geo);
             population := formatPopulation (Protocol.field "penduduk" geo);
             area := formatArea (Protocol.field "luas" geo) |}
      end
  end.

(** The requests in the order of the list, with a pause after every
    fifth one that is not the last. *)
Fixpoint schedule (j : nat) (codes : list value) : list effect :=
  match codes with
  | [] => []
  | code :: rest =>
      Requested code ::
      (if ((S j) mod batchSize =? 0)%nat && negb (match rest with [] => true | _ => false end)
       then [Waited] else [])
      ++ schedule (S j) rest
  end.

(** The row of [key], if any, shows the answer [o]. *)
Fixpoint answer (key : string) (o : App.outcome) (rows : list row) : list row :=
  match rows with
  | [] => []
  | r :: rows' =>
      if String.eqb (row_code r) key then shown o r :: rows'
      else r :: answer key o rows'
  end.

Fixpoint answer_all (answers : nat -> App.outcome) (j : nat) (provinces : list value)
    (rows : list row) : list row :=
  match provinces with
  | [] => rows
  | province :: rest =>
      answer_all answers (S j) rest
        (answer (to_text (code_of province)) (answers j) rows)
  end.

(** A record whose code fits a selector. *)
Definition fit (province : value) : bool :=
  negb (Protocol.nullish province) && selector_ok (to_text (code_of province)).

Definition basic_row (province : value) : row :=
  {| row_code := to_text (code_of province); capital := Placeholder;
     population := Placeholder; area := Placeholder |}.

(** The table once every request has settled: one row per province, in
    the order of the list. *)
Fixpoint final_rows (answers : nat -> App.outcome) (j : nat) (provinces : list value)
    : list row :=
  match provinces with
  | [] => []
  | province :: rest =>
      shown (answers j) (basic_row province) :: final_rows answers (S j) rest
  end.

End Methods.

(** *** A table of six provinces *)

(** The text of a string is the string (the examples hold no other code). *)
Definition text (v : value) : string :=
  match v with
  | VStr s => s
  | _ => "undefined"
  end.

Definition any_selector (_ : string) : bool := true.

Definition province_record (code name : string) : value :=
  VObj [("kode_provinsi", VStr code); ("nama_provinsi", VStr name)].

Definition six : list value :=
  [province_record "11" "ACEH"; province_record "12" "SUMATERA UTARA";
   province_record "13" "SUMATERA BARAT"; province_record "14" "RIAU";
   province_record "15" "JAMBI"; province_record "16" "SUMATERA SELATAN"].

Definition aceh_geo : value :=
  VObj [("success", VBool true);
        ("data", VObj [("ibukota", VStr "BANDA ACEH"); ("penduduk", VStr "5274871");
                       ("luas", VStr "57956")])].

(** The first request succeeds, the second is refused by the API, the
    others fail. *)
Definition six_answers (j : nat) : App.outcome :=
  match j with
  | O => App.Fulfilled aceh_geo
  | S O => App.Fulfilled (VObj [("success", VBool false)])
  | _ => App.Rejected
  end.

End Table.

(** ** The charts of [visualizationManager]

    [loadCharts] and the two [create...Chart] methods of [script.js]: the
    first ten provinces of the list are merged with their [geo] record, the
    ones that carry the charted quantity are sorted by it, largest first,
    and the first ten of those are drawn. *)

Module Charts.

(** An element of [detailedData]: the province as it came, or
    [{ ...province, geo: geo }]. *)
Inductive detailed : Type :=
| Plain (province : value)
| Merged (province geo : value).

(** [p.geo] *)
Definition geo (p : detailed) : result value :=
  match p with
  | Plain province => get_prop "geo" province
  | Merged _ g => Ok g
  end.

(** [p.nama_provinsi]; the spread of a province that is not a record has
    no such property. *)
Definition nama_provinsi (p : detailed) : result value :=
  match p with
  | Plain province => get_prop "nama_provinsi" province
  | Merged province _ => Ok (Protocol.field "nama_provinsi" province)
  end.

(** The callback of [response.data.slice(0, 10).map], for a request that
    settles with [o]; its [catch] returns the province. *)
Definition with_geo (province : value) (o : App.outcome) : detailed :=
  match get_prop "kode_provinsi" province with
  | Throw _ => Plain province
  | Ok _ =>
      match o with
      | App.Rejected => Plain province
      | App.Fulfilled geoResponse =>
          match get_prop "success" geoResponse with
          | Throw _ => Plain province
          | Ok ok =>
              if truthy ok then
                match get_prop "data" geoResponse with
                | Throw _ => Plain province
                | Ok data => Merged province data
                end
              else Plain province
          end
      end
  end.

Fixpoint merge_all (j : nat) (provinces : list value) (answers : nat -> App.outcome)
    : list detailed :=
  match provinces with
  | [] => []
  | province :: rest => with_geo province (answers j) :: merge_all (S j) rest answers
  end.

(** [province => province.geo && province.geo[k]], as a condition. *)
Definition carries (k : string) (p : detailed) : result bool :=
  match geo p with
  | Throw e => Throw e
  | Ok g =>
      if truthy g then
        match get_prop k g with
        | Throw e => Throw e
        | Ok v => Ok (truthy v)
        end
      else Ok false
  end.

(** [data.filter(...)] *)
Fixpoint keep (k : string) (data : list detailed) : result (list detailed) :=
  match data with
  | [] => Ok []
  | p :: rest =>
      match carries k p with
      | Throw e => Throw e
      | Ok b =>
          match keep k rest with
          | Throw e => Throw e
          | Ok kept => Ok (if b then p :: kept else kept)
          end
      end
  end.

(** [a - b] in a comparator, which uses its sign only: the difference is
    taken as it is. *)
Definition num_sub (a b : jsnum) : jsnum :=
  match a, b with
  | Num x, Num y => Num (x - y)
  | _, _ => NaN
  end.

(** A comparator's verdict that its first argument goes after the second:
    a result above zero ([NaN] counts as zero). *)
Definition positive (v : jsnum) : bool :=
  match v with
  | Num q => negb (Qle_bool q 0)
  | NaN => false
  end.

(** [Array.prototype.sort] with a comparator, as the stable insertion
    sort: for a comparator that is a consistent order, the result the
    standard prescribes. *)
Section Sort.
Variable A : Type.
Variable cmp : A -> A -> jsnum.

Fixpoint insert (x : A) (l : list A) : list A :=
  match l with
  | [] => [x]
  | y :: l' => if positive (cmp x y) then y :: insert x l' else x :: l
  end.

Fixpoint sort (l : list A) : list A :=
  match l with
  | [] => []
  | x :: l' => insert x (sort l')
  end.
End Sort.
Arguments insert {A} cmp x l.
Arguments sort {A} cmp l.

Record chart : Type := {
  labels : list value;
  points : list jsnum
}.

(** [chartInstances] *)
Record instances : Type := {
  population : option chart;
  area : option chart
}.

Section Methods.
Variable h : host.

(** [parseFloat(p.geo[k])], on what the filter kept. *)
Definition quantity (k : string) (p : detailed) : jsnum :=
  match geo p with
  | Ok g => parseFloat h (Protocol.field k g)
  | Throw _ => NaN
  end.

(** [(a, b) => parseFloat(b.geo[k]) - parseFloat(a.geo[k])] *)
Definition largest_first (k : string) (a b : detailed) : jsnum :=
  num_sub (quantity k b) (quantity k a).

(** [data.filter(...).sort(...).slice(0, 10)] *)
Definition chartData (k : string) (data : list detailed) : result (list detailed) :=
  match keep k data with
  | Throw e => Throw e
  | Ok kept => Ok (firstn 10 (sort (largest_first k) kept))
  end.

Fixpoint names (ps : list detailed) : result (list value) :=
  match ps with
  | [] => Ok []
  | p :: rest =>
      match nama_provinsi p, names rest with
      | Ok n, Ok ns => Ok (n :: ns)
      | Throw e, _ => Throw e
      | _, Throw e => Throw e
      end
  end.

(** The chart drawn for the quantity [k]; [None] without a canvas. *)
Definition draw (canvas : bool) (k : string) (data : list detailed)
    : result (option chart) :=
  if canvas then
    match chartData k data with
    | Throw e => Throw e
    | Ok top =>
        match names top with
        | Throw e => Throw e
        | Ok ns => Ok (Some {| labels := ns; points := List.map (quantity k) top |})
        end
    end
  else Ok None.

(** The previous chart, if any, is destroyed and replaced. *)
Definition createPopulationChart (canvas : bool) (data : list detailed) (s : instances)
    : result unit * instances :=
  match draw canvas "penduduk" data with
  | Throw e => (Throw e, s)
  | Ok None => (Ok tt, s)
  | Ok (Some c) => (Ok tt, {| population := Some c; area := area s |})
  end.

Definition createAreaChart (canvas : bool) (data : list detailed) (s : instances)
    : result unit * instances :=
  match draw canvas "luas" data with
  | Throw e => (Throw e, s)
  | Ok None => (Ok tt, s)
  | Ok (Some c) => (Ok tt, {| population := population s; area := Some c |})
  end.

(** [loadCharts] once the list of provinces ([o]) and the [geo] of the
    first ten ([answers]) have settled; its [catch] only logs. *)
Definition loadCharts (populationCanvas areaCanvas : bool) (o : App.outcome)
    (answers : nat -> App.outcome) (s : instances) : instances :=
  match o with
  | App.Rejected => s
  | App.Fulfilled response =>
      match App.success_and_data response with
      | Ok (Some (VArr provinces)) =>
          let detailedData := merge_all 0 (firstn 10 provinces) answers in
          match createPopulationChart populationCanvas detailedData s with
          | (Throw _, s') => s'
          | (Ok _, s') => snd (createAreaChart areaCanvas detailedData s')
          end
      | _ => s
      end
  end.

End Methods.

(** *** What a chart shows *)

(** [p] carries the quantity [k]. *)
Definition charted (k : string) (p : detailed) : Prop := carries k p = Ok true.

(** [a] may stand before [b]: both quantities are numbers, and [a]'s is
    not the smaller. *)
Definition not_below (h : host) (k : string) (a b : detailed) : Prop :=
  match quantity h k a, quantity h k b with
  | Num x, Num y => y <= x
  | _, _ => False
  end.

Definition numeric (h : host) (k : string) (p : detailed) : Prop :=
  is_nan (quantity h k p) = false.

(** A list of twelve provinces, of which the last two are the most
    populous. *)
Definition numbered (code population : string) : value * App.outcome :=
  (VObj [("kode_provinsi", VStr code); ("nama_provinsi", VStr code)],
   App.Fulfilled (VObj [("success", VBool true);
                        ("data", VObj [("penduduk", VStr population)])])).

Definition twelve : list (value * App.outcome) :=
  [numbered "11" "5"; numbered "12" "15"; numbered "13" "6"; numbered "14" "7";
   numbered "15" "4"; numbered "16" "9"; numbered "17" "2"; numbered "18" "9";
   numbered "19" "1"; numbered "21" "2"; numbered "31" "11"; numbered "32" "50"].

Definition twelve_answers (j : nat) : App.outcome :=
  nth j (List.map snd twelve) App.Rejected.

End Charts.

(** ** The boundary toggles of the second version

    The version of [mapManager] in the second half of [script.js] draws a
    boundary on demand: [toggleProvinceBoundary] and [toggleCityBoundary]
    fetch and draw or remove it, [showProvinceBoundary] and
    [showCityBoundary] draw it from a record at hand.  All four keep the
    layer in [provinceBoundaryLayer] / [cityBoundaryLayer], two names that
    this version, too, never declares (it declares [provinceBoundariesLayer]
    and [cityBoundariesLayer]). *)

Module Toggles.
Import Polygon App.
Local Open Scope js_scope.

Section Methods.
Variable h : host.
(** [String(v)], the conversion of the argument of [JSON.parse]. *)
Variable to_text : value -> string.
(** The rings Leaflet makes of the argument of [L.polygon]; [None] when
    the constructor throws. *)
Variable latLngs : value -> option (list ring).
(** The view [map.fitBounds] chooses for the bounds of these rings;
    [None] when the bounds are not valid. *)
Variable bounds_view : list ring -> option ((jsnum * jsnum) * Z).

(** [JSON.parse(path)] *)
Definition parse (path : value) : result value :=
  match JSON_parse h (match path with
                      | VStr s => s
                      | _ => to_text path
                      end) with
  | Some v => Ok v
  | None => Throw SyntaxError
  end.

(** [L.polygon(pathCoordinates, {...})] *)
Definition polygon (lvl : level) (pathCoordinates : value) : M layer :=
  match latLngs pathCoordinates with
  | Some rings => new_layer (Boundary lvl rings)
  | None => throw LeafletError
  end.

(** [map.fitBounds(layer.getBounds())] *)
Definition fitBounds (l : layer) : M unit :=
  match shape l with
  | Boundary _ rings =>
      match bounds_view rings with
      | Some (c, z) => map_setView h c z
      | None => throw LeafletError
      end
  | Marker _ _ _ _ => throw TypeError
  end.

Definition showProvinceBoundary (geoData : value) : M unit :=
  try_catch
    (if truthy geoData then
       path <- lift (get_prop "path" geoData);;
       if truthy path then
         (* Remove existing boundary *)
         cur <- read provinceBoundaryLayer;;
         remove_if_any cur;;
         (* Parse path string to coordinates array *)
         pathCoordinates <- lift (parse path);;
         (* Create polygon from coordinates *)
         l <- polygon Province pathCoordinates;;
         l <- addTo_map l;;
         modify (set_provinceBoundaryLayer (Bound (Some l)))
       else ret tt
     else ret tt)
    (ret tt).

Definition showCityBoundary (geoData : value) : M unit :=
  try_catch
    (if truthy geoData then
       path <- lift (get_prop "path" geoData);;
       if truthy path then
         cur <- read cityBoundaryLayer;;
         remove_if_any cur;;
         pathCoordinates <- lift (parse path);;
         l <- polygon City pathCoordinates;;
         l <- addTo_map l;;
         modify (set_cityBoundaryLayer (Bound (Some l)))
       else ret tt
     else ret tt)
    (ret tt).

(** [toggleProvinceBoundary(show)] up to its [await]: the code whose
    [geo] is requested, or [None] after the removal of the boundary. *)
Definition toggleProvinceBoundary (show : bool) : M (option string) :=
  sel <- gets selectedLocation;;
  if show && selected (province sel) then ret (province sel)
  else
    (* Remove boundary *)
    cur <- read provinceBoundaryLayer;;
    match cur with
    | Some l => map_removeLayer l;; modify (set_provinceBoundaryLayer (Bound None))
    | None => ret tt
    end;;
    ret None.

(** ... and after [await apiService.getProvinceGeo(selectedLocation.province)]. *)
Definition resume_toggleProvinceBoundary (o : outcome) : M unit :=
  try_catch
    (geoResponse <- settled o;;
     r <- lift (success_and_data geoResponse);;
     match r with
     | Some data =>
         path <- lift (get_prop "path" data);;
         if truthy path then
           cur <- read provinceBoundaryLayer;;
           remove_if_any cur;;
           pathCoordinates <- lift (parse path);;
           l <- polygon Province pathCoordinates;;
           l <- addTo_map l;;
           modify (set_provinceBoundaryLayer (Bound (Some l)));;
           (* Fit map to boundary *)
           fitBounds l
         else ret tt
     | None => ret tt
     end)
    (ret tt).

Definition toggleCityBoundary (show : bool) : M (option string) :=
  sel <- gets selectedLocation;;
  if show && selected (city sel) then ret (city sel)
  else
    cur <- read cityBoundaryLayer;;
    match cur with
    | Some l => map_removeLayer l;; modify (set_cityBoundaryLayer (Bound None))
    | None => ret tt
    end;;
    ret None.

Definition resume_toggleCityBoundary (o : outcome) : M unit :=
  try_catch
    (geoResponse <- settled o;;
     r <- lift (success_and_data geoResponse);;
     match r with
     | Some data =>
         path <- lift (get_prop "path" data);;
         if truthy path then
           cur <- read cityBoundaryLayer;;
           remove_if_any cur;;
           pathCoordinates <- lift (parse path);;
           l <- polygon City pathCoordinates;;
           l <- addTo_map l;;
           modify (set_cityBoundaryLayer (Bound (Some l)));;
           fitBounds l
         else ret tt
     | None => ret tt
     end)
    (ret tt).

End Methods.

(** A Leaflet that draws nothing, for the examples. *)
Definition no_rings (_ : value) : option (list ring) := None.
Definition no_view (_ : list ring) : option ((jsnum * jsnum) * Z) := None.

End Toggles.

(** ** The map of the first version

    The [mapManager] of the first half of [script.js]: at start-up a
    marker is put on the map for every province, one request after the
    other; selecting a province only moves the view and fills the info
    panel. *)

Module First.
Import Polygon App.
Local Open Scope js_scope.

(** [CONFIG.DEFAULT_COORDINATE], [CONFIG.DEFAULT_ZOOM] of [script.js] *)
Definition DEFAULT_COORDINATE : jsnum * jsnum :=
  (Num (-62088 # 10000), Num (1068456 # 10000)).
Definition DEFAULT_ZOOM : Z := 5.

(** [CONFIG.INDONESIA_BOUNDS] of [script.js] *)
Definition INDONESIA_BOUNDS : bounds := ((Num (-11), Num 95), (Num 6, Num 141)).

(** [mapManager.init] of [script.js], up to the request for the list of
    provinces. *)
Definition init (h : host) : M unit :=
  L_map DEFAULT_COORDINATE DEFAULT_ZOOM;;
  map_setMaxBounds h INDONESIA_BOUNDS.

Definition resetMap (h : host) : M unit :=
  map_setView h DEFAULT_COORDINATE DEFAULT_ZOOM;;
  on_document (with_info DisplayNone).

(** [selectProvince(provinceCode)] up to its [await]: whether the [geo]
    of the province is requested. *)
Definition selectProvince (h : host) (provinceCode : string) : M bool :=
  if String.eqb provinceCode "" then resetMap h;; ret false
  else ret true.

(** [for (const province of provincesData)] iterates an array or the
    characters of a string; nothing else that is truthy is iterable. *)
Definition iterate (data : value) : result (list value) :=
  match data with
  | VArr items => Ok items
  | VStr s =>
      Ok (List.map (fun c => VStr (String c EmptyString)) (list_ascii_of_string s))
  | _ => Throw TypeError
  end.

Section Methods.
Variable h : host.

(** [selectProvince] after [await apiService.getProvinceGeo(provinceCode)]. *)
Definition resume_selectProvince (o : outcome) : M unit :=
  try_catch
    (geoResponse <- settled o;;
     r <- lift (success_and_data geoResponse);;
     match r with
     | Some geoData =>
         latv <- lift (get_prop "lat" geoData);;
         lngv <- lift (get_prop "lng" geoData);;
         let lat := parseFloat h latv in
         let lng := parseFloat h lngv in
         if negb (is_nan lat) && negb (is_nan lng) then
           map_setView h (lat, lng) 8;;
           showProvinceInfo geoData
         else ret tt
     | None => ret tt
     end)
    (ret tt).

(** One turn of the loop of [addProvinceMarkers], for a request that
    settles with [o].  The [catch] builds its message from
    [province.nama_provinsi]: when the entry is [null] it throws in its
    turn, out of the loop. *)
Definition addProvinceMarker (province : value) (o : outcome) : M unit :=
  try_catch
    (_ <- lift (get_prop "kode_provinsi" province);;
     geoResponse <- settled o;;
     r <- lift (success_and_data geoResponse);;
     match r with
     | Some geoData =>
         latv <- lift (get_prop "lat" geoData);;
         lngv <- lift (get_prop "lng" geoData);;
         let lat := parseFloat h latv in
         let lng := parseFloat h lngv in
         if negb (is_nan lat) && negb (is_nan lng) then
           marker <- L_marker h Province lat lng geoData;;
           _ <- addTo_map marker;;
           ret tt
         else ret tt
     | None => ret tt
     end)
    (_ <- lift (get_prop "nama_provinsi" province);;
     ret tt).

(** [addProvinceMarkers], from the [j]-th province on; [answers j] is
    how the request for the [j]-th province settles. *)
Fixpoint addProvinceMarkers (j : nat) (provinces : list value)
    (answers : nat -> outcome) : M unit :=
  match provinces with
  | [] => ret tt
  | province :: rest =>
      addProvinceMarker province (answers j);;
      addProvinceMarkers (S j) rest answers
  end.

(** [loadProvincesData] after [await apiService.getProvinces()];
    [selector] tells whether the page has [#province-selector], which
    [populateProvinceSelector] fills with [provincesData.forEach]. *)
Definition resume_loadProvincesData (selector : bool) (o : outcome)
    (answers : nat -> outcome) : M unit :=
  try_catch
    (response <- settled o;;
     r <- lift (success_and_data response);;
     match r with
     | Some data =>
         (if selector
          then _ <- lift (options_of "kode_provinsi" "nama_provinsi" data);; ret tt
          else ret tt);;
         provinces <- lift (iterate data);;
         addProvinceMarkers 0 provinces answers
     | None => ret tt
     end)
    (ret tt).

(** A user action together with the response it waits for. *)
Inductive action : Type :=
| Select (provinceCode : string) (o : outcome)
| Reset.

Definition act (a : action) : M unit :=
  match a with
  | Select provinceCode o =>
      asked <- selectProvince h provinceCode;;
      if asked then resume_selectProvince o else ret tt
  | Reset => resetMap h
  end.

Definition acts (l : list action) (s : state) : state :=
  fold_left (fun s a => exec (act a) s) l s.

(** *** The markers of the provinces *)

(** The marker that the answer [o] for [province] puts on the map, if
    any. *)
Definition mark (province : value) (o : outcome) : option overlay :=
  if Protocol.nullish province then None
  else
    match Logic.geo_of h o with
    | Some (geoData, lat, lng) =>
        if negb (is_nan lat) && negb (is_nan lng) && latLng_ok h lat lng
        then Some (Marker Province lat lng geoData)
        else None
    | None => None
    end.

(** The markers of a list: those of the entries before the first [null]. *)
Fixpoint marks (j : nat) (provinces : list value) (answers : nat -> outcome)
    : list overlay :=
  match provinces with
  | [] => []
  | province :: rest =>
      if Protocol.nullish province then []
      else
        match mark province (answers j) with
        | Some sh => sh :: marks (S j) rest answers
        | None => marks (S j) rest answers
        end
  end.

End Methods.

(** Layers of these shapes, numbered from [n] on. *)
Fixpoint numbered (n : nat) (shapes : list overlay) : list layer :=
  match shapes with
  | [] => []
  | sh :: rest => {| lid := n; shape := sh |} :: numbered (S n) rest
  end.

Definition two_provinces : list value :=
  [VObj [("kode_provinsi", VStr "31"); ("nama_provinsi", VStr "DKI JAKARTA")];
   VObj [("kode_provinsi", VStr "11"); ("nama_provinsi", VStr "ACEH")]].

(** The first request fails, the second succeeds. *)
Definition two_answers (j : nat) : outcome :=
  match j with
  | O => Rejected
  | _ => Fulfilled Reference.aceh
  end.

(** The map right after [init], and the page with it. *)
Definition fresh_map : map_state :=
  {| center := DEFAULT_COORDINATE; zoom := DEFAULT_ZOOM; layers := [];
     maxBounds := Some INDONESIA_BOUNDS |}.

Definition ready : state := exec (init Reference.browser) (initial Reference.page).

End First.

(** ** The provinces table of the first version

    [loadProvincesTable] of the first half of [script.js] waits for the
    [geo] of every province, then renders the whole table at once with
    [renderProvincesTable]. *)

Module Rendered.
Import Charts.

(** A [<tr>] of [renderProvincesTable]: the code, the name and the three
    cells of detail. *)
Record line : Type := {
  line_code : value;
  line_name : value;
  line_capital : Table.cell;
  line_population : Table.cell;
  line_area : Table.cell
}.

(** The content of [#provinces-table-body]. *)
Inductive content : Type :=
| Spinner
| Alert
| Lines (lines : list line).

(** [p.kode_provinsi] *)
Definition kode_provinsi (p : detailed) : result value :=
  match p with
  | Plain province => get_prop "kode_provinsi" province
  | Merged province _ => Ok (Protocol.field "kode_provinsi" province)
  end.

Section Methods.
Variable h : host.

(** The callback of [data.map] in [renderProvincesTable]. *)
Definition render (p : detailed) : result line :=
  match geo p with
  | Throw e => Throw e
  | Ok g =>
      (* const geo = province.geo || {} *)
      let geo := if truthy g then g else VObj [] in
      match kode_provinsi p, nama_provinsi p with
      | Ok code, Ok name =>
          Ok {| line_code := code;
                line_name := name;
                line_capital := Table.or_NA (Protocol.field "ibukota" geo);
                line_population := Table.formatPopulation h (Protocol.field "penduduk" geo);
                line_area := Table.formatArea h (Protocol.field "luas" geo) |}
      | Throw e, _ => Throw e
      | _, Throw e => Throw e
      end
  end.

Fixpoint render_all (data : list detailed) : result (list line) :=
  match data with
  | [] => Ok []
  | p :: rest =>
      match render p, render_all rest with
      | Ok l, Ok ls => Ok (l :: ls)
      | Throw e, _ => Throw e
      | _, Throw e => Throw e
      end
  end.

(** [renderProvincesTable(data)] on the body [tbody] of the table, if
    the page has one. *)
Definition renderProvincesTable (data : list detailed) (tbody : option content)
    : result (option content) :=
  match tbody with
  | None => Ok None
  | Some _ =>
      match render_all data with
      | Ok ls => Ok (Some (Lines ls))
      | Throw e => Throw e
      end
  end.

(** [loadProvincesTable] up to its [await]. *)
Definition loadProvincesTable (tbody : option content) : option content :=
  option_map (fun _ => Spinner) tbody.

(** [loadProvincesTable] once the list of provinces ([o]) and the [geo]
    of each province ([answers]) have settled. *)
Definition resume_loadProvincesTable (o : App.outcome) (answers : nat -> App.outcome)
    (tbody : option content) : option content :=
  let showError := option_map (fun _ => Alert) tbody in
  match o with
  | App.Rejected => showError
  | App.Fulfilled response =>
      match App.success_and_data response with
      | Throw _ => showError
      | Ok None => tbody
      | Ok (Some (VArr provinces)) =>
          match renderProvincesTable (merge_all 0 provinces answers) tbody with
          | Ok tbody' => tbody'
          | Throw _ => showError
          end
      | Ok (Some _) => showError
      end
  end.

(** The line of a province that is a record, for the answer [o] to the
    request for its [geo]. *)
Definition line_of (province : value) (o : App.outcome) : line :=
  let g := match with_geo province o with
           | Plain _ => Protocol.field "geo" province
           | Merged _ g => g
           end in
  let geo := if truthy g then g else VObj [] in
  {| line_code := Protocol.field "kode_provinsi" province;
     line_name := Protocol.field "nama_provinsi" province;
     line_capital := Table.or_NA (Protocol.field "ibukota" geo);
     line_population := Table.formatPopulation h (Protocol.field "penduduk" geo);
     line_area := Table.formatArea h (Protocol.field "luas" geo) |}.

Fixpoint lines_of (j : nat) (provinces : list value) (answers : nat -> App.outcome)
    : list line :=
  match provinces with
  | [] => []
  | province :: rest => line_of province (answers j) :: lines_of (S j) rest answers
  end.

End Methods.

End Rendered.

(** ** [utils.debounce]

    The function returned by [utils.debounce(func, wait)], with the timers
    it sets.  Time is counted in milliseconds; the browser runs a timer
    some time after it is due, which is an event of its own ([Fire]). *)

Module Debounce.

Section Debounced.
(** The arguments of a call. *)
Variable A : Type.
Variable wait : nat.

(** A timer set by [setTimeout(later, wait)]; [later] holds the arguments
    of the call that has set it. *)
Record timer : Type := {
  tid : nat;
  due : nat;
  args : A
}.

Record state : Type := {
  now : nat;
  timers : list timer;
  next_tid : nat;
  (** [let timeout] *)
  timeout : option nat;
  (** the calls of [func], oldest first *)
  invoked : list A
}.

Definition initial : state :=
  {| now := 0; timers := []; next_tid := 1; timeout := None; invoked := [] |}.

(** [clearTimeout(id)]; [undefined] and the ids of timers that have run
    clear nothing. *)
Definition clearTimeout (id : option nat) (s : state) : state :=
  match id with
  | None => s
  | Some i =>
      {| now := now s;
         timers := filter (fun t => negb (tid t =? i)%nat) (timers s);
         next_tid := next_tid s; timeout := timeout s; invoked := invoked s |}
  end.

(** [timeout = setTimeout(later, wait)] *)
Definition setTimeout (a : A) (s : state) : state :=
  {| now := now s;
     timers := timers s ++ [{| tid := next_tid s; due := now s + wait; args := a |}];
     next_tid := S (next_tid s);
     timeout := Some (next_tid s);
     invoked := invoked s |}.

(** [executedFunction(...args)] *)
Definition executedFunction (a : A) (s : state) : state :=
  setTimeout a (clearTimeout (timeout s) s).

(** [func(...args)] *)
Definition func (a : A) (s : state) : state :=
  {| now := now s; timers := timers s; next_tid := next_tid s; timeout := timeout s;
     invoked := invoked s ++ [a] |}.

(** [later]: [clearTimeout(timeout); func(...args)] *)
Definition later (a : A) (s : state) : state :=
  func a (clearTimeout (timeout s) s).

(** The first timer that is due. *)
Fixpoint pick (t0 : nat) (ts : list timer) : option (timer * list timer) :=
  match ts with
  | [] => None
  | t :: ts' =>
      if (due t <=? t0)%nat then Some (t, ts')
      else
        match pick t0 ts' with
        | Some (t', rest) => Some (t', t :: rest)
        | None => None
        end
  end.

Inductive event : Type :=
| Call (a : A)
| Tick
| Fire.

Definition step (s : state) (e : event) : state :=
  match e with
  | Call a => executedFunction a s
  | Tick =>
      {| now := S (now s); timers := timers s; next_tid := next_tid s;
         timeout := timeout s; invoked := invoked s |}
  | Fire =>
      match pick (now s) (timers s) with
      | Some (t, rest) =>
          later (args t)
            {| now := now s; timers := rest; next_tid := next_tid s;
               timeout := timeout s; invoked := invoked s |}
      | None => s
      end
  end.

Definition run (es : list event) (s : state) : state := fold_left step es s.

(** *** Observations *)

Definition is_call (e : event) : bool :=
  match e with
  | Call _ => true
  | _ => false
  end.

Definition is_tick (e : event) : bool :=
  match e with
  | Tick => true
  | _ => false
  end.

(** The milliseconds that pass during [es]. *)
Definition elapsed (es : list event) : nat := List.length (filter is_tick es).

(** No call is made during [es]. *)
Definition quiet (es : list event) : Prop := forallb (fun e => negb (is_call e)) es = true.

(** Whether a timer with [left] milliseconds to go runs during [es]: the
    browser gets to it ([Fire]) once it is due, before another call. *)
Fixpoint served (left : nat) (es : list event) : bool :=
  match es with
  | [] => false
  | Call _ :: _ => false
  | Tick :: es' => served (pred left) es'
  | Fire :: es' =>
      match left with
      | O => true
      | S _ => served left es'
      end
  end.

(** The calls that reach [func]: those followed by [wait] milliseconds
    without another call. *)
Fixpoint deliveries (es : list event) : list A :=
  match es with
  | [] => []
  | Call a :: es' => (if served wait es' then [a] else []) ++ deliveries es'
  | _ :: es' => deliveries es'
  end.

(** What the pending timer of [s] adds to the calls of [func] during
    [es]. *)
Definition ahead (s : state) (es : list event) : list A :=
  match timers s with
  | [t] => if served (due t - now s) es then [args t] else []
  | _ => []
  end.

(** The one timer that can be pending: the one [timeout] names, not yet
    issued again. *)
Definition at_most_one (s : state) : Prop :=
  timers s = [] \/
  exists t, timers s = [t] /\ timeout s = Some (tid t) /\ (tid t < next_tid s)%nat.

End Debounced.

Arguments tid {A} t.
Arguments due {A} t.
Arguments args {A} t.
Arguments now {A} s.
Arguments timers {A} s.
Arguments next_tid {A} s.
Arguments timeout {A} s.
Arguments invoked {A} s.
Arguments initial {A}.
Arguments Call {A} a.
Arguments Tick {A}.
Arguments Fire {A}.
Arguments is_call {A} e.
Arguments is_tick {A} e.
Arguments elapsed {A} es.
Arguments quiet {A} es.
Arguments at_most_one {A} s.
Arguments served {A} left es.
Arguments ahead {A} s es.

End Debounce.

(** * Properties *)

(** ** Polygon cleaning *)

Module PolygonFacts.
Import Polygon Logic.

Section Facts.
Variable h : host.

Lemma valid_point_of_point (p : point) :
    valid_point h (value_of_point p) = numeric_point p.
Proof. reflexivity. Qed.

Lemma coerce_point_of_point (p : point) :
    coerce_point h (value_of_point p) = p.
Proof. destruct p; reflexivity. Qed.

Lemma clean_numeric (r : ring) :
    forallb numeric_point r = true ->
    clean h (List.map value_of_point r) = r.
Proof.
    unfold clean. induction r as [|p r IH]; intros Hn.
    - reflexivity.
    - cbn [forallb] in Hn. apply andb_true_iff in Hn as [Hp Hr].
      cbn [List.map filter]. rewrite valid_point_of_point, Hp.
      cbn [List.map]. rewrite coerce_point_of_point. f_equal. now apply IH.
Qed.

Lemma close_closed (r : ring) : closed r = true -> close r = r.
Proof.
    unfold closed, close. destruct r as [|first r]; [discriminate|].
    intros Hc. apply andb_true_iff in Hc as [H0 H1].
    apply negb_true_iff in H0, H1. now rewrite H0, H1.
Qed.

Lemma clean_polygon_normalized (r : ring) :
    normalized_ring r = true ->
    clean_polygon h (value_of_ring r) = Ok (Some r).
Proof.
    unfold normalized_ring. intros Hn.
    apply andb_true_iff in Hn as [Hn Hc]. apply andb_true_iff in Hn as [Hl Hn].
    unfold clean_polygon, value_of_ring. rewrite (clean_numeric r Hn).
    apply Nat.leb_le in Hl.
    destruct (Nat.ltb_spec (List.length r) 3) as [Hlt|_]; [lia|].
    now rewrite close_closed.
Qed.

Lemma map_polygons_normalized (rs : list ring) :
    forallb normalized_ring rs = true ->
    map_polygons h (List.map value_of_ring rs) = Ok (List.map Some rs).
Proof.
    induction rs as [|r rs IH]; intros Hn.
    - reflexivity.
    - cbn [forallb] in Hn. apply andb_true_iff in Hn as [Hr Hrs].
      cbn [List.map map_polygons].
      rewrite (clean_polygon_normalized r Hr), (IH Hrs). reflexivity.
Qed.

Lemma filter_Boolean_Some (rs : list ring) :
    filter_Boolean (List.map Some rs) = rs.
Proof. induction rs as [|r rs IH]; simpl; [reflexivity | now rewrite IH]. Qed.

  (** On a non-empty normalized ring list the block returns normally. *)
Lemma polygons_of_normalized (r : ring) (rs : list ring) :
    forallb normalized_ring (r :: rs) = true ->
    polygons_of h (value_of_rings (r :: rs)) = Ok (r :: rs).
Proof.
    intros Hn. pose proof (map_polygons_normalized (r :: rs) Hn) as Hm.
    simpl in Hn. apply andb_true_iff in Hn as [Hr _].
    unfold normalized_ring in Hr. apply andb_true_iff in Hr as [Hr _].
    apply andb_true_iff in Hr as [Hl _]. apply Nat.leb_le in Hl.
    destruct r as [|p r]; [simpl in Hl; lia|].
    unfold polygons_of, value_of_rings.
    change (index0 (VArr (List.map value_of_ring ((p :: r) :: rs))))
      with (@Ok value (value_of_ring (p :: r))).
    cbv beta iota.
    change (index0 (value_of_ring (p :: r))) with (@Ok value (value_of_point p)).
    cbv beta iota.
    change (isArray (value_of_point p)) with true. cbv beta iota.
    rewrite Hm. now rewrite filter_Boolean_Some.
Qed.

  (** Every ring the block returns has at least three points. *)
Lemma close_length (r : ring) : (List.length r <= List.length (close r))%nat.
Proof.
    unfold close. destruct r as [|first r]; [simpl; lia|].
    destruct (_ || _); [rewrite length_app; simpl; lia | lia].
Qed.

Lemma map_polygons_length (polys : list value) (rs : list (option ring)) :
    map_polygons h polys = Ok rs ->
    Forall (fun r => (3 <= List.length r)%nat) (filter_Boolean rs).
Proof.
    revert rs. induction polys as [|p ps IH]; simpl; intros rs Hm.
    - injection Hm as <-. constructor.
    - destruct (clean_polygon h p) as [r|e] eqn:Hp; [|discriminate].
      destruct (map_polygons h ps) as [rs'|e] eqn:Hps; [|discriminate].
      injection Hm as <-. specialize (IH rs' eq_refl).
      unfold clean_polygon in Hp. destruct p; try discriminate.
      destruct (Nat.ltb_spec (List.length (clean h elems)) 3) as [Hlt|Hge];
        injection Hp as <-; simpl; [exact IH|].
      constructor; [|exact IH].
      pose proof (close_length (clean h elems)). lia.
Qed.

Lemma polygons_of_length (pc : value) (rs : list ring) :
    polygons_of h pc = Ok rs ->
    Forall (fun r => (3 <= List.length r)%nat) rs.
Proof.
    unfold polygons_of.
    destruct (index0 pc) as [e0|]; [|discriminate].
    destruct (index0 e0) as [e00|]; [|discriminate].
    destruct (isArray e00); destruct pc; try discriminate.
    - destruct (map_polygons h elems) as [os|] eqn:Hm; [|discriminate].
      intros [= <-]. now apply map_polygons_length with (polys := elems).
    - destruct (Nat.leb_spec 3 (List.length (clean h elems))) as [Hge|Hlt];
        intros [= <-]; constructor; [|constructor].
      pose proof (close_length (clean h elems)). lia.
Qed.

  (** Two-point polygons are all dropped. *)
Lemma clean_polygon_two_point (v : value) :
    two_point_polygon v = true -> clean_polygon h v = Ok None.
Proof.
    unfold two_point_polygon, clean_polygon, clean.
    destruct v as [| | | | |elems|]; try discriminate.
    destruct elems as [|p [|q [|x elems]]]; try discriminate.
    intros _. remember (filter (valid_point h) [p; q]) as kept eqn:Hk.
    assert (Hlen : (List.length kept <= 2)%nat).
    { subst kept. simpl. destruct (valid_point h p), (valid_point h q); simpl; lia. }
    rewrite length_map.
    destruct (Nat.ltb_spec (List.length kept) 3) as [_|Hge]; [reflexivity | lia].
Qed.

Lemma map_polygons_two_point (polys : list value) :
    forallb two_point_polygon polys = true ->
    exists os, map_polygons h polys = Ok os /\ filter_Boolean os = [].
Proof.
    induction polys as [|p ps IH]; simpl; intros Ht.
    - exists []. split; reflexivity.
    - apply andb_true_iff in Ht as [Hp Hps].
      destruct (IH Hps) as (os & Hos & Hf).
      rewrite (clean_polygon_two_point p Hp), Hos.
      exists (None :: os). split; [reflexivity | exact Hf].
Qed.

  (** The block on an array made only of two-point polygons: no polygon
      is kept; on the empty array the block throws. *)
Lemma polygons_of_two_point (polys : list value) :
    forallb two_point_polygon polys = true ->
    polygons_of h (VArr polys) = Ok [] \/ polygons_of h (VArr polys) = Throw TypeError.
Proof.
    intros Ht. destruct polys as [|p ps]; [right; reflexivity|left].
    destruct (map_polygons_two_point (p :: ps) Ht) as (os & Hos & Hf).
    simpl in Ht. apply andb_true_iff in Ht as [Hp _].
    unfold two_point_polygon in Hp.
    destruct p as [| | | | |elems|]; try discriminate.
    destruct elems as [|a [|b [|x elems]]]; try discriminate.
    apply andb_true_iff in Hp as [Ha _].
    destruct a; try discriminate.
    unfold polygons_of. cbn [index0 isArray]. rewrite Hos, Hf. reflexivity.
Qed.

Lemma renderable_two_point (path : value) (polys : list value) :
    decode_path h path = Some (VArr polys) ->
    forallb two_point_polygon polys = true ->
    renderable h path = [].
Proof.
    intros Hd Ht. unfold renderable. rewrite Hd.
    destruct (polygons_of_two_point polys Ht) as [-> | ->]; reflexivity.
Qed.

Lemma renderable_malformed (t : string) :
    JSON_parse h t = None -> renderable h (VStr t) = [].
Proof. intros Hp. unfold renderable, decode_path. now rewrite Hp. Qed.

End Facts.
End PolygonFacts.

(** ** Rules for the computations *)

Module Rules.
Import Polygon App Logic.
Local Open Scope js_scope.

Lemma exec_bind {A B : Type} (m : M A) (k : A -> M B) (s : state) :
  exec (bind m k) s =
  match m s with
  | (Ok a, s') => exec (k a) s'
  | (Throw _, s') => s'
  end.
Proof. unfold exec, bind. destruct (m s) as [[a|e] s']; reflexivity. Qed.

Lemma hoare_weaken {A : Type} (P P' Q Q' : state -> Prop) (m : M A) :
  hoare P' m Q' -> (forall s, P s -> P' s) -> (forall s, Q' s -> Q s) ->
  hoare P m Q.
Proof. unfold hoare. auto. Qed.

Lemma hoare_bind {A B : Type} (R P Q : state -> Prop) (m : M A) (k : A -> M B) :
  hoare P m R -> (forall s, R s -> Q s) -> (forall a, hoare R (k a) Q) ->
  hoare P (bind m k) Q.
Proof.
  intros Hm HRQ Hk s HP. rewrite exec_bind. specialize (Hm s HP).
  unfold exec in *. destruct (m s) as [[a|e] s']; simpl in Hm.
  - now apply Hk.
  - now apply HRQ.
Qed.

Lemma hoare_try (R P Q : state -> Prop) (m handler : M unit) :
  hoare P m R -> (forall s, R s -> Q s) -> hoare R handler Q ->
  hoare P (try_catch m handler) Q.
Proof.
  intros Hm HRQ Hh s HP. specialize (Hm s HP).
  unfold exec, try_catch in *. destruct (m s) as [[a|e] s']; simpl in *.
  - now apply HRQ.
  - now apply Hh.
Qed.

Lemma hoare_gets_bind {A B : Type} (P Q : state -> Prop) (f : state -> A) (k : A -> M B) :
  (forall a, hoare (fun s => P s /\ f s = a) (k a) Q) ->
  hoare P (bind (gets f) k) Q.
Proof. intros Hk s HP. rewrite exec_bind. cbn. now apply (Hk (f s)). Qed.

Lemma preserves_bind {A B : Type} (P : state -> Prop) (m : M A) (k : A -> M B) :
  preserves P m -> (forall a, preserves P (k a)) -> preserves P (bind m k).
Proof. intros Hm Hk. apply hoare_bind with (R := P); auto. Qed.

Lemma preserves_try (P : state -> Prop) (m handler : M unit) :
  preserves P m -> preserves P handler -> preserves P (try_catch m handler).
Proof. intros Hm Hh. apply hoare_try with (R := P); auto. Qed.

Lemma preserves_ret {A : Type} (P : state -> Prop) (a : A) : preserves P (ret a).
Proof. intros s HP. exact HP. Qed.

Lemma preserves_throw {A : Type} (P : state -> Prop) (e : error) :
  preserves P (@throw A e).
Proof. intros s HP. exact HP. Qed.

Lemma preserves_lift {A : Type} (P : state -> Prop) (r : result A) :
  preserves P (lift r).
Proof. intros s HP. exact HP. Qed.

Lemma preserves_gets {A : Type} (P : state -> Prop) (f : state -> A) :
  preserves P (gets f).
Proof. intros s HP. exact HP. Qed.

Lemma preserves_settled (P : state -> Prop) (o : outcome) : preserves P (settled o).
Proof. destruct o; intros s HP; exact HP. Qed.

Lemma preserves_modify (P : state -> Prop) (f : state -> state) :
  (forall s, P s -> P (f s)) -> preserves P (modify f).
Proof. intros Hf s HP. now apply Hf. Qed.

Lemma triple_bind {A B : Type} (R : A -> state -> Prop) (P : state -> Prop)
    (m : M A) (k : A -> M B) (Q : B -> state -> Prop) (E : error -> state -> Prop) :
  triple P m R E -> (forall a, triple (R a) (k a) Q E) -> triple P (bind m k) Q E.
Proof.
  intros Hm Hk s HP. specialize (Hm s HP). unfold bind.
  destruct (m s) as [[a|e] s']; [now apply Hk | exact Hm].
Qed.

Lemma triple_gets_bind {A B : Type} (P : state -> Prop) (f : state -> A)
    (k : A -> M B) (Q : B -> state -> Prop) (E : error -> state -> Prop) :
  (forall a, triple (fun s => P s /\ f s = a) (k a) Q E) ->
  triple P (bind (gets f) k) Q E.
Proof. intros Hk s HP. unfold bind, gets. now apply (Hk (f s)). Qed.

Lemma triple_weaken {A : Type} (P P' : state -> Prop) (m : M A)
    (Q : A -> state -> Prop) (E : error -> state -> Prop) :
  triple P' m Q E -> (forall s, P s -> P' s) -> triple P m Q E.
Proof. intros Hm HP s Hs. apply Hm, HP, Hs. Qed.

(** The methods never throw out of their own [try]. *)
Lemma try_catch_ok (m handler : M unit) (s : state) :
  (forall s', outcome_of handler s' = Ok tt) ->
  outcome_of (try_catch m handler) s = Ok tt.
Proof.
  intros Hh. unfold outcome_of, try_catch.
  destruct (m s) as [[[]|e] s']; [reflexivity | apply Hh].
Qed.

Create HintDb frames.
Create HintDb methods.

#[export] Hint Unfold
  clearVillageSelector clearDistrictSelector clearCitySelector
  populateCitySelector populateDistrictSelector populateVillageSelector
  resume_Cities resume_Districts resume_Villages
  showProvinceInfo showProvinceBoundary showCityBoundary
  L_marker L_polygon remove_if_any
  resume_ProvinceGeo resume_CityGeo resume_DistrictDetail resume_DistrictCityGeo
  resume_VillageDetail resume_VillageCityGeo resume : methods.

(** A property that only reads what a piece of code leaves alone is
    preserved: structural descent, the leaves by computation. *)
Ltac leaf :=
  let s := fresh "s" in
  let H := fresh "H" in
  intros s H; unfold exec;
  cbv [map_setView map_setMaxBounds L_map map_removeLayer new_layer addTo_map await
       on_document modify gets ret throw lift];
  unfold live_layers, viewport, has_bounds in *; cbn -[without] in *;
  try (destruct (map s) eqn:?; cbn -[without] in *;
       try match goal with
           | E : map ?x = _ |- context [map ?x] => rewrite E
           end);
  intuition (auto with datatypes; try congruence).

Ltac frame_rule :=
  lazymatch goal with
  | |- preserves _ (bind _ _) => apply preserves_bind; [ | intro ]
  | |- preserves _ (try_catch _ _) => apply preserves_try
  | |- preserves _ (ret _) => apply preserves_ret
  | |- preserves _ (throw _) => apply preserves_throw
  | |- preserves _ (lift _) => apply preserves_lift
  | |- preserves _ (gets _) => apply preserves_gets
  | |- preserves _ (settled _) => apply preserves_settled
  | |- preserves _ (match ?x with _ => _ end) => destruct x
  | |- preserves _ (let _ := _ in _) => cbv zeta
  | |- preserves _ _ =>
      first [ progress autounfold with methods | solve [ leaf ] ]
  end.

Ltac frame_step :=
  lazymatch goal with
  | |- preserves _ _ => first [ solve [ eauto 2 with frames ] | frame_rule ]
  end.

Ltac frame := repeat frame_step.

End Rules.

(** ** The overlay invariant *)

Module Overlays.
Import Polygon App Logic Rules.
Local Open Scope js_scope.

Lemma slot_eqb_eq (a b : slot) : slot_eqb a b = true <-> a = b.
Proof. destruct a, b; simpl; split; (reflexivity || discriminate). Qed.

Lemma in_slot_iff (sl : slot) (l : layer) :
  in_slot sl l = true <-> slot_of (shape l) = Some sl.
Proof.
  unfold in_slot. destruct (slot_of (shape l)) as [sl'|].
  - rewrite slot_eqb_eq. split; [intros ->; reflexivity | now intros [= ->]].
  - split; discriminate.
Qed.

Lemma slot_get_set_same (sl : slot) (x : option layer) (s : state) :
  slot_get sl (slot_set sl x s) = x.
Proof. destruct sl; reflexivity. Qed.

Lemma slot_get_set_other (sl sl' : slot) (x : option layer) (s : state) :
  sl <> sl' -> slot_get sl' (slot_set sl x s) = slot_get sl' s.
Proof. destruct sl, sl'; (reflexivity || congruence). Qed.

Lemma live_slot_set (sl : slot) (x : option layer) (s : state) :
  live_layers (slot_set sl x s) = live_layers s.
Proof. destruct sl; reflexivity. Qed.

Lemma next_slot_set (sl : slot) (x : option layer) (s : state) :
  next_lid (slot_set sl x s) = next_lid s.
Proof. destruct sl; reflexivity. Qed.

Lemma slot_get_set_map (sl : slot) (m : option map_state) (s : state) :
  slot_get sl (set_map m s) = slot_get sl s.
Proof. destruct sl; reflexivity. Qed.

Lemma slot_get_set_next (sl : slot) (n : nat) (s : state) :
  slot_get sl (set_next_lid n s) = slot_get sl s.
Proof. destruct sl; reflexivity. Qed.

(** The invariant reads the map's layers, the six variables and the
    identity counter only. *)
Lemma Inv_ext (s s' : state) :
  live_layers s' = live_layers s ->
  (forall sl, slot_get sl s' = slot_get sl s) ->
  next_lid s' = next_lid s ->
  Inv s -> Inv s'.
Proof.
  intros Hl Hg Hn [F1 F2 F3 F4 F5 F6].
  constructor; try rewrite Hl; try rewrite Hn; try setoid_rewrite Hg; auto.
  intros l Hin. specialize (F5 l Hin). unfold owned in *.
  destruct (slot_of (shape l)); [now rewrite Hg | exact F5].
Qed.

Lemma nolive_ext (sl : slot) (s s' : state) :
  live_layers s' = live_layers s -> nolive sl s -> nolive sl s'.
Proof. unfold nolive. intros ->. auto. Qed.

Lemma Inv_initial (d : dom) : Inv (initial d).
Proof.
  constructor; simpl; try contradiction; try constructor;
    intros [] ?; discriminate.
Qed.

Lemma In_without (l0 l : layer) (ls : list layer) :
  In l (without l0 ls) <-> In l ls /\ lid l <> lid l0.
Proof.
  unfold without. rewrite filter_In, negb_true_iff, Nat.eqb_neq. tauto.
Qed.

Lemma NoDup_map_without (l0 : layer) (ls : list layer) :
  NoDup (List.map lid ls) -> NoDup (List.map lid (without l0 ls)).
Proof.
  induction ls as [|x ls IH]; simpl; intros Hnd; [constructor|].
  inversion Hnd as [|? ? Hx Hls]; subst.
  destruct (negb (lid x =? lid l0)%nat); simpl; [|auto].
  constructor; [|auto].
  rewrite in_map_iff in *. intros (y & Hy & Hin). apply Hx.
  exists y. split; [exact Hy|]. now apply In_without in Hin.
Qed.

Section States.
Variables (s : state) (m : map_state).
Hypothesis Hmap : map s = Some m.

Lemma live_is : live_layers s = layers m.
Proof. unfold live_layers. now rewrite Hmap. Qed.

  (** [map.setView] *)
Lemma Inv_setView (c : jsnum * jsnum) (z : Z) (b : option bounds) :
    Inv s -> Inv (set_map (Some {| center := c; zoom := z; layers := layers m;
                                   maxBounds := b |}) s).
Proof.
    apply Inv_ext;
      [symmetry; apply live_is | intros sl; apply slot_get_set_map | reflexivity].
Qed.

  (** [map.removeLayer] *)
Lemma Inv_without (l0 : layer) :
    Inv s ->
    Inv (set_map (Some {| center := center m; zoom := zoom m;
                          layers := without l0 (layers m);
                          maxBounds := maxBounds m |}) s).
Proof.
    intros [F1 F2 F3 F4 F5 F6]. rewrite live_is in *.
    constructor; cbn [live_layers map set_map next_lid].
    - intros l Hin. apply In_without in Hin. now apply F1.
    - intros sl l. rewrite slot_get_set_map. apply F2.
    - intros sl l. rewrite slot_get_set_map. apply F3.
    - now apply NoDup_map_without.
    - intros l Hin. apply In_without in Hin as [Hin _]. specialize (F5 l Hin).
      unfold owned in *. destruct (slot_of (shape l));
        [now rewrite slot_get_set_map | exact F5].
    - intros sl l l'. rewrite slot_get_set_map. intros Hg Hin.
      apply In_without in Hin as [Hin _]. now apply F6 with (sl := sl).
Qed.

  (** Once the layer of a variable has been removed, no layer of its kind
      is on the map. *)
Lemma nolive_without (sl : slot) (l0 : layer) :
    Inv s -> slot_get sl s = Some l0 ->
    nolive sl (set_map (Some {| center := center m; zoom := zoom m;
                                layers := without l0 (layers m);
                          maxBounds := maxBounds m |}) s).
Proof.
    intros [F1 F2 F3 F4 F5 F6] Hg l Hin. cbn [live_layers map set_map] in Hin.
    rewrite live_is in *. apply In_without in Hin as [Hin Hne].
    destruct (in_slot sl l) eqn:Hs; [|reflexivity].
    apply in_slot_iff in Hs. specialize (F5 l Hin). unfold owned in F5.
    rewrite Hs, Hg in F5. injection F5 as <-. contradiction.
Qed.

  (** A freshly made layer put on the map and stored in its variable. *)
Lemma Inv_place (sl : slot) (sh : overlay) :
    Inv s -> nolive sl s ->
    slot_of sh = Some sl ->
    let l := {| lid := next_lid s; shape := sh |} in
    Inv (slot_set sl (Some l)
           (set_map (Some {| center := center m; zoom := zoom m;
                             layers := layers m ++ [l];
                          maxBounds := maxBounds m |})
              (set_next_lid (S (next_lid s)) s))).
Proof.
    intros [F1 F2 F3 F4 F5 F6] Hn Hsh l. unfold nolive in Hn. rewrite live_is in *.
    assert (Hslot : forall sl', sl' <> sl ->
              slot_get sl' (slot_set sl (Some l)
                (set_map (Some {| center := center m; zoom := zoom m;
                                  layers := layers m ++ [l];
                          maxBounds := maxBounds m |})
                   (set_next_lid (S (next_lid s)) s))) = slot_get sl' s).
    { intros sl' Hne. rewrite slot_get_set_other by congruence.
      now rewrite slot_get_set_map, slot_get_set_next. }
    constructor; rewrite ?live_slot_set, ?next_slot_set;
      cbn [live_layers map set_map next_lid set_next_lid layers].
    - intros l' Hin. apply in_app_iff in Hin as [Hin|[<-|[]]].
      + specialize (F1 l' Hin). lia.
      + simpl. lia.
    - intros sl' l' Hg. destruct (slot_eqb sl' sl) eqn:He.
      + apply slot_eqb_eq in He as ->. rewrite slot_get_set_same in Hg.
        injection Hg as <-. simpl. lia.
      + assert (sl' <> sl) as Hne by (intros ->; destruct sl; discriminate).
        rewrite Hslot in Hg by exact Hne. specialize (F2 sl' l' Hg). lia.
    - intros sl' l' Hg. destruct (slot_eqb sl' sl) eqn:He.
      + apply slot_eqb_eq in He as ->. rewrite slot_get_set_same in Hg.
        injection Hg as <-. now apply in_slot_iff.
      + assert (sl' <> sl) as Hne by (intros ->; destruct sl; discriminate).
        rewrite Hslot in Hg by exact Hne. now apply F3.
    - rewrite map_app. apply NoDup_app; [exact F4 | repeat constructor; simpl; tauto |].
      intros n Hin [<-|[]]. apply in_map_iff in Hin as (l' & Hid & Hin).
      specialize (F1 l' Hin). simpl in Hid. lia.
    - intros l' Hin. unfold owned. apply in_app_iff in Hin as [Hin|[<-|[]]].
      + specialize (F5 l' Hin). specialize (Hn l' Hin). unfold owned in F5.
        destruct (slot_of (shape l')) as [sl'|] eqn:Hs'; [|exact F5].
        assert (sl' <> sl) as Hne.
        { intros ->. apply in_slot_iff in Hs'. congruence. }
        now rewrite Hslot.
      + simpl. rewrite Hsh. apply slot_get_set_same.
    - intros sl' l1 l' Hg Hin Hid. destruct (slot_eqb sl' sl) eqn:He.
      + apply slot_eqb_eq in He as ->. rewrite slot_get_set_same in Hg.
        injection Hg as <-. apply in_app_iff in Hin as [Hin|[<-|[]]]; [|reflexivity].
        specialize (F1 l' Hin). simpl in Hid. lia.
      + assert (sl' <> sl) as Hne by (intros ->; destruct sl; discriminate).
        rewrite Hslot in Hg by exact Hne.
        apply in_app_iff in Hin as [Hin|[<-|[]]].
        * now apply F6 with (sl := sl').
        * specialize (F2 sl' l1 Hg). simpl in Hid. lia.
Qed.

  (** Emptying a variable whose kind has no layer on the map. *)
Lemma Inv_unset (sl : slot) :
    Inv s -> nolive sl s -> Inv (slot_set sl None s).
Proof.
    intros [F1 F2 F3 F4 F5 F6] Hn.
    assert (Hslot : forall sl', sl' <> sl ->
              slot_get sl' (slot_set sl None s) = slot_get sl' s).
    { intros sl' Hne. now rewrite slot_get_set_other by congruence. }
    constructor; rewrite ?live_slot_set, ?next_slot_set; auto.
    - intros sl' l' Hg. destruct (slot_eqb sl' sl) eqn:He.
      + apply slot_eqb_eq in He as ->. now rewrite slot_get_set_same in Hg.
      + assert (sl' <> sl) as Hne by (intros ->; destruct sl; discriminate).
        rewrite Hslot in Hg by exact Hne. now apply F2 with (sl := sl').
    - intros sl' l' Hg. destruct (slot_eqb sl' sl) eqn:He.
      + apply slot_eqb_eq in He as ->. now rewrite slot_get_set_same in Hg.
      + assert (sl' <> sl) as Hne by (intros ->; destruct sl; discriminate).
        rewrite Hslot in Hg by exact Hne. now apply F3.
    - intros l' Hin. specialize (F5 l' Hin). specialize (Hn l' Hin).
      unfold owned in *. destruct (slot_of (shape l')) as [sl'|] eqn:Hs'; [|exact F5].
      assert (sl' <> sl) as Hne.
      { intros ->. apply in_slot_iff in Hs'. congruence. }
      now rewrite Hslot.
    - intros sl' l1 l' Hg Hin Hid. destruct (slot_eqb sl' sl) eqn:He.
      + apply slot_eqb_eq in He as ->. now rewrite slot_get_set_same in Hg.
      + assert (sl' <> sl) as Hne by (intros ->; destruct sl; discriminate).
        rewrite Hslot in Hg by exact Hne. now apply F6 with (sl := sl').
Qed.
End States.

Lemma Inv_next (s : state) : Inv s -> Inv (set_next_lid (S (next_lid s)) s).
Proof.
  intros [F1 F2 F3 F4 F5 F6]. constructor; auto.
  - intros l Hin. specialize (F1 l Hin). simpl. lia.
  - intros sl l. rewrite slot_get_set_next. intros Hg. specialize (F2 sl l Hg).
    simpl. lia.
  - intros sl l. rewrite slot_get_set_next. apply F3.
  - intros l Hin. specialize (F5 l Hin). unfold owned in *.
    destruct (slot_of (shape l)); [now rewrite slot_get_set_next | exact F5].
  - intros sl l l'. rewrite slot_get_set_next. apply F6.
Qed.

Lemma nolive_unmapped (sl : slot) (s : state) : map s = None -> nolive sl s.
Proof. intros Hm l. unfold live_layers. rewrite Hm. contradiction. Qed.

Lemma nolive_empty (sl : slot) (s : state) :
  Inv s -> slot_get sl s = None -> nolive sl s.
Proof.
  intros HI Hg l Hin. destruct (in_slot sl l) eqn:Hs; [|reflexivity].
  apply in_slot_iff in Hs. pose proof (live_owned s HI l Hin) as Ho.
  unfold owned in Ho. rewrite Hs in Ho. congruence.
Qed.

(** *** The primitive steps *)

Lemma Inv_modify (f : state -> state) :
  (forall s, live_layers (f s) = live_layers s) ->
  (forall s sl, slot_get sl (f s) = slot_get sl s) ->
  (forall s, next_lid (f s) = next_lid s) ->
  preserves Inv (modify f).
Proof. intros Hl Hg Hn s HI. apply (Inv_ext s); auto. Qed.

Ltac untouched := intros; try match goal with sl : slot |- _ => destruct sl end; reflexivity.

Lemma Inv_on_document (f : dom -> dom) : preserves Inv (on_document f).
Proof. apply Inv_modify; untouched. Qed.

Lemma Inv_await (t : task) : preserves Inv (await t).
Proof. apply Inv_modify; untouched. Qed.

Lemma Inv_select (f : state -> selection) :
  preserves Inv (modify (fun s => set_selectedLocation (f s) s)).
Proof. apply Inv_modify; untouched. Qed.

Lemma Inv_map_setView (h : host) (c : jsnum * jsnum) (z : Z) :
  preserves Inv (map_setView h c z).
Proof.
  intros s HI. unfold exec, map_setView. destruct (map s) as [m|] eqn:Hm; simpl;
    [now apply Inv_setView | exact HI].
Qed.

Lemma Inv_map_removeLayer (l : layer) : preserves Inv (map_removeLayer l).
Proof.
  intros s HI. unfold exec, map_removeLayer. destruct (map s) as [m|] eqn:Hm; simpl;
    [now apply Inv_without | exact HI].
Qed.

Lemma Inv_map_setMaxBounds (h : host) (b : bounds) :
  preserves Inv (map_setMaxBounds h b).
Proof.
  intros s HI. unfold exec, map_setMaxBounds. destruct (map s) as [m|] eqn:Hm; simpl;
    [now apply Inv_setView | exact HI].
Qed.

Lemma Inv_L_map (c : jsnum * jsnum) (z : Z) : preserves Inv (L_map c z).
Proof.
  intros s HI. unfold exec, L_map. destruct (map s) as [m|] eqn:Hm; simpl; [exact HI|].
  destruct HI as [F1 F2 F3 F4 F5 F6]. unfold live_layers in *. rewrite Hm in *.
  constructor; simpl; try contradiction; try (now constructor).
  - intros sl l. rewrite slot_get_set_map. apply F2.
  - intros sl l. rewrite slot_get_set_map. apply F3.
Qed.

Lemma Inv_init (h : host) : preserves Inv (init h).
Proof.
  unfold init. apply preserves_bind; [apply Inv_L_map | intros _].
  apply Inv_map_setMaxBounds.
Qed.

#[export] Hint Resolve Inv_on_document Inv_await Inv_map_setView Inv_map_removeLayer
  Inv_init : frames.
#[export] Hint Extern 1 (preserves Inv (modify _)) =>
  solve [ apply Inv_modify; untouched ] : frames.

(** *** Removing, then placing or forgetting, the layer of a variable *)

Lemma remove_gives_nolive (sl : slot) (a : option layer) :
  hoare (fun s => Inv s /\ slot_get sl s = a) (remove_if_any a)
        (fun s => Inv s /\ nolive sl s).
Proof.
  intros s [HI Hg]. unfold exec, remove_if_any. destruct a as [l|].
  - unfold map_removeLayer. destruct (map s) as [m|] eqn:Hm; simpl.
    + split; [now apply Inv_without | now apply nolive_without].
    + split; [exact HI | now apply nolive_unmapped].
  - simpl. split; [exact HI | now apply nolive_empty].
Qed.

Lemma forget_slot (sl : slot) (a : option layer) :
  hoare (fun s => Inv s /\ slot_get sl s = a)
        (match a with
         | Some l => map_removeLayer l;; modify (slot_set sl None)
         | None => ret tt
         end)
        Inv.
Proof.
  intros s [HI Hg]. unfold exec. destruct a as [l|]; simpl; [|exact HI].
  unfold bind, map_removeLayer, modify. destruct (map s) as [m|] eqn:Hm; simpl;
    [|exact HI].
  apply Inv_unset; [now apply Inv_without | now apply nolive_without].
Qed.

Lemma place_last (sl : slot) (b : bool) (sh : overlay) (e : error) :
  slot_of sh = Some sl ->
  hoare (fun s => Inv s /\ nolive sl s)
        (l <- (if b then new_layer sh else throw e);;
         l <- addTo_map l;;
         modify (slot_set sl (Some l)))
        Inv.
Proof.
  intros Hsh s [HI Hn]. unfold exec, bind. destruct b; simpl; [|exact HI].
  unfold addTo_map. cbn [map set_next_lid].
  destruct (map s) as [m|] eqn:Hm; simpl; [|now apply Inv_next].
  now apply Inv_place.
Qed.

Lemma place_then {B : Type} (sl : slot) (b : bool) (sh : overlay) (e : error)
    (rest : M B) :
  slot_of sh = Some sl ->
  preserves Inv rest ->
  hoare (fun s => Inv s /\ nolive sl s)
        (l <- (if b then new_layer sh else throw e);;
         l <- addTo_map l;;
         modify (slot_set sl (Some l));;
         rest)
        Inv.
Proof.
  intros Hsh Hrest s [HI Hn]. unfold exec, bind. destruct b; simpl; [|exact HI].
  unfold addTo_map. cbn [map set_next_lid].
  destruct (map s) as [m|] eqn:Hm; simpl; [|now apply Inv_next].
  apply Hrest. now apply Inv_place.
Qed.

(** [cur <- gets v;; remove_if_any cur;; ... place ...] *)
Lemma replace_then {B : Type} (sl : slot) (b : bool) (sh : overlay) (e : error)
    (rest : M B) :
  slot_of sh = Some sl ->
  preserves Inv rest ->
  preserves Inv
    (cur <- gets (slot_get sl);;
     remove_if_any cur;;
     l <- (if b then new_layer sh else throw e);;
     l <- addTo_map l;;
     modify (slot_set sl (Some l));;
     rest).
Proof.
  intros Hsh Hrest. apply hoare_gets_bind. intros a.
  apply hoare_bind with (R := fun s => Inv s /\ nolive sl s).
  - apply remove_gives_nolive.
  - tauto.
  - intros _. now apply place_then.
Qed.

(** [cur <- gets v;; if (cur) { map.removeLayer(cur); v = null };; rest] *)
Lemma forget_then {B : Type} (sl : slot) (rest : M B) :
  preserves Inv rest ->
  preserves Inv
    (cur <- gets (slot_get sl);;
     match cur with
     | Some l => map_removeLayer l;; modify (slot_set sl None)
     | None => ret tt
     end;;
     rest).
Proof.
  intros Hrest. apply hoare_gets_bind. intros a.
  apply hoare_bind with (R := Inv); [apply forget_slot | auto | intros _; exact Hrest].
Qed.

Lemma forget_last (sl : slot) :
  preserves Inv
    (cur <- gets (slot_get sl);;
     match cur with
     | Some l => map_removeLayer l;; modify (slot_set sl None)
     | None => ret tt
     end).
Proof. apply hoare_gets_bind. intros a. apply forget_slot. Qed.

(** *** Every method keeps the invariant *)

Ltac with_slot lem :=
  first [ apply (lem SProvince) | apply (lem SCity) | apply (lem SDistrict)
        | apply (lem SVillage) | apply (lem SProvinceBoundary)
        | apply (lem SCityBoundary) ].

Ltac inv_step :=
  lazymatch goal with
  | |- preserves Inv _ =>
      first [ solve [ eauto 2 with frames ]
            | with_slot (@replace_then unit); [ reflexivity | ]
            | with_slot (@forget_then unit)
            | with_slot forget_last
            | frame_rule ]
  end.

Ltac inv := repeat inv_step.

Section Methods.
Variable h : host.

Lemma Inv_showProvinceBoundary (geoData : value) :
    preserves Inv (showProvinceBoundary h geoData).
Proof.
    unfold showProvinceBoundary. apply preserves_try; [|apply preserves_ret].
    destruct (truthy geoData); [|apply preserves_ret].
    apply preserves_bind; [apply preserves_lift | intros path].
    destruct (truthy path); [|apply preserves_ret].
    apply hoare_gets_bind with (f := slot_get SProvinceBoundary). intros a.
    apply hoare_bind with (R := fun s => Inv s /\ nolive SProvinceBoundary s);
      [apply remove_gives_nolive | tauto | intros _].
    destruct (decode_path h path) as [pc|]; [|intros s Hs; apply Hs].
    apply hoare_bind with (R := fun s => Inv s /\ nolive SProvinceBoundary s);
      [intros s Hs; exact Hs | tauto | intros polygons].
    destruct polygons as [|r rs]; [intros s Hs; apply Hs|].
    unfold L_polygon. now apply (place_last SProvinceBoundary).
Qed.

Lemma Inv_showCityBoundary (geoData : value) :
    preserves Inv (showCityBoundary h geoData).
Proof.
    unfold showCityBoundary. apply preserves_try; [|apply preserves_ret].
    destruct (truthy geoData); [|apply preserves_ret].
    apply preserves_bind; [apply preserves_lift | intros path].
    destruct (truthy path); [|apply preserves_ret].
    apply hoare_gets_bind with (f := slot_get SCityBoundary). intros a.
    apply hoare_bind with (R := fun s => Inv s /\ nolive SCityBoundary s);
      [apply remove_gives_nolive | tauto | intros _].
    destruct (decode_path h path) as [pc|]; [|intros s Hs; apply Hs].
    apply hoare_bind with (R := fun s => Inv s /\ nolive SCityBoundary s);
      [intros s Hs; exact Hs | tauto | intros polygons].
    destruct polygons as [|r rs]; [intros s Hs; apply Hs|].
    unfold L_polygon. now apply (place_last SCityBoundary).
Qed.

Hint Resolve Inv_showProvinceBoundary Inv_showCityBoundary : frames.

Lemma Inv_resume (t : task) (o : outcome) (r1 r2 : Q) :
    preserves Inv (resume h t o r1 r2).
Proof. destruct t; inv. Qed.

Lemma Inv_resetMap : preserves Inv (resetMap h).
Proof. unfold resetMap, read. inv. Qed.

Lemma Inv_handler (e : event) : preserves Inv (handler h e).
Proof.
    destruct e; simpl.
    - apply Inv_init.
    - unfold selectProvince. destruct (String.eqb code "").
      + apply preserves_bind; [apply Inv_resetMap | intros _; inv].
      + inv.
    - unfold selectCity. inv.
    - unfold selectDistrict. inv.
    - unfold selectVillage. inv.
    - apply Inv_resetMap.
    - unfold settle. apply preserves_bind; [apply preserves_gets | intros ts].
      destruct (nth_error ts i) as [t|]; [|apply preserves_ret].
      apply preserves_bind; [inv | intros _; apply Inv_resume].
Qed.

  (** The invariant holds in every state the page can reach. *)
Lemma Inv_run (es : list event) (s : state) : Inv s -> Inv (run h es s).
Proof.
    revert s. induction es as [|e es IH]; simpl; intros s HI; [exact HI|].
    apply IH. now apply Inv_handler.
Qed.

Lemma Inv_reachable (d : dom) (es : list event) : Inv (run h es (initial d)).
Proof. apply Inv_run, Inv_initial. Qed.
End Methods.

End Overlays.

(** ** What the continuations leave alone *)

Module Frames.
Import Polygon App Logic Rules Overlays.
Local Open Scope js_scope.

Lemma returns_bind {A B : Type} (m : M A) (k : A -> M B) :
  returns m -> (forall a, returns (k a)) -> returns (bind m k).
Proof.
  intros Hm Hk s. destruct (Hm s) as [a Ha]. unfold outcome_of, bind in *.
  destruct (m s) as [[a'|e] s']; simpl in Ha; [|discriminate].
  apply (Hk a' s').
Qed.

Lemma returns_try (m handler : M unit) : returns handler -> returns (try_catch m handler).
Proof.
  intros Hh s. unfold outcome_of, try_catch.
  destruct (m s) as [[[]|e] s']; [now exists tt | apply Hh].
Qed.

Lemma returns_modify (f : state -> state) : returns (modify f).
Proof. intros s. now exists tt. Qed.

Lemma returns_ret {A : Type} (a : A) : returns (ret a).
Proof. intros s. now exists a. Qed.

Lemma returns_gets {A : Type} (f : state -> A) : returns (gets f).
Proof. intros s. now exists (f s). Qed.

(** When the body of a [try] returns, the handler does not run. *)
Lemma try_catch_returns (m handler : M unit) (s : state) (a : unit) :
  outcome_of m s = Ok a -> try_catch m handler s = m s.
Proof.
  unfold outcome_of, try_catch. destruct (m s) as [[[]|e] s']; simpl;
    [reflexivity | discriminate].
Qed.

Lemma bind_returns {A B : Type} (m : M A) (k : A -> M B) (s : state) (a : A) :
  outcome_of m s = Ok a -> bind m k s = k a (exec m s).
Proof.
  unfold outcome_of, exec, bind. destruct (m s) as [[a'|e] s']; simpl;
    [now intros [= ->] | discriminate].
Qed.

Ltac returns :=
  repeat first
    [ apply returns_try | apply returns_modify | apply returns_ret
    | apply returns_gets | apply returns_bind; [ | intro ]
    | match goal with
      | |- returns (match ?x with _ => _ end) => destruct x
      end
    | progress autounfold with methods
    | progress unfold on_document, await ].

Section Frames.
Variable h : host.

  (** No continuation writes [selectedLocation]. *)
Lemma resume_selection (t : task) (o : outcome) (r1 r2 : Q) (sel : selection) :
    preserves (fun s => selectedLocation s = sel) (resume h t o r1 r2).
Proof. destruct t; frame. Qed.

  (** The tails of the four placements always return. *)
Lemma returns_showProvinceInfo (data : value) : returns (showProvinceInfo data).
Proof. returns. Qed.

Lemma returns_showProvinceBoundary (g : value) : returns (showProvinceBoundary h g).
Proof. returns. Qed.

Lemma returns_showCityBoundary (g : value) : returns (showCityBoundary h g).
Proof. returns. Qed.

Lemma returns_populateCitySelector (code : string) : returns (populateCitySelector code).
Proof. returns. Qed.

Lemma returns_populateDistrictSelector (code : string) :
    returns (populateDistrictSelector code).
Proof. returns. Qed.

Lemma returns_populateVillageSelector (code : string) :
    returns (populateVillageSelector code).
Proof. returns. Qed.

  (** ... and leave the viewport where it is. *)
Lemma viewport_showProvinceInfo (data : value) v :
    preserves (fun s => viewport s = v) (showProvinceInfo data).
Proof. frame. Qed.

Lemma viewport_showProvinceBoundary (g : value) v :
    preserves (fun s => viewport s = v) (showProvinceBoundary h g).
Proof. frame. Qed.

Lemma viewport_showCityBoundary (g : value) v :
    preserves (fun s => viewport s = v) (showCityBoundary h g).
Proof. frame. Qed.

Lemma viewport_populateCitySelector (code : string) v :
    preserves (fun s => viewport s = v) (populateCitySelector code).
Proof. frame. Qed.

Lemma viewport_populateDistrictSelector (code : string) v :
    preserves (fun s => viewport s = v) (populateDistrictSelector code).
Proof. frame. Qed.

Lemma viewport_populateVillageSelector (code : string) v :
    preserves (fun s => viewport s = v) (populateVillageSelector code).
Proof. frame. Qed.

  (** *** The successful path of each placement *)

Lemma geo_of_inv (o : outcome) (data : value) (lat lng : jsnum) :
    geo_of h o = Some (data, lat, lng) ->
    exists response latv lngv,
      o = Fulfilled response /\ success_and_data response = Ok (Some data) /\
      get_prop "lat" data = Ok latv /\ get_prop "lng" data = Ok lngv /\
      lat = parseFloat h latv /\ lng = parseFloat h lngv.
Proof.
    unfold geo_of. destruct o as [|response]; [discriminate|].
    destruct (success_and_data response) as [[d|]|] eqn:Hsd; try discriminate.
    destruct (get_prop "lat" d) as [latv|] eqn:Hlat; try discriminate.
    destruct (get_prop "lng" d) as [lngv|] eqn:Hlng; try discriminate.
    intros [= Hd Hla Hln]. subst. exists response, latv, lngv. auto 10.
Qed.

Lemma try_catch_ext (m m' handler : M unit) (s : state) :
    m s = m' s -> try_catch m handler s = try_catch m' handler s.
Proof. unfold try_catch. now intros ->. Qed.

Lemma bind_settled {B : Type} (response : value) (k : value -> M B) (s : state) :
    bind (settled (Fulfilled response)) k s = k response s.
Proof. reflexivity. Qed.

Lemma bind_lift_ok {A B : Type} (a : A) (k : A -> M B) (s : state) :
    bind (lift (Ok a)) k s = k a s.
Proof. reflexivity. Qed.

  (** A marker is placed and the view moved; what follows always returns. *)
Lemma placement_success (sl : slot) (sh : overlay) (c : jsnum * jsnum) (z : Z)
      (tail handler : M unit) (s : state) (m : map_state) :
    map s = Some m -> returns tail ->
    exec (try_catch
            (cur <- gets (slot_get sl);;
             remove_if_any cur;;
             l <- new_layer sh;;
             l <- addTo_map l;;
             modify (slot_set sl (Some l));;
             map_setView h c z;;
             tail)
            handler) s
    = exec tail (placed sl sh (limited h (maxBounds m) c z) z m s).
Proof.
    intros Hm Htail.
    assert (Hbody :
      (cur <- gets (slot_get sl);; remove_if_any cur;; l <- new_layer sh;;
       l <- addTo_map l;; modify (slot_set sl (Some l));; map_setView h c z;; tail) s
      = tail (placed sl sh (limited h (maxBounds m) c z) z m s)).
    { unfold bind, gets, remove_if_any, new_layer, addTo_map, modify, map_setView,
        map_removeLayer, ret, placed.
      destruct sl; cbn [slot_get slot_set];
        match goal with
        | |- context [match ?v s with Some l0 => without l0 _ | None => _ end] =>
            destruct (v s)
        end; cbn; rewrite Hm; cbn; reflexivity. }
    unfold exec, try_catch. rewrite Hbody.
    destruct (Htail (placed sl sh (limited h (maxBounds m) c z) z m s)) as [[] Ha].
    unfold outcome_of in Ha.
    destruct (tail (placed sl sh (limited h (maxBounds m) c z) z m s)) as [[[]|e] s'];
      [reflexivity | discriminate].
Qed.

Lemma resume_ProvinceGeo_placed (code : string) (o : outcome) (data : value)
      (lat lng : jsnum) (s : state) (m : map_state) :
    geo_of h o = Some (data, lat, lng) ->
    is_nan lat = false -> is_nan lng = false ->
    map s = Some m -> latLng_ok h lat lng = true ->
    exec (resume_ProvinceGeo h code o) s =
    exec (showProvinceInfo data;; showProvinceBoundary h data;;
          populateCitySelector code)
         (placed SProvince (Marker Province lat lng data)
            (limited h (maxBounds m) (lat, lng) 8) 8 m s).
Proof.
    intros Hg Hlat Hlng Hm Hok.
    destruct (geo_of_inv o data lat lng Hg)
      as (resp & latv & lngv & -> & Hsd & Hla & Hln & -> & ->).
    rewrite <- (placement_success SProvince _ _ _ _ (on_document (with_content PanelError)))
      by (auto; returns).
    unfold resume_ProvinceGeo, exec. f_equal. apply try_catch_ext.
    rewrite bind_settled, Hsd, bind_lift_ok. cbv beta iota.
    rewrite Hla, bind_lift_ok, Hln, bind_lift_ok. cbv zeta.
    rewrite Hlat, Hlng. unfold L_marker. rewrite Hok. reflexivity.
Qed.

Lemma placement_success_last (sl : slot) (sh : overlay) (c : jsnum * jsnum) (z : Z)
      (handler : M unit) (s : state) (m : map_state) :
    map s = Some m ->
    exec (try_catch
            (cur <- gets (slot_get sl);;
             remove_if_any cur;;
             l <- new_layer sh;;
             l <- addTo_map l;;
             modify (slot_set sl (Some l));;
             map_setView h c z)
            handler) s
    = placed sl sh (limited h (maxBounds m) c z) z m s.
Proof.
    intros Hm.
    unfold exec, try_catch, bind, gets, remove_if_any, new_layer, addTo_map, modify,
      map_setView, map_removeLayer, ret, placed.
    destruct sl; cbn [slot_get slot_set];
      match goal with
      | |- context [match ?v s with Some l0 => without l0 _ | None => _ end] =>
          destruct (v s)
      end; cbn; rewrite Hm; cbn; reflexivity.
Qed.

Lemma resume_CityGeo_placed (code : string) (o : outcome) (data : value)
      (lat lng : jsnum) (s : state) (m : map_state) :
    geo_of h o = Some (data, lat, lng) ->
    is_nan lat = false -> is_nan lng = false ->
    map s = Some m -> latLng_ok h lat lng = true ->
    exec (resume_CityGeo h code o) s =
    exec (showCityBoundary h data;; populateDistrictSelector code)
         (placed SCity (Marker City lat lng data)
            (limited h (maxBounds m) (lat, lng) 10) 10 m s).
Proof.
    intros Hg Hlat Hlng Hm Hok.
    destruct (geo_of_inv o data lat lng Hg)
      as (resp & latv & lngv & -> & Hsd & Hla & Hln & -> & ->).
    rewrite <- (placement_success SCity _ _ _ _ (ret tt)) by (auto; returns).
    unfold resume_CityGeo, exec. f_equal. apply try_catch_ext.
    rewrite bind_settled, Hsd, bind_lift_ok. cbv beta iota.
    rewrite Hla, bind_lift_ok, Hln, bind_lift_ok. cbv zeta.
    rewrite Hlat, Hlng. unfold L_marker. rewrite Hok. reflexivity.
Qed.

Lemma resume_DistrictCityGeo_placed (code : string) (districtData : value)
      (o : outcome) (r1 r2 : Q) (data : value) (cityLat cityLng : jsnum)
      (s : state) (m : map_state) :
    geo_of h o = Some (data, cityLat, cityLng) ->
    let lat := num_add h cityLat (jitter h r1 (1 # 10)) in
    let lng := num_add h cityLng (jitter h r2 (1 # 10)) in
    map s = Some m -> latLng_ok h lat lng = true ->
    exec (resume_DistrictCityGeo h code districtData o r1 r2) s =
    exec (populateVillageSelector code)
         (placed SDistrict (Marker District lat lng districtData)
            (limited h (maxBounds m) (lat, lng) 12) 12 m s).
Proof.
    intros Hg lat lng Hm Hok.
    destruct (geo_of_inv o data cityLat cityLng Hg)
      as (resp & latv & lngv & -> & Hsd & Hla & Hln & Hlat & Hlng).
    rewrite <- (placement_success SDistrict _ _ _ _ (ret tt)) by (auto; returns).
    unfold resume_DistrictCityGeo, exec. f_equal. apply try_catch_ext.
    rewrite bind_settled, Hsd, bind_lift_ok. cbv beta iota.
    rewrite Hla, bind_lift_ok, Hln, bind_lift_ok. cbv zeta.
    rewrite <- Hlat, <- Hlng. fold lat lng. unfold L_marker. rewrite Hok. reflexivity.
Qed.

Lemma resume_VillageCityGeo_placed (code : string) (villageData : value)
      (o : outcome) (r1 r2 : Q) (data : value) (cityLat cityLng : jsnum)
      (s : state) (m : map_state) :
    geo_of h o = Some (data, cityLat, cityLng) ->
    let lat := num_add h cityLat (jitter h r1 (2 # 10)) in
    let lng := num_add h cityLng (jitter h r2 (2 # 10)) in
    map s = Some m -> latLng_ok h lat lng = true ->
    exec (resume_VillageCityGeo h code villageData o r1 r2) s =
    placed SVillage (Marker Village lat lng villageData)
      (limited h (maxBounds m) (lat, lng) 14) 14 m s.
Proof.
    intros Hg lat lng Hm Hok.
    destruct (geo_of_inv o data cityLat cityLng Hg)
      as (resp & latv & lngv & -> & Hsd & Hla & Hln & Hlat & Hlng).
    rewrite <- (placement_success_last SVillage _ _ _ (ret tt)) by auto.
    unfold resume_VillageCityGeo, exec. f_equal. apply try_catch_ext.
    rewrite bind_settled, Hsd, bind_lift_ok. cbv beta iota.
    rewrite Hla, bind_lift_ok, Hln, bind_lift_ok. cbv zeta.
    rewrite <- Hlat, <- Hlng. fold lat lng. unfold L_marker. rewrite Hok. reflexivity.
Qed.

  (** *** The state after a placement *)

Lemma viewport_placed sl sh c z m s : viewport (placed sl sh c z m s) = Some (c, z).
Proof. reflexivity. Qed.

Lemma slot_placed sl sh c z m s :
    slot_get sl (placed sl sh c z m s) = Some {| lid := next_lid s; shape := sh |}.
Proof. unfold placed. now rewrite slot_get_set_map, slot_get_set_same. Qed.

Lemma live_placed sl sh c z m s :
    In {| lid := next_lid s; shape := sh |} (live_layers (placed sl sh c z m s)).
Proof. unfold placed, live_layers. cbn. apply in_or_app. right. now left. Qed.

Lemma selection_placed sl sh c z m s :
    selectedLocation (placed sl sh c z m s) = selectedLocation s.
Proof. destruct sl; reflexivity. Qed.

Lemma document_placed sl sh c z m s : document (placed sl sh c z m s) = document s.
Proof. destruct sl; reflexivity. Qed.

Lemma Inv_placed sl sh c z m s :
    map s = Some m -> slot_of sh = Some sl -> Inv s -> Inv (placed sl sh c z m s).
Proof.
    intros Hm Hsh HI.
    pose proof (remove_gives_nolive sl (slot_get sl s) s (conj HI eq_refl)) as [HI1 Hn1].
    unfold exec, remove_if_any, map_removeLayer in HI1, Hn1.
    destruct (slot_get sl s) as [l0|] eqn:Hcur; cbn in HI1, Hn1;
      [rewrite Hm in HI1, Hn1; cbn in HI1, Hn1|].
    - match type of HI1 with
      | Inv ?s1 => pose proof (Inv_place s1 _ eq_refl sl sh HI1 Hn1 Hsh) as HI2
      end. cbn in HI2.
      eapply Inv_ext; [| | |exact HI2].
      + unfold placed. rewrite Hcur. destruct sl; reflexivity.
      + intros sl'. unfold placed. destruct sl, sl'; reflexivity.
      + destruct sl; reflexivity.
    - pose proof (Inv_place s m Hm sl sh HI1 Hn1 Hsh) as HI2. cbn in HI2.
      eapply Inv_ext; [| | |exact HI2].
      + unfold placed. rewrite Hcur. destruct sl; reflexivity.
      + intros sl'. unfold placed. destruct sl, sl'; reflexivity.
      + destruct sl; reflexivity.
Qed.

End Frames.
End Frames.

(** ** The reset operation *)

Module ResetFacts.
Import Polygon App Logic Rules Overlays Frames.
Local Open Scope js_scope.

(** With the two names unbound, [resetMap] stops at its first read of
    [provinceBoundaryLayer] (or earlier, when there is no map yet): the
    selection, the document and the list of pending requests are as
    before. *)
Section Stops.
Variable h : host.
Variables (sel : selection) (d : dom) (p : list task) (mapped : bool).


Lemma setView_going (c : jsnum * jsnum) (z : Z) :
    triple (untouched_by_reset sel d p mapped) (map_setView h c z)
      (fun _ => going sel d p mapped) (stopped sel d p mapped).
Proof.
    intros s Hs. unfold map_setView. destruct (map s) as [m|] eqn:Hm.
    - unfold going, untouched_by_reset, has_map in *. cbn.
      rewrite Hm in Hs. tauto.
    - split; [auto | exact Hs].
Qed.

Lemma forget_going (a : option layer) (set : option layer -> state -> state) :
    (forall x s, going sel d p mapped s -> going sel d p mapped (set x s)) ->
    triple (going sel d p mapped)
      (match a with
       | Some l => map_removeLayer l;; modify (set None)
       | None => ret tt
       end)
      (fun _ => going sel d p mapped) (stopped sel d p mapped).
Proof.
    intros Hset s Hs. destruct a as [l|]; [|exact Hs].
    unfold bind, map_removeLayer, modify. destruct Hs as [Hu Hm].
    unfold has_map in Hm.
    destruct (map s) as [m|] eqn:Hmap; [|discriminate].
    apply Hset. unfold going, untouched_by_reset, has_map in *. cbn.
    rewrite Hmap in Hu. tauto.
Qed.

Lemma read_stops {B : Type} (k : option layer -> M B) (Q : B -> state -> Prop) :
    triple (going sel d p mapped) (bind (read provinceBoundaryLayer) k) Q
      (stopped sel d p mapped).
Proof.
    intros s [Hu Hm]. unfold read, gets, throw, bind. pose proof Hu as [[Hp Hc] Hrest].
    cbv beta. rewrite Hp. cbv beta iota. split; [now left | exact Hu].
Qed.

Lemma resetMap_triple :
    triple (untouched_by_reset sel d p mapped) (resetMap h) (fun _ _ => False)
      (stopped sel d p mapped).
Proof.
    unfold resetMap.
    apply triple_bind with (R := fun _ => going sel d p mapped); [apply setView_going | intros _].
    do 4 (apply triple_gets_bind; intros ?;
          apply triple_bind with (R := fun _ => going sel d p mapped);
          [eapply triple_weaken;
           [apply forget_going; intros x s H; exact H | tauto] | intros _]).
    apply read_stops.
Qed.
End Stops.

(** With the two names unbound, [resetMap] stops at its first read of
    [provinceBoundaryLayer] (or earlier, when there is no map yet): the
    selection, the document and the list of pending requests are as
    before. *)
Lemma resetMap_stops (h : host) (s : state) :
  undeclared s ->
  exists e, outcome_of (resetMap h) s = Throw e /\
            (e = ReferenceError \/ (e = TypeError /\ map s = None)) /\
            selectedLocation (exec (resetMap h) s) = selectedLocation s /\
            document (exec (resetMap h) s) = document s /\
            pending (exec (resetMap h) s) = pending s /\
            undeclared (exec (resetMap h) s).
Proof.
  intros Hu.
  assert (H0 : untouched_by_reset (selectedLocation s) (document s) (pending s)
                 (has_map s) s) by (repeat split; auto; apply Hu).
  pose proof (resetMap_triple h _ _ _ _ s H0) as H.
  unfold outcome_of, exec. destruct (resetMap h s) as [[[]|e] s']; [contradiction|].
  destruct H as [He (Hu' & Hsel & Hdoc & Hpen & Hmap)].
  exists e. cbn. repeat split; auto; try apply Hu'.
  destruct He as [He|[He Hm]]; [now left|right]. split; [exact He|].
  unfold has_map in Hmap. rewrite Hm in Hmap. destruct (map s); [discriminate | reflexivity].
Qed.

Lemma undeclared_resetMap (h : host) : preserves undeclared (resetMap h).
Proof. intros s Hu. now destruct (resetMap_stops h s Hu) as (e & _ & _ & _ & _ & _ & H). Qed.

#[export] Hint Resolve undeclared_resetMap : frames.

Section Reachable.
Variable h : host.

Lemma undeclared_handler (e : event) : preserves undeclared (handler h e).
Proof.
    unfold undeclared.
    destruct e; simpl;
      try (unfold init, selectProvince, selectCity, selectDistrict, selectVillage, settle);
      fold undeclared; frame.
Qed.

  (** No state the page reaches has bound the two names. *)
Lemma undeclared_run (es : list event) (s : state) :
    undeclared s -> undeclared (run h es s).
Proof.
    revert s. induction es as [|e es IH]; simpl; intros s Hu; [exact Hu|].
    apply IH. now apply undeclared_handler.
Qed.

Lemma undeclared_reachable (d : dom) (es : list event) :
    undeclared (run h es (initial d)).
Proof. apply undeclared_run. split; reflexivity. Qed.
End Reachable.

End ResetFacts.

(** ** The map and its bounds *)

Module MapFacts.
Import Polygon App Logic Rules Overlays Frames.
Local Open Scope js_scope.

Lemma mapped_anchored (s : state) : has_map s = true -> anchored s.
Proof. now left. Qed.

Lemma anchored_modify (f : state -> state) :
  (forall s, map (f s) = map s) ->
  (forall s sl, slot_get sl (f s) = slot_get sl s) ->
  preserves anchored (modify f).
Proof.
  intros Hm Hg s [H|H]; unfold exec, modify, anchored, has_map; cbn.
  - left. rewrite Hm. exact H.
  - right. intros sl. now rewrite Hg.
Qed.

Lemma anchored_on_document (f : dom -> dom) : preserves anchored (on_document f).
Proof. apply anchored_modify; untouched. Qed.

Lemma anchored_await (t : task) : preserves anchored (await t).
Proof. apply anchored_modify; untouched. Qed.

Lemma anchored_new_layer (sh : overlay) : preserves anchored (new_layer sh).
Proof.
  intros s [H|H]; unfold exec, new_layer, anchored, has_map; cbn; [now left | right].
  intros sl. now rewrite slot_get_set_next.
Qed.

Lemma anchored_unset (sl : slot) : preserves anchored (modify (slot_set sl None)).
Proof.
  intros s [H|H]; unfold exec, modify, anchored, has_map; cbn.
  - left. now destruct sl.
  - right. intros sl'.
    destruct sl, sl'; first [ reflexivity | with_slot H ].
Qed.

Lemma anchored_map_setView (h : host) (c : jsnum * jsnum) (z : Z) :
  preserves anchored (map_setView h c z).
Proof.
  intros s H. unfold exec, map_setView. destruct (map s); [now left | exact H].
Qed.

Lemma anchored_map_removeLayer (l : layer) : preserves anchored (map_removeLayer l).
Proof.
  intros s H. unfold exec, map_removeLayer. destruct (map s); [now left | exact H].
Qed.

Lemma anchored_init (h : host) : preserves anchored (init h).
Proof.
  intros s H. unfold exec, init, bind, L_map, map_setMaxBounds.
  destruct (map s) eqn:Hm; [exact H | now left].
Qed.

(** Once the layer is on the map there is a map, whatever follows. *)
Lemma anchored_addTo {A : Type} (l : layer) (k : layer -> M A) :
  (forall a, preserves (fun s => has_map s = true) (k a)) ->
  preserves anchored (bind (addTo_map l) k).
Proof.
  intros Hk s H. rewrite exec_bind. unfold addTo_map.
  destruct (map s) as [m|] eqn:Hm; [|exact H].
  left. now apply Hk.
Qed.

#[export] Hint Resolve anchored_on_document anchored_await anchored_new_layer
  anchored_map_setView anchored_map_removeLayer anchored_init : frames.
#[export] Hint Extern 1 (preserves anchored (modify _)) =>
  solve [ apply anchored_modify; untouched | with_slot anchored_unset ] : frames.

Ltac anchored_step :=
  lazymatch goal with
  | |- preserves anchored (bind (addTo_map _) _) =>
      apply anchored_addTo; intro; unfold has_map; solve [ frame ]
  | |- preserves anchored _ =>
      first [ solve [ eauto 2 with frames ] | frame_rule ]
  end.

Ltac anchor := repeat anchored_step.

Section Reachable.
Variable h : host.

Lemma anchored_handler (e : event) : preserves anchored (handler h e).
Proof.
  destruct e; simpl;
    try (unfold selectProvince, selectCity, selectDistrict, selectVillage, settle,
           resetMap, read);
    anchor.
Qed.

Lemma anchored_run (es : list event) (s : state) :
  anchored s -> anchored (run h es s).
Proof.
  revert s. induction es as [|e es IH]; simpl; intros s Hs; [exact Hs|].
  apply IH. now apply anchored_handler.
Qed.

Lemma anchored_reachable (d : dom) (es : list event) :
  anchored (run h es (initial d)).
Proof. apply anchored_run. right. intros []; reflexivity. Qed.

Lemma mapped_handler (e : event) :
  preserves (fun s => has_map s = true) (handler h e).
Proof.
  destruct e; simpl;
    try (unfold init, selectProvince, selectCity, selectDistrict, selectVillage, settle,
           resetMap, read);
    unfold has_map; frame.
Qed.

Lemma mapped_run (es : list event) (s : state) :
  has_map s = true -> has_map (run h es s) = true.
Proof.
  revert s. induction es as [|e es IH]; simpl; intros s Hs; [exact Hs|].
  apply IH. now apply (mapped_handler e).
Qed.

(** The bounds of the map are those given by [init]. *)
Lemma bounds_init : preserves (has_bounds INDONESIA_BOUNDS) (init h).
Proof.
  intros s H. unfold exec, init, bind, L_map, map_setMaxBounds, has_bounds in *.
  destruct (map s) eqn:Hm; cbn; [now rewrite Hm | reflexivity].
Qed.

Lemma bounds_handler (e : event) :
  preserves (has_bounds INDONESIA_BOUNDS) (handler h e).
Proof.
  destruct e; simpl; [apply bounds_init|..];
    try (unfold selectProvince, selectCity, selectDistrict, selectVillage, settle,
           resetMap, read);
    frame.
Qed.

Lemma bounds_run (es : list event) (s : state) :
  has_bounds INDONESIA_BOUNDS s -> has_bounds INDONESIA_BOUNDS (run h es s).
Proof.
  revert s. induction es as [|e es IH]; simpl; intros s Hs; [exact Hs|].
  apply IH. now apply bounds_handler.
Qed.

Lemma bounds_reachable (d : dom) (es : list event) :
  has_bounds INDONESIA_BOUNDS (run h es (initial d)).
Proof. apply bounds_run. exact I. Qed.

Lemma bounds_of (d : dom) (es : list event) (m : map_state) :
  map (run h es (initial d)) = Some m -> maxBounds m = Some INDONESIA_BOUNDS.
Proof.
  intros Hm. pose proof (bounds_reachable d es) as H. unfold has_bounds in H.
  now rewrite Hm in H.
Qed.

End Reachable.

End MapFacts.

(** ** Counting the layers on the map *)

Module Counting.
Import Polygon App Logic Rules Overlays Frames.
Local Open Scope js_scope.

Lemma is_marker_in_slot (lvl : level) (l : layer) :
  is_marker lvl l = in_slot (marker_slot lvl) l.
Proof.
  unfold is_marker, in_slot. destruct (shape l) as [lvl' ? ? ?|lvl' ?];
    destruct lvl, lvl'; reflexivity.
Qed.

Lemma live_markers_slot (lvl : level) (s : state) :
  live_markers lvl s = filter (in_slot (marker_slot lvl)) (live_layers s).
Proof. apply filter_ext. intros l. apply is_marker_in_slot. Qed.

Lemma same_nodup_short {A : Type} (x : A) (l : list A) :
  NoDup l -> (forall y, In y l -> y = x) -> (List.length l <= 1)%nat.
Proof.
  intros Hnd Hall. destruct l as [|a [|b l]]; simpl; try lia.
  assert (a = x) by (apply Hall; simpl; auto).
  assert (b = x) by (apply Hall; simpl; auto).
  subst. inversion Hnd as [|? ? Hin _]; subst. exfalso. apply Hin. now left.
Qed.

Lemma same_nodup_single {A : Type} (x : A) (l : list A) :
  NoDup l -> (forall y, In y l -> y = x) -> In x l -> l = [x].
Proof.
  intros Hnd Hall Hin. pose proof (same_nodup_short x l Hnd Hall) as Hlen.
  destruct l as [|a [|b l]]; simpl in *; try lia; try contradiction.
  destruct Hin as [->|[]]. reflexivity.
Qed.

Section Invariant.
Variable s : state.
Hypothesis HI : Inv s.

Lemma NoDup_live : NoDup (live_layers s).
Proof. apply NoDup_map_inv with (f := lid). apply (live_nodup s HI). Qed.

Lemma live_in_slot_held (sl : slot) (l : layer) :
    In l (filter (in_slot sl) (live_layers s)) -> slot_get sl s = Some l.
Proof.
    intros Hin. apply filter_In in Hin as [Hin Hs]. apply in_slot_iff in Hs.
    pose proof (live_owned s HI l Hin) as Ho. unfold owned in Ho. now rewrite Hs in Ho.
Qed.

  (** At most one layer of each kind is on the map. *)
Lemma slot_at_most_one (sl : slot) :
    (List.length (filter (in_slot sl) (live_layers s)) <= 1)%nat.
Proof.
    destruct (slot_get sl s) as [l0|] eqn:Hg.
    - apply same_nodup_short with (x := l0).
      + apply NoDup_filter, NoDup_live.
      + intros y Hy. apply live_in_slot_held in Hy. congruence.
    - destruct (filter (in_slot sl) (live_layers s)) as [|y ys] eqn:Hf; [simpl; lia|].
      assert (Hy : In y (filter (in_slot sl) (live_layers s))) by (rewrite Hf; now left).
      apply live_in_slot_held in Hy. congruence.
Qed.

  (** The layer a variable holds, when on the map, is the only one of its kind. *)
Lemma slot_exactly_one (sl : slot) (l : layer) :
    slot_get sl s = Some l -> In l (live_layers s) ->
    filter (in_slot sl) (live_layers s) = [l].
Proof.
    intros Hg Hin. apply same_nodup_single.
    - apply NoDup_filter, NoDup_live.
    - intros y Hy. apply live_in_slot_held in Hy. congruence.
    - apply filter_In. split; [exact Hin|]. apply (held_kind s HI sl l Hg).
Qed.

Lemma markers_at_most_one (lvl : level) :
    (List.length (live_markers lvl s) <= 1)%nat.
Proof. rewrite live_markers_slot. apply slot_at_most_one. Qed.

Lemma boundaries_at_most_one (lvl : level) :
    (List.length (live_boundaries lvl s) <= 1)%nat.
Proof.
    unfold live_boundaries.
    destruct lvl.
    - rewrite filter_ext with (g := in_slot SProvinceBoundary);
        [apply slot_at_most_one|].
      intros l. unfold is_boundary, in_slot.
      destruct (shape l) as [[] ? ? ?|[] ?]; reflexivity.
    - rewrite filter_ext with (g := in_slot SCityBoundary);
        [apply slot_at_most_one|].
      intros l. unfold is_boundary, in_slot.
      destruct (shape l) as [[] ? ? ?|[] ?]; reflexivity.
    - destruct (filter (is_boundary District) (live_layers s)) as [|y ys] eqn:Hf;
        [simpl; lia|].
      assert (Hy : In y (filter (is_boundary District) (live_layers s)))
        by (rewrite Hf; now left).
      apply filter_In in Hy as [Hin Hb]. pose proof (live_owned s HI y Hin) as Ho.
      unfold owned in Ho. unfold is_boundary in Hb.
      destruct (shape y) as [? ? ? ?|[] ?]; try discriminate. contradiction.
    - destruct (filter (is_boundary Village) (live_layers s)) as [|y ys] eqn:Hf;
        [simpl; lia|].
      assert (Hy : In y (filter (is_boundary Village) (live_layers s)))
        by (rewrite Hf; now left).
      apply filter_In in Hy as [Hin Hb]. pose proof (live_owned s HI y Hin) as Ho.
      unfold owned in Ho. unfold is_boundary in Hb.
      destruct (shape y) as [? ? ? ?|[] ?]; try discriminate. contradiction.
Qed.
End Invariant.

(** *** A marker stays on the map while the boundary is redrawn *)

Lemma removal_keeps (l : layer) (sl0 : slot) (a : option layer) :
  in_slot sl0 l = false ->
  hoare (fun s => (Inv s /\ In l (live_layers s)) /\ slot_get sl0 s = a)
        (remove_if_any a)
        (fun s => In l (live_layers s)).
Proof.
  intros Hk s [[HI Hin] Hg]. unfold exec, remove_if_any. destruct a as [l0|]; [|exact Hin].
  unfold map_removeLayer. destruct (map s) as [m|] eqn:Hm; [|exact Hin].
  cbn. unfold live_layers in *. rewrite Hm in *. cbn. apply In_without.
  split; [exact Hin|]. intros Hid.
  assert (Hin' : In l (live_layers s)) by (unfold live_layers; now rewrite Hm).
  pose proof (held_ident s HI sl0 l0 l Hg Hin' Hid) as ->.
  pose proof (held_kind s HI sl0 l0 Hg). congruence.
Qed.

Section Tails.
Variable h : host.

Lemma live_showProvinceBoundary (l : layer) (g : value) :
    in_slot SProvinceBoundary l = false ->
    hoare (fun s => Inv s /\ In l (live_layers s)) (showProvinceBoundary h g)
          (fun s => In l (live_layers s)).
Proof.
    intros Hk. unfold showProvinceBoundary.
    apply hoare_try with (R := fun s => In l (live_layers s));
      [|auto|apply preserves_ret].
    destruct (truthy g); [|intros s Hs; apply Hs].
    apply hoare_bind with (R := fun s => Inv s /\ In l (live_layers s));
      [apply preserves_lift | tauto | intros path].
    destruct (truthy path); [|intros s Hs; apply Hs].
    apply hoare_gets_bind with (f := slot_get SProvinceBoundary). intros a.
    apply hoare_bind with (R := fun s => In l (live_layers s));
      [now apply removal_keeps | auto | intros _].
    fold (preserves (fun s => In l (live_layers s))
            (match decode_path h path with
             | Some pc =>
                 polygons <- lift (polygons_of h pc);;
                 match polygons with
                 | [] => ret tt
                 | _ :: _ =>
                     l0 <- L_polygon h Province polygons;;
                     l1 <- addTo_map l0;;
                     modify (set_provinceBoundariesLayer (Some l1))
                 end
             | None => ret tt
             end)).
    frame.
Qed.

Lemma live_showCityBoundary (l : layer) (g : value) :
    in_slot SCityBoundary l = false ->
    hoare (fun s => Inv s /\ In l (live_layers s)) (showCityBoundary h g)
          (fun s => In l (live_layers s)).
Proof.
    intros Hk. unfold showCityBoundary.
    apply hoare_try with (R := fun s => In l (live_layers s));
      [|auto|apply preserves_ret].
    destruct (truthy g); [|intros s Hs; apply Hs].
    apply hoare_bind with (R := fun s => Inv s /\ In l (live_layers s));
      [apply preserves_lift | tauto | intros path].
    destruct (truthy path); [|intros s Hs; apply Hs].
    apply hoare_gets_bind with (f := slot_get SCityBoundary). intros a.
    apply hoare_bind with (R := fun s => In l (live_layers s));
      [now apply removal_keeps | auto | intros _].
    fold (preserves (fun s => In l (live_layers s))
            (match decode_path h path with
             | Some pc =>
                 polygons <- lift (polygons_of h pc);;
                 match polygons with
                 | [] => ret tt
                 | _ :: _ =>
                     l0 <- L_polygon h City polygons;;
                     l1 <- addTo_map l0;;
                     modify (set_cityBoundariesLayer (Some l1))
                 end
             | None => ret tt
             end)).
    frame.
Qed.
End Tails.

End Counting.

(** ** After a successful placement *)

Module Placement.
Import Polygon App Logic Rules Overlays Frames Counting.
Local Open Scope js_scope.

Lemma exec_seq (m k : M unit) (s : state) :
  returns m -> exec (m;; k) s = exec k (exec m s).
Proof.
  intros Hm. destruct (Hm s) as [[] Ha]. unfold exec at 1.
  now rewrite (bind_returns m (fun _ => k) s tt Ha).
Qed.

Lemma hoare_and {A : Type} (P Q1 Q2 : state -> Prop) (m : M A) :
  hoare P m Q1 -> hoare P m Q2 -> hoare P m (fun s => Q1 s /\ Q2 s).
Proof. intros H1 H2 s Hs. split; [now apply H1 | now apply H2]. Qed.

Section Placement.
Variable h : host.

Lemma info_shown (data : value) (s : state) (x : display) (y : panel) :
    province_info (document s) = Some x ->
    province_info_content (document s) = Some y ->
    province_info_content (document (exec (showProvinceInfo data) s))
      = Some (PanelInfo data).
Proof.
    intros Hx Hy. unfold exec, showProvinceInfo, bind, gets, on_document, modify.
    cbn. rewrite Hx, Hy. cbn. now rewrite Hy.
Qed.

Lemma content_showProvinceBoundary (g : value) c :
    preserves (fun s => province_info_content (document s) = c)
              (showProvinceBoundary h g).
Proof. frame. Qed.

Lemma content_populateCitySelector (code : string) c :
    preserves (fun s => province_info_content (document s) = c)
              (populateCitySelector code).
Proof. frame. Qed.

Lemma held_province_tail (data : value) (code : string) x :
    preserves (fun s => currentProvinceLayer s = x)
      (showProvinceInfo data;; showProvinceBoundary h data;; populateCitySelector code).
Proof. frame. Qed.

Lemma held_city_tail (data : value) (code : string) x :
    preserves (fun s => currentCityLayer s = x)
      (showCityBoundary h data;; populateDistrictSelector code).
Proof. frame. Qed.

Lemma held_district_tail (code : string) x :
    preserves (fun s => currentDistrictLayer s = x) (populateVillageSelector code).
Proof. frame. Qed.

Lemma viewport_province_tail (data : value) (code : string) v :
    preserves (fun s => viewport s = v)
      (showProvinceInfo data;; showProvinceBoundary h data;; populateCitySelector code).
Proof. frame. Qed.

Lemma viewport_city_tail (data : value) (code : string) v :
    preserves (fun s => viewport s = v)
      (showCityBoundary h data;; populateDistrictSelector code).
Proof. frame. Qed.

Lemma selection_province_tail (data : value) (code : string) sel :
    preserves (fun s => selectedLocation s = sel)
      (showProvinceInfo data;; showProvinceBoundary h data;; populateCitySelector code).
Proof. frame. Qed.

Lemma Inv_province_tail (data : value) (code : string) :
    preserves Inv
      (showProvinceInfo data;; showProvinceBoundary h data;; populateCitySelector code).
Proof.
    apply preserves_bind; [inv | intros _].
    apply preserves_bind; [apply Inv_showProvinceBoundary | intros _]. inv.
Qed.

Lemma Inv_city_tail (data : value) (code : string) :
    preserves Inv (showCityBoundary h data;; populateDistrictSelector code).
Proof. apply preserves_bind; [apply Inv_showCityBoundary | intros _]. inv. Qed.

Lemma live_province_tail (l : layer) (data : value) (code : string) :
    in_slot SProvinceBoundary l = false ->
    hoare (fun s => Inv s /\ In l (live_layers s))
      (showProvinceInfo data;; showProvinceBoundary h data;; populateCitySelector code)
      (fun s => In l (live_layers s)).
Proof.
    intros Hk.
    apply hoare_bind with (R := fun s => Inv s /\ In l (live_layers s));
      [apply hoare_and | tauto | intros _].
    - apply hoare_weaken with (P' := Inv) (Q' := Inv); [|tauto|auto].
      change (preserves Inv (showProvinceInfo data)). inv.
    - apply hoare_weaken with (P' := fun s => In l (live_layers s))
                              (Q' := fun s => In l (live_layers s)); [|tauto|auto].
      change (preserves (fun s => In l (live_layers s)) (showProvinceInfo data)). frame.
    - apply hoare_bind with (R := fun s => In l (live_layers s));
        [now apply live_showProvinceBoundary | auto | intros _].
      change (preserves (fun s => In l (live_layers s)) (populateCitySelector code)).
      frame.
Qed.

Lemma live_city_tail (l : layer) (data : value) (code : string) :
    in_slot SCityBoundary l = false ->
    hoare (fun s => Inv s /\ In l (live_layers s))
      (showCityBoundary h data;; populateDistrictSelector code)
      (fun s => In l (live_layers s)).
Proof.
    intros Hk.
    apply hoare_bind with (R := fun s => In l (live_layers s));
      [now apply live_showCityBoundary | auto | intros _].
    change (preserves (fun s => In l (live_layers s)) (populateDistrictSelector code)).
    frame.
Qed.

  (** A province response with a usable coordinate: its marker is the one
      province marker on the map and the view is on it at zoom 8. *)
Lemma province_placed (code : string) (o : outcome) (data : value)
      (lat lng : jsnum) (s : state) (m : map_state) :
    Inv s -> map s = Some m ->
    geo_of h o = Some (data, lat, lng) ->
    is_nan lat = false -> is_nan lng = false -> latLng_ok h lat lng = true ->
    let s' := exec (resume_ProvinceGeo h code o) s in
    let l := {| lid := next_lid s; shape := Marker Province lat lng data |} in
    viewport s' = Some (limited h (maxBounds m) (lat, lng) 8, 8%Z) /\
    currentProvinceLayer s' = Some l /\
    live_markers Province s' = [l] /\
    Inv s' /\ selectedLocation s' = selectedLocation s /\
    (forall x y, province_info (document s) = Some x ->
                 province_info_content (document s) = Some y ->
                 province_info_content (document s') = Some (PanelInfo data)).
Proof.
    intros HI Hm Hg Hlat Hlng Hok s' l. subst s'.
    rewrite (resume_ProvinceGeo_placed h code o data lat lng s m) by assumption.
    set (s1 := placed SProvince (Marker Province lat lng data)
                 (limited h (maxBounds m) (lat, lng) 8) 8 m s).
    assert (HI1 : Inv s1) by (now apply Inv_placed).
    assert (Hheld : currentProvinceLayer s1 = Some l)
      by (apply (slot_placed SProvince)).
    assert (Hlive : In l (live_layers s1)) by (apply live_placed).
    pose proof (Inv_province_tail data code s1 HI1) as HI'.
    pose proof (held_province_tail data code _ s1 Hheld) as Hheld'.
    pose proof (live_province_tail l data code eq_refl s1 (conj HI1 Hlive)) as Hlive'.
    split; [|split; [|split; [|split; [|split]]]].
    - now apply (viewport_province_tail data code).
    - exact Hheld'.
    - rewrite live_markers_slot. now apply slot_exactly_one.
    - exact HI'.
    - apply (selection_province_tail data code). apply (selection_placed SProvince).
    - intros x y Hx Hy.
      rewrite exec_seq by apply returns_showProvinceInfo.
      rewrite exec_seq by apply returns_showProvinceBoundary.
      apply content_populateCitySelector, content_showProvinceBoundary.
      apply (info_shown data s1 x y); unfold s1; now rewrite document_placed.
Qed.

Lemma city_placed (code : string) (o : outcome) (data : value)
      (lat lng : jsnum) (s : state) (m : map_state) :
    Inv s -> map s = Some m ->
    geo_of h o = Some (data, lat, lng) ->
    is_nan lat = false -> is_nan lng = false -> latLng_ok h lat lng = true ->
    let s' := exec (resume_CityGeo h code o) s in
    let l := {| lid := next_lid s; shape := Marker City lat lng data |} in
    viewport s' = Some (limited h (maxBounds m) (lat, lng) 10, 10%Z) /\
    currentCityLayer s' = Some l /\
    live_markers City s' = [l] /\
    Inv s'.
Proof.
    intros HI Hm Hg Hlat Hlng Hok s' l. subst s'.
    rewrite (resume_CityGeo_placed h code o data lat lng s m) by assumption.
    set (s1 := placed SCity (Marker City lat lng data)
                 (limited h (maxBounds m) (lat, lng) 10) 10 m s).
    assert (HI1 : Inv s1) by (now apply Inv_placed).
    assert (Hheld : currentCityLayer s1 = Some l) by (apply (slot_placed SCity)).
    assert (Hlive : In l (live_layers s1)) by (apply live_placed).
    pose proof (Inv_city_tail data code s1 HI1) as HI'.
    pose proof (held_city_tail data code _ s1 Hheld) as Hheld'.
    pose proof (live_city_tail l data code eq_refl s1 (conj HI1 Hlive)) as Hlive'.
    split; [|split; [|split]].
    - now apply (viewport_city_tail data code).
    - exact Hheld'.
    - rewrite live_markers_slot. now apply slot_exactly_one.
    - exact HI'.
Qed.
Lemma Inv_district_tail (code : string) : preserves Inv (populateVillageSelector code).
Proof. inv. Qed.

Lemma live_district_tail (l : layer) (code : string) :
  preserves (fun s => In l (live_layers s)) (populateVillageSelector code).
Proof. frame. Qed.

Lemma district_placed (code : string) (detail : value) (o : outcome) (r1 r2 : Q)
    (data : value) (cityLat cityLng : jsnum) (s : state) (m : map_state) :
  Inv s -> map s = Some m ->
  geo_of h o = Some (data, cityLat, cityLng) ->
  let lat := num_add h cityLat (jitter h r1 (1 # 10)) in
  let lng := num_add h cityLng (jitter h r2 (1 # 10)) in
  latLng_ok h lat lng = true ->
  let s' := exec (resume_DistrictCityGeo h code detail o r1 r2) s in
  let l := {| lid := next_lid s; shape := Marker District lat lng detail |} in
  currentDistrictLayer s' = Some l /\ live_markers District s' = [l] /\ Inv s' /\
  viewport s' = Some (limited h (maxBounds m) (lat, lng) 12, 12%Z).
Proof.
  intros HI Hm Hg lat lng Hok s' l. subst s'.
  rewrite (resume_DistrictCityGeo_placed h code detail o r1 r2 data cityLat cityLng s m)
    by assumption.
  fold lat lng.
  set (s1 := placed SDistrict (Marker District lat lng detail)
               (limited h (maxBounds m) (lat, lng) 12) 12 m s).
  assert (HI1 : Inv s1) by (now apply Inv_placed).
  assert (Hheld : currentDistrictLayer s1 = Some l) by (apply (slot_placed SDistrict)).
  assert (Hlive : In l (live_layers s1)) by (apply live_placed).
  pose proof (Inv_district_tail code s1 HI1) as HI'.
  pose proof (held_district_tail code _ s1 Hheld) as Hheld'.
  pose proof (live_district_tail l code s1 Hlive) as Hlive'.
  split; [exact Hheld'|]. split; [|split; [exact HI'|]].
  - rewrite live_markers_slot. now apply slot_exactly_one.
  - now apply (viewport_populateVillageSelector code).
Qed.

Lemma village_placed (code : string) (detail : value) (o : outcome) (r1 r2 : Q)
    (data : value) (cityLat cityLng : jsnum) (s : state) (m : map_state) :
  Inv s -> map s = Some m ->
  geo_of h o = Some (data, cityLat, cityLng) ->
  let lat := num_add h cityLat (jitter h r1 (2 # 10)) in
  let lng := num_add h cityLng (jitter h r2 (2 # 10)) in
  latLng_ok h lat lng = true ->
  let s' := exec (resume_VillageCityGeo h code detail o r1 r2) s in
  let l := {| lid := next_lid s; shape := Marker Village lat lng detail |} in
  currentVillageLayer s' = Some l /\ live_markers Village s' = [l] /\ Inv s' /\
  viewport s' = Some (limited h (maxBounds m) (lat, lng) 14, 14%Z).
Proof.
  intros HI Hm Hg lat lng Hok s' l. subst s'.
  rewrite (resume_VillageCityGeo_placed h code detail o r1 r2 data cityLat cityLng s m)
    by assumption.
  fold lat lng.
  set (s1 := placed SVillage (Marker Village lat lng detail)
               (limited h (maxBounds m) (lat, lng) 14) 14 m s).
  assert (HI1 : Inv s1) by (now apply Inv_placed).
  assert (Hheld : currentVillageLayer s1 = Some l) by (apply (slot_placed SVillage)).
  assert (Hlive : In l (live_layers s1)) by (apply live_placed).
  split; [exact Hheld|]. split; [|split; [exact HI1 | reflexivity]].
  rewrite live_markers_slot. now apply slot_exactly_one.
Qed.

(** *** Boundaries *)

Lemma renderable_inv (path : value) (r : ring) (rs : list ring) :
  renderable h path = r :: rs ->
  exists pc, decode_path h path = Some pc /\ polygons_of h pc = Ok (r :: rs).
Proof.
  unfold renderable. destruct (decode_path h path) as [pc|]; [|discriminate].
  destruct (polygons_of h pc) as [rs'|e] eqn:Hpo; [|discriminate].
  intros ->. exists pc. split; [reflexivity | exact Hpo].
Qed.

Lemma truthy_has_path (g path : value) (r : ring) (rs : list ring) :
  get_prop "path" g = Ok path -> renderable h path = r :: rs -> truthy g = true.
Proof.
  intros Hp Hr. destruct g as [| |b|n|t|elems|fields]; try discriminate;
    try reflexivity; simpl in Hp; injection Hp as <-; discriminate.
Qed.

Lemma bind_gets_eq {A B : Type} (f : state -> A) (k : A -> M B) (s : state) :
  bind (gets f) k s = k (f s) s.
Proof. reflexivity. Qed.

Lemma bind_ext {A B : Type} (m : M A) (k1 k2 : A -> M B) (s : state) :
  (forall a s', k1 a s' = k2 a s') -> bind m k1 s = bind m k2 s.
Proof.
  intros Hk. unfold bind. destruct (m s) as [[a|e] s']; [apply Hk | reflexivity].
Qed.

Lemma boundary_success (sl : slot) (lvl : level) (g path : value) (rings : list ring)
    (s : state) (m : map_state) :
  map s = Some m ->
  exec (try_catch
          (cur <- gets (slot_get sl);;
           remove_if_any cur;;
           l <- new_layer (Boundary lvl rings);;
           l <- addTo_map l;;
           modify (slot_set sl (Some l)))
          (ret tt)) s
  = placed sl (Boundary lvl rings) (center m) (zoom m) m s.
Proof.
  intros Hm.
  unfold exec, try_catch, bind, gets, remove_if_any, new_layer, addTo_map, modify,
    map_removeLayer, ret, placed.
  destruct sl; cbn [slot_get slot_set];
    match goal with
    | |- context [match ?v s with Some l0 => without l0 _ | None => _ end] =>
        destruct (v s)
    end; cbn; rewrite Hm; cbn; reflexivity.
Qed.

Lemma showProvinceBoundary_placed (g path : value) (r : ring) (rs : list ring)
    (s : state) (m : map_state) :
  map s = Some m ->
  get_prop "path" g = Ok path -> truthy path = true ->
  renderable h path = r :: rs ->
  forallb (forallb (fun p => latLng_ok h (fst p) (snd p))) (r :: rs) = true ->
  exec (showProvinceBoundary h g) s
  = placed SProvinceBoundary (Boundary Province (r :: rs)) (center m) (zoom m) m s.
Proof.
  intros Hm Hp Ht Hr Hok.
  pose proof (truthy_has_path g path r rs Hp Hr) as Hg.
  destruct (renderable_inv path r rs Hr) as (pc & Hd & Hpo).
  rewrite <- (boundary_success SProvinceBoundary Province g path (r :: rs) s m Hm).
  unfold showProvinceBoundary, exec. f_equal. apply try_catch_ext.
  rewrite Hg, Hp, bind_lift_ok, Ht. cbn [slot_get].
  rewrite !bind_gets_eq. apply bind_ext. intros _ s1.
  rewrite Hd, Hpo, bind_lift_ok. unfold L_polygon. now rewrite Hok.
Qed.

Lemma showCityBoundary_placed (g path : value) (r : ring) (rs : list ring)
    (s : state) (m : map_state) :
  map s = Some m ->
  get_prop "path" g = Ok path -> truthy path = true ->
  renderable h path = r :: rs ->
  forallb (forallb (fun p => latLng_ok h (fst p) (snd p))) (r :: rs) = true ->
  exec (showCityBoundary h g) s
  = placed SCityBoundary (Boundary City (r :: rs)) (center m) (zoom m) m s.
Proof.
  intros Hm Hp Ht Hr Hok.
  pose proof (truthy_has_path g path r rs Hp Hr) as Hg.
  destruct (renderable_inv path r rs Hr) as (pc & Hd & Hpo).
  rewrite <- (boundary_success SCityBoundary City g path (r :: rs) s m Hm).
  unfold showCityBoundary, exec. f_equal. apply try_catch_ext.
  rewrite Hg, Hp, bind_lift_ok, Ht. cbn [slot_get].
  rewrite !bind_gets_eq. apply bind_ext. intros _ s1.
  rewrite Hd, Hpo, bind_lift_ok. unfold L_polygon. now rewrite Hok.
Qed.

Lemma live_boundaries_province (s : state) :
  live_boundaries Province s = filter (in_slot SProvinceBoundary) (live_layers s).
Proof.
  apply filter_ext. intros l. unfold is_boundary, in_slot.
  destruct (shape l) as [[] ? ? ?|[] ?]; reflexivity.
Qed.

Lemma live_boundaries_city (s : state) :
  live_boundaries City s = filter (in_slot SCityBoundary) (live_layers s).
Proof.
  apply filter_ext. intros l. unfold is_boundary, in_slot.
  destruct (shape l) as [[] ? ? ?|[] ?]; reflexivity.
Qed.

(** A boundary that is drawn is the one boundary of its level on the map. *)
Lemma boundary_placed (g path : value) (r : ring) (rs : list ring)
    (s : state) (m : map_state) :
  Inv s -> map s = Some m ->
  get_prop "path" g = Ok path -> truthy path = true ->
  renderable h path = r :: rs ->
  forallb (forallb (fun p => latLng_ok h (fst p) (snd p))) (r :: rs) = true ->
  live_boundaries Province (exec (showProvinceBoundary h g) s)
    = [{| lid := next_lid s; shape := Boundary Province (r :: rs) |}] /\
  live_boundaries City (exec (showCityBoundary h g) s)
    = [{| lid := next_lid s; shape := Boundary City (r :: rs) |}].
Proof.
  intros HI Hm Hp Ht Hr Hok. split.
  - rewrite (showProvinceBoundary_placed g path r rs s m) by assumption.
    rewrite live_boundaries_province. apply slot_exactly_one.
    + now apply Inv_placed.
    + apply (slot_placed SProvinceBoundary).
    + apply live_placed.
  - rewrite (showCityBoundary_placed g path r rs s m) by assumption.
    rewrite live_boundaries_city. apply slot_exactly_one.
    + now apply Inv_placed.
    + apply (slot_placed SCityBoundary).
    + apply live_placed.
Qed.
End Placement.

End Placement.

(** ** Rounding to doubles *)

Module Rounding.
Import Polygon App Logic.

(** *** The rounding of the reference browser *)

Lemma nearest_error (y : Q) : Qabs (inject_Z (Reference.nearest y) - y) <= 1 # 2.
Proof.
  destruct y as [n d]. unfold Reference.nearest. cbn [Qnum Qden].
  pose proof (Z.div_mod n (Zpos d) ltac:(discriminate)) as Hdm.
  pose proof (Z.mod_pos_bound n (Zpos d) ltac:(reflexivity)) as Hr.
  set (q := (n / Zpos d)%Z) in *. set (r := (n mod Zpos d)%Z) in *.
  apply Qabs_Qle_condition.
  destruct (Z.compare_spec (2 * r) (Zpos d)) as [He|Hl|Hg];
    [destruct (Z.even q)| |];
    unfold Qle, Qminus, Qplus, Qopp, inject_Z; cbn [Qnum Qden]; split; nia.
Qed.

Lemma two_nonzero : ~ 2 == 0.
Proof. discriminate. Qed.

Lemma pow2_pos (z : Z) : 0 < 2 ^ z.
Proof. now apply Qpower_0_lt. Qed.

Lemma exponent_le (x : Q) : ~ x == 0 -> 2 ^ Reference.exponent x <= Qabs x.
Proof.
  intros Hx. unfold Reference.exponent.
  set (L := Z.log2 (Z.abs (Qnum x))). set (D := Z.log2 (Zpos (Qden x))).
  destruct (Qle_bool (2 ^ (L - D)) (Qabs x)) eqn:E; [now apply Qle_bool_iff|].
  destruct x as [n d]. cbn [Qnum Qden] in *.
  assert (Hn : (0 < Z.abs n)%Z).
  { destruct n; [exfalso; apply Hx; reflexivity | reflexivity | reflexivity]. }
  destruct (Z.log2_spec (Z.abs n) Hn) as [HL _]. fold L in HL.
  destruct (Z.log2_spec (Zpos d) ltac:(reflexivity)) as [_ HD]. fold D in HD.
  assert (HL0 : (0 <= L)%Z) by apply Z.log2_nonneg.
  assert (HD0 : (0 <= D)%Z) by apply Z.log2_nonneg.
  change (Qabs (n # d)) with (Z.abs n # d). rewrite (Qmake_Qdiv (Z.abs n) d).
  apply Qle_shift_div_l; [reflexivity|].
  apply Qle_trans with (2 ^ (L - D - 1) * 2 ^ (D + 1)).
  - apply Qmult_le_l; [apply pow2_pos|].
    change 2 with (inject_Z 2). rewrite <- Zpower_Qpower by lia.
    rewrite <- Zle_Qle. rewrite <- Z.add_1_r in HD. lia.
  - rewrite <- Qpower_plus by apply two_nonzero.
    replace (L - D - 1 + (D + 1))%Z with L by lia.
    change 2 with (inject_Z 2). rewrite <- Zpower_Qpower by lia.
    now rewrite <- Zle_Qle.
Qed.

(** The double that [Reference.double] gives is within half a unit of the
    last place, or within [tiny] below the normal range. *)
Lemma double_error (x : Q) :
  Qabs (Reference.double x - x) <= ulp * Qabs x + tiny.
Proof.
  unfold Reference.double. destruct (Qeq_bool x 0) eqn:E.
  - apply Qeq_bool_iff in E. rewrite E. vm_compute. discriminate.
  - assert (Hx : ~ x == 0) by (intros H; apply Qeq_bool_iff in H; congruence).
    set (p := Z.max (Reference.exponent x - 52) (-1074)).
    rewrite Qred_correct.
    set (y := x * 2 ^ (- p)).
    assert (Hy : x == y * 2 ^ p).
    { unfold y. rewrite <- Qmult_assoc, <- Qpower_plus by apply two_nonzero.
      replace (- p + p)%Z with 0%Z by lia. cbn. ring. }
    assert (Hd : inject_Z (Reference.nearest y) * 2 ^ p - x
                 == (inject_Z (Reference.nearest y) - y) * 2 ^ p).
    { rewrite Hy at 1. ring. }
    rewrite Hd, Qabs_Qmult, (Qabs_pos (2 ^ p)) by (apply Qlt_le_weak, pow2_pos).
    apply Qle_trans with ((1 # 2) * 2 ^ p).
    { apply Qmult_le_compat_r; [apply nearest_error | apply Qlt_le_weak, pow2_pos]. }
    assert (Hu : 0 <= ulp * Qabs x).
    { apply Qmult_le_0_compat; [discriminate | apply Qabs_nonneg]. }
    assert (Ht : 0 <= tiny) by discriminate.
    destruct (Z.max_spec (Reference.exponent x - 52) (-1074)) as [[_ Hp]|[_ Hp]];
      fold p in Hp; rewrite Hp.
    + apply Qle_trans with tiny; [|lra].
      vm_compute. discriminate.
    + apply Qle_trans with (ulp * Qabs x); [|lra].
      replace (Reference.exponent x - 52)%Z with (Reference.exponent x + - 52)%Z by lia.
      rewrite Qpower_plus by apply two_nonzero.
      setoid_replace ((1 # 2) * (2 ^ Reference.exponent x * 2 ^ (-52)))
        with (ulp * 2 ^ Reference.exponent x).
      * apply Qmult_le_l; [reflexivity | now apply exponent_le].
      * setoid_replace ulp with ((1 # 2) * 2 ^ (-52)) by (vm_compute; reflexivity).
        ring.
Qed.

Lemma reference_rounds : rounds Reference.browser.
Proof. intros x _. apply double_error. Qed.


(** *** Arithmetic under a rounding *)

Lemma ulp_small : 0 < ulp /\ ulp <= 1 # 1000.
Proof. split; [reflexivity | vm_compute; discriminate]. Qed.

Lemma tiny_small : 0 < tiny /\ tiny <= ulp * (1 # 1000).
Proof. split; [reflexivity | vm_compute; discriminate]. Qed.

Lemma huge_big : 4 <= huge.
Proof. vm_compute. discriminate. Qed.

Section Rounded.
Variable h : host.
Hypothesis Hr : rounds h.

Lemma round_in (x B : Q) :
  - B <= x -> x <= B -> B <= huge ->
  x - (ulp * B + tiny) <= double h x /\ double h x <= x + (ulp * B + tiny).
Proof.
  intros Hlo Hhi HB.
  assert (Hx : Qabs x <= B) by (apply Qabs_Qle_condition; split; assumption).
  assert (Hh : Qabs x <= huge) by (eapply Qle_trans; eassumption).
  pose proof (Hr x Hh) as He.
  assert (Hu : ulp * Qabs x <= ulp * B).
  { apply Qmult_le_l; [apply ulp_small | exact Hx]. }
  apply Qabs_Qle_condition in He. destruct He as [He1 He2]. split; lra.
Qed.

(** What [(Math.random() - 0.5) * scale] yields is within [scale / 2] of
    0, up to the rounding. *)
Lemma jitter_small (r scale : Q) :
  unit_draw r -> 0 <= scale -> scale <= 1 ->
  exists off, jitter h r scale = Num off /\
              - (scale * (1 # 2) + 7 * ulp) <= off /\
              off <= scale * (1 # 2) + 7 * ulp.
Proof.
  intros [Hr0 Hr1] Hs0 Hs1.
  destruct ulp_small as [Hu0 Hu1]. destruct tiny_small as [Ht0 Ht1].
  pose proof huge_big as Hh.
  unfold jitter, num_mul, num_sub. eexists. split; [reflexivity|].
  pose proof (round_in r 1 ltac:(lra) ltac:(lra) ltac:(lra)) as [A1 A2].
  pose proof (round_in (1 # 2) 1 ltac:(lra) ltac:(lra) ltac:(lra)) as [B1 B2].
  set (r' := double h r) in *. set (f := double h (1 # 2)) in *.
  pose proof (round_in (r' - f) 1 ltac:(lra) ltac:(lra) ltac:(lra)) as [C1 C2].
  set (d := double h (r' - f)) in *.
  pose proof (round_in d 1 ltac:(lra) ltac:(lra) ltac:(lra)) as [D1 D2].
  set (d' := double h d) in *.
  pose proof (round_in scale 1 ltac:(lra) ltac:(lra) ltac:(lra)) as [E1 E2].
  set (sc := double h scale) in *.
  set (w := ulp + tiny) in *.
  assert (Hw : 0 < w /\ w <= 2 # 1000) by (unfold w; split; lra).
  assert (Hd : Qabs d' <= (1 # 2) + 4 * w).
  { apply Qabs_Qle_condition. unfold w. split; lra. }
  assert (Hsc : Qabs sc <= scale + w).
  { apply Qabs_Qle_condition. unfold w. split; lra. }
  assert (Hp : Qabs (d' * sc) <= ((1 # 2) + 4 * w) * (scale + w)).
  { rewrite Qabs_Qmult. apply Qmult_le_compat_nonneg; split;
      auto using Qabs_nonneg. }
  assert (Hq : ((1 # 2) + 4 * w) * (scale + w) <= scale * (1 # 2) + 5 * w).
  { assert (H1 : 0 <= w * (1 - scale)) by (apply Qmult_le_0_compat; lra).
    assert (H2 : 0 <= w * ((2 # 1000) - w)) by (apply Qmult_le_0_compat; lra).
    lra. }
  assert (Hp' : Qabs (d' * sc) <= scale * (1 # 2) + 5 * w) by lra.
  apply Qabs_Qle_condition in Hp'. destruct Hp' as [P1 P2].
  pose proof (round_in (d' * sc) 1 ltac:(lra) ltac:(lra) ltac:(lra)) as [F1 F2].
  unfold w in *. split; lra.
Qed.

(** [a + (Math.random() - 0.5) * scale] is within [scale / 2] of [a], up
    to the rounding. *)
Lemma jitter_near (r scale a : Q) :
  unit_draw r -> 0 <= scale -> scale <= 1 -> 2 * Qabs a + 1 <= huge ->
  within (scale * (1 # 2) + (3 * Qabs a + 14) * ulp)
    (num_add h (Num a) (jitter h r scale)) (Num a).
Proof.
  intros Hd Hs0 Hs1 Ha.
  destruct (jitter_small r scale Hd Hs0 Hs1) as (off & -> & O1 & O2).
  destruct ulp_small as [Hu0 Hu1]. destruct tiny_small as [Ht0 Ht1].
  pose proof huge_big as Hh.
  unfold within, num_add.
  pose proof (Qabs_nonneg a) as HA0.
  assert (HA : - Qabs a <= a /\ a <= Qabs a).
  { apply Qabs_Qle_condition. apply Qle_refl. }
  destruct HA as [HA1 HA2]. set (A := Qabs a) in *.
  pose proof (round_in off 1 ltac:(lra) ltac:(lra) ltac:(lra)) as [F1 F2].
  set (off' := double h off) in *.
  pose proof (round_in a A HA1 HA2 ltac:(lra)) as [G1 G2].
  set (a' := double h a) in *.
  assert (HuA : 0 <= ulp * A) by (apply Qmult_le_0_compat; lra).
  assert (HuA' : ulp * A <= (1 # 1000) * A) by (apply Qmult_le_compat_r; lra).
  pose proof (round_in (a' + off') (2 * A + 1) ltac:(lra) ltac:(lra) ltac:(lra))
    as [S1 S2].
  split; lra.
Qed.

End Rounded.

End Rounding.
(** * The testable properties of the design *)

Module Claims.
Import Polygon App Logic Rules Overlays Frames ResetFacts Counting Placement PolygonFacts.
Local Open Scope js_scope.

(** ** Polygon normalization *)

(** C7. Normalization is idempotent: a ring list whose rings all have at
    least three numeric points and are closed comes back unchanged when it
    is handed to the cleaning block again. *)
Theorem normalization_idempotent (h : host) (rs : list ring) :
  forallb normalized_ring rs = true ->
  renderable h (value_of_rings rs) = rs.
Proof.
  intros Hn. unfold renderable. cbn [decode_path value_of_rings].
  destruct rs as [|r rs]; [reflexivity|].
  change (VArr (List.map value_of_ring (r :: rs))) with (value_of_rings (r :: rs)).
  now rewrite polygons_of_normalized.
Qed.

Lemma normalization_idempotent_witness :
  forallb normalized_ring [Reference.triangle] = true /\
  renderable Reference.browser (value_of_rings [Reference.triangle])
    = [Reference.triangle].
Proof.
  split; [reflexivity|]. apply (normalization_idempotent Reference.browser).
  reflexivity.
Defined.

(** C4. A payload that holds a valid triangle but starts with a [null]
    pair: the filter keeps the pair ([isNaN(null)] is false), [parseFloat]
    turns it into NaN, and the ring that is returned has NaN coordinates and
    a first point that differs from its last. *)
Theorem null_pair_survives_cleaning (h : host) :
  polygons_of h Reference.null_first
    = Ok [[(NaN, NaN); (Num 1, Num 2); (Num 3, Num 4); (Num 5, Num 6); (NaN, NaN)]]
  /\ forallb numeric_point
       [(NaN, NaN); (Num 1, Num 2); (Num 3, Num 4); (Num 5, Num 6); (NaN, NaN)] = false
  /\ closed
       [(NaN, NaN); (Num 1, Num 2); (Num 3, Num 4); (Num 5, Num 6); (NaN, NaN)] = false.
Proof. repeat split; reflexivity. Qed.

(** The same payload as JSON text, through the reference browser. *)
Lemma cleaning_text_keeps_null_pair :
  renderable Reference.browser (VStr "[[null,null],[1,2],[3,4],[5,6]]")
    = [[(NaN, NaN); (Num 1, Num 2); (Num 3, Num 4); (Num 5, Num 6); (NaN, NaN)]].
Proof. vm_compute. reflexivity. Qed.

(** Without such entries the rings are as section 4.2 describes them. *)
Lemma renderable_length (h : host) (path : value) :
  Forall (fun r => (3 <= List.length r)%nat) (renderable h path).
Proof.
  unfold renderable. destruct (decode_path h path) as [pc|]; [|constructor].
  destruct (polygons_of h pc) as [rs|e] eqn:Hp; [|constructor].
  now apply polygons_of_length with (h := h) (pc := pc).
Qed.

Lemma degenerate_renderable (h : host) (path : value) :
  degenerate h path = true -> renderable h path = [].
Proof.
  unfold degenerate. destruct path as [| | | |t|polys|]; try discriminate.
  - destruct (JSON_parse h t) as [v|] eqn:Hp.
    + destruct v as [| | | | |polys|]; try discriminate. intros Ht.
      apply renderable_two_point with (polys := polys); [|exact Ht].
      unfold decode_path. exact Hp.
    + intros _. now apply renderable_malformed.
  - intros Ht. now apply renderable_two_point with (polys := polys).
Qed.

Lemma removed_province (cur : option layer) (s : state) :
  let s' := exec (remove_if_any cur) s in
  provinceBoundariesLayer s' = provinceBoundariesLayer s /\
  cityBoundariesLayer s' = cityBoundariesLayer s /\
  incl (live_layers s') (live_layers s) /\ next_lid s' = next_lid s.
Proof.
  unfold exec, remove_if_any, map_removeLayer. destruct cur as [l|]; cbn;
    [|repeat split; auto using incl_refl].
  destruct (map s) as [m|] eqn:Hm; cbn; [|repeat split; auto using incl_refl].
  repeat split; auto. unfold live_layers. cbn. rewrite Hm.
  intros x Hx. now apply In_without in Hx.
Qed.

Lemma show_degenerate_province (h : host) (g path : value) (s : state) :
  get_prop "path" g = Ok path -> renderable h path = [] ->
  exec (showProvinceBoundary h g) s = s \/
  exec (showProvinceBoundary h g) s = exec (remove_if_any (provinceBoundariesLayer s)) s.
Proof.
  intros Hp Hr. unfold showProvinceBoundary, exec, try_catch.
  destruct (truthy g); [|now left]. rewrite Hp, bind_lift_ok.
  destruct (truthy path); [|now left]. rewrite bind_gets_eq. right.
  unfold bind at 1.
  destruct (remove_if_any (provinceBoundariesLayer s) s) as [[[]|e] s1]; [|reflexivity].
  unfold renderable in Hr. destruct (decode_path h path) as [pc|]; [|reflexivity].
  destruct (polygons_of h pc) as [rs|e]; [subst rs|]; reflexivity.
Qed.

Lemma show_degenerate_city (h : host) (g path : value) (s : state) :
  get_prop "path" g = Ok path -> renderable h path = [] ->
  exec (showCityBoundary h g) s = s \/
  exec (showCityBoundary h g) s = exec (remove_if_any (cityBoundariesLayer s)) s.
Proof.
  intros Hp Hr. unfold showCityBoundary, exec, try_catch.
  destruct (truthy g); [|now left]. rewrite Hp, bind_lift_ok.
  destruct (truthy path); [|now left]. rewrite bind_gets_eq. right.
  unfold bind at 1.
  destruct (remove_if_any (cityBoundariesLayer s) s) as [[[]|e] s1]; [|reflexivity].
  unfold renderable in Hr. destruct (decode_path h path) as [pc|]; [|reflexivity].
  destruct (polygons_of h pc) as [rs|e]; [subst rs|]; reflexivity.
Qed.

(** C6. For text that is not JSON, for the empty array and for an array
    of two-point polygons, the cleaning yields nothing to render, and
    neither boundary function throws or adds a layer: no layer is created,
    the map only holds layers it held before, and the boundary variable is
    as it was. *)
Theorem degenerate_boundary_is_suppressed (h : host) (geoData path : value) (s : state) :
  get_prop "path" geoData = Ok path ->
  degenerate h path = true ->
  renderable h path = [] /\
  (outcome_of (showProvinceBoundary h geoData) s = Ok tt /\
   let s' := exec (showProvinceBoundary h geoData) s in
   provinceBoundariesLayer s' = provinceBoundariesLayer s /\
   incl (live_layers s') (live_layers s) /\ next_lid s' = next_lid s) /\
  (outcome_of (showCityBoundary h geoData) s = Ok tt /\
   let s' := exec (showCityBoundary h geoData) s in
   cityBoundariesLayer s' = cityBoundariesLayer s /\
   incl (live_layers s') (live_layers s) /\ next_lid s' = next_lid s).
Proof.
  intros Hp Hd. pose proof (degenerate_renderable h path Hd) as Hr.
  split; [exact Hr|]. split; (split; [apply try_catch_ok; reflexivity|]).
  - destruct (show_degenerate_province h geoData path s Hp Hr) as [-> | ->].
    + repeat split; auto using incl_refl.
    + pose proof (removed_province (provinceBoundariesLayer s) s). cbv zeta in *. tauto.
  - destruct (show_degenerate_city h geoData path s Hp Hr) as [-> | ->].
    + repeat split; auto using incl_refl.
    + pose proof (removed_province (cityBoundariesLayer s) s). cbv zeta in *. tauto.
Qed.

Lemma degenerate_boundary_is_suppressed_witness :
  (get_prop "path" Reference.broken_geo = Ok (VStr "not json") /\
   degenerate Reference.browser (VStr "not json") = true) /\
  renderable Reference.browser (VStr "not json") = [] /\
  outcome_of (showProvinceBoundary Reference.browser Reference.broken_geo)
    (initial Reference.page) = Ok tt.
Proof.
  split; [split; reflexivity|].
  pose proof (degenerate_boundary_is_suppressed Reference.browser Reference.broken_geo
                (VStr "not json") (initial Reference.page) eq_refl eq_refl) as H.
  split; [apply H | apply H].
Defined.

(** ** The selection state *)

Lemma settle_found (h : host) (i : nat) (o : outcome) (r1 r2 : Q) (t : task) (s : state) :
  nth_error (pending s) i = Some t ->
  exec (settle h i o r1 r2) s
    = exec (resume h t o r1 r2) (set_pending (remove_nth i (pending s)) s).
Proof. intros Hn. unfold settle, exec. rewrite bind_gets_eq, Hn. reflexivity. Qed.

Lemma settle_selection (h : host) (i : nat) (o : outcome) (r1 r2 : Q) (sel : selection) :
  preserves (fun s => selectedLocation s = sel) (settle h i o r1 r2).
Proof.
  unfold settle. apply preserves_bind; [apply preserves_gets | intros ts].
  destruct (nth_error ts i) as [t|]; [|apply preserves_ret].
  apply preserves_bind; [frame | intros _; apply resume_selection].
Qed.

(** Arriving responses never change the selection. *)
Lemma settles_keep_selection (h : host) (es : list event) (s : state) :
  forallb is_settle es = true ->
  selectedLocation (run h es s) = selectedLocation s.
Proof.
  revert s. induction es as [|e es IH]; simpl; intros s Hq; [reflexivity|].
  apply andb_true_iff in Hq as [He Hes]. rewrite (IH _ Hes).
  destruct e; try discriminate. unfold step. simpl. now apply settle_selection.
Qed.

Lemma nonempty_code (code : string) : code <> "" -> String.eqb code "" = false.
Proof. intros Hc. now apply String.eqb_neq. Qed.

Lemma selectProvince_code (h : host) (code : string) (s : state) :
  code <> "" ->
  selectedLocation (exec (selectProvince h code) s)
    = {| province := Some code; city := None; district := None; village := None |} /\
  pending (exec (selectProvince h code) s) = pending s ++ [KProvinceGeo code] /\
  map (exec (selectProvince h code) s) = map s /\
  document (exec (selectProvince h code) s)
    = with_info DisplayBlock (with_content PanelLoading (document s)).
Proof.
  intros Hc. unfold selectProvince. rewrite (nonempty_code code Hc).
  repeat split; reflexivity.
Qed.

Lemma selectCity_code (code : string) (s : state) :
  code <> "" ->
  exec (selectCity code) s
    = set_pending (pending s ++ [KCityGeo code])
        (set_selectedLocation
           {| province := province (selectedLocation s); city := Some code;
              district := None; village := None |} s).
Proof. intros Hc. unfold selectCity. now rewrite (nonempty_code code Hc). Qed.

Lemma selectDistrict_code (code : string) (s : state) :
  code <> "" ->
  exec (selectDistrict code) s
    = set_pending (pending s ++ [KDistrictDetail code])
        (set_selectedLocation
           {| province := province (selectedLocation s);
              city := city (selectedLocation s);
              district := Some code; village := None |} s).
Proof. intros Hc. unfold selectDistrict. now rewrite (nonempty_code code Hc). Qed.

Lemma selectVillage_code (code : string) (s : state) :
  code <> "" ->
  exec (selectVillage code) s
    = set_pending (pending s ++ [KVillageDetail code])
        (set_selectedLocation
           {| province := province (selectedLocation s);
              city := city (selectedLocation s);
              district := district (selectedLocation s);
              village := Some code |} s).
Proof. intros Hc. unfold selectVillage. now rewrite (nonempty_code code Hc). Qed.

(** Selecting "none" at the three deeper levels clears the level and
    everything below it. *)
Lemma select_none_clears_deeper (s : state) :
  anchored s ->
  selectedLocation (exec (selectCity "") s)
    = {| province := province (selectedLocation s); city := None;
         district := None; village := None |} /\
  selectedLocation (exec (selectDistrict "") s)
    = {| province := province (selectedLocation s); city := city (selectedLocation s);
         district := None; village := None |} /\
  selectedLocation (exec (selectVillage "") s)
    = {| province := province (selectedLocation s); city := city (selectedLocation s);
         district := district (selectedLocation s); village := None |}.
Proof.
  unfold anchored, has_map. intros Ha.
  unfold selectCity, selectDistrict, selectVillage, exec, bind, gets, modify,
    map_removeLayer, clearDistrictSelector, clearVillageSelector, on_document, ret.
  cbn.
  destruct (map s) as [m|] eqn:Hmap.
  - destruct (currentCityLayer s), (currentDistrictLayer s), (currentVillageLayer s);
      cbn; rewrite ?Hmap; cbn; repeat split; reflexivity.
  - destruct Ha as [Ha|Ha]; [discriminate|].
    pose proof (Ha SCity) as Hc. pose proof (Ha SDistrict) as Hd.
    pose proof (Ha SVillage) as Hv. cbn in Hc, Hd, Hv. rewrite Hc, Hd, Hv.
    repeat split; reflexivity.
Qed.

Lemma stored_code (code : string) : code <> "" -> stored code = Some code.
Proof. intros Hc. unfold stored. now rewrite (nonempty_code code Hc). Qed.

Lemma stored_chain (p c k v : string) :
  (c = "" -> k = "") -> (k = "" -> v = "") ->
  ancestors_set {| province := Some p; city := stored c; district := stored k;
                   village := stored v |} = true.
Proof.
  intros Hck Hkv. unfold ancestors_set, stored. cbn.
  destruct (String.eqb_spec c "") as [Ec|Ec].
  - rewrite (Hck Ec), (Hkv (Hck Ec)). reflexivity.
  - destruct (String.eqb_spec k "") as [Ek|Ek].
    + rewrite (Hkv Ek). reflexivity.
    + destruct (String.eqb v ""); reflexivity.
Qed.

(** A selection stores its code and unsets the deeper levels. *)
Lemma select_stores (h : host) (lvl : level) (code : string) (s : state) :
  (lvl = Province -> code <> "") -> anchored s ->
  selectedLocation (step h s (select lvl code)) = chosen lvl code (selectedLocation s).
Proof.
  intros Hp Ha. destruct (select_none_clears_deeper s Ha) as (Nc & Nd & Nv).
  unfold step, stored, chosen. destruct lvl; cbn [select handler].
  - unfold stored. rewrite (nonempty_code code (Hp eq_refl)).
    apply (selectProvince_code h code s (Hp eq_refl)).
  - unfold stored. destruct (String.eqb code "") eqn:E.
    + apply String.eqb_eq in E. subst code. exact Nc.
    + apply String.eqb_neq in E. now rewrite (selectCity_code code s E).
  - unfold stored. destruct (String.eqb code "") eqn:E.
    + apply String.eqb_eq in E. subst code. exact Nd.
    + apply String.eqb_neq in E. now rewrite (selectDistrict_code code s E).
  - unfold stored. destruct (String.eqb code "") eqn:E.
    + apply String.eqb_eq in E. subst code. exact Nv.
    + apply String.eqb_neq in E. now rewrite (selectVillage_code code s E).
Qed.


(** [selectProvince] with "none" leaves the selection as it was: its
    [resetMap] throws before the selection is reset. *)
Lemma select_none_province (h : host) (d : dom) (es : list event) :
  selectedLocation (step h (run h es (initial d)) (ESelectProvince ""))
  = selectedLocation (run h es (initial d)).
Proof.
  destruct (resetMap_stops h (run h es (initial d)) (undeclared_reachable h d es))
    as (e & He & Hk & Hsel & _).
  unfold step, handler, selectProvince, outcome_of, exec, bind in *. cbn [String.eqb].
  destruct (resetMap h (run h es (initial d))) as [[[]|e'] s']; simpl in *;
    [discriminate | exact Hsel].
Qed.

(** With a province and a city selected, [selectProvince] with "none"
    unsets nothing. *)
Lemma select_none_province_keeps_deeper :
  selectedLocation
    (run Reference.browser
       [EInit; ESelectProvince "31"; ESelectCity "3171"; ESelectProvince ""]
       (initial Reference.page))
  = {| province := Some "31"; city := Some "3171"; district := None; village := None |}.
Proof. reflexivity. Qed.



(** ** Reset *)

(** C2. In every state the page reaches, [resetMap] throws: a
    ReferenceError at its first read of [provinceBoundaryLayer], or, when
    there is no map yet, a TypeError at [map.setView]; the selection, the
    selectors and the info panel are then what they were.  On the page with
    province 31 selected: the view is back at the default, but province 31 is
    still selected and the panel still shown. *)
Theorem resetMap_throws (h : host) (d : dom) (es : list event) :
  (let s := run h es (initial d) in
   exists e, outcome_of (resetMap h) s = Throw e /\
             (e = ReferenceError \/ (e = TypeError /\ map s = None)) /\
             selectedLocation (exec (resetMap h) s) = selectedLocation s /\
             document (exec (resetMap h) s) = document s) /\
  (let s := run Reference.browser [EInit; ESelectProvince "31"]
              (initial Reference.page) in
   outcome_of (resetMap Reference.browser) s = Throw ReferenceError /\
   viewport (exec (resetMap Reference.browser) s)
     = Some (DEFAULT_COORDINATE, DEFAULT_ZOOM) /\
   province (selectedLocation (exec (resetMap Reference.browser) s)) = Some "31" /\
   province_info (document (exec (resetMap Reference.browser) s)) = Some DisplayBlock) /\
  outcome_of (resetMap Reference.browser) (initial Reference.page) = Throw TypeError.
Proof.
  split; [|split].
  - intros s.
    destruct (resetMap_stops h s (undeclared_reachable h d es))
      as (e & He & Hk & Hsel & Hdoc & _).
    exists e. auto.
  - vm_compute. repeat split; reflexivity.
  - reflexivity.
Qed.

(** C3. In every state the page reaches, [selectProvince] with the empty
    code throws inside [resetMap] before the selection is reset: the four
    fields are what they were.  With province 31 selected, the province field
    is still set when the call is over. *)
Theorem select_none_keeps_province (h : host) (d : dom) (es : list event) :
  (let s := run h es (initial d) in
   (exists e, outcome_of (selectProvince h "") s = Throw e) /\
   selectedLocation (exec (selectProvince h "") s) = selectedLocation s) /\
  (let s := run Reference.browser [EInit; ESelectProvince "31"]
              (initial Reference.page) in
   outcome_of (selectProvince Reference.browser "") s = Throw ReferenceError /\
   selectedLocation (exec (selectProvince Reference.browser "") s)
     = {| province := Some "31"; city := None; district := None; village := None |}).
Proof.
  split.
  - intros s.
    destruct (resetMap_stops h s (undeclared_reachable h d es))
      as (e & He & Hk & Hsel & _).
    unfold selectProvince, outcome_of, exec, bind in *. cbn [String.eqb].
    destruct (resetMap h s) as [[[]|e'] s']; simpl in *; [discriminate|].
    split; [now exists e' | exact Hsel].
  - vm_compute. split; reflexivity.
Qed.

(** ** Late responses *)

(** The methods never add or drop the two elements of the info panel. *)
Lemma elements_on_document (f : dom -> dom) (a b : bool) :
  (forall d, is_some (province_info (f d)) = is_some (province_info d) /\
             is_some (province_info_content (f d))
               = is_some (province_info_content d)) ->
  preserves (fun s => is_some (province_info (document s)) = a /\
                      is_some (province_info_content (document s)) = b)
            (on_document f).
Proof.
  intros Hf s [Ha Hb]. unfold exec, on_document, modify. cbn.
  destruct (Hf (document s)) as [-> ->]. now split.
Qed.

#[local] Hint Extern 1 (preserves _ (on_document _)) =>
  solve [ apply elements_on_document;
          let d := fresh "d" in
          intros d; cbn;
          destruct (province_info d), (province_info_content d); split; reflexivity ]
  : frames.

Lemma elements_handler (h : host) (e : event) (a b : bool) :
  preserves (fun s => is_some (province_info (document s)) = a /\
                      is_some (province_info_content (document s)) = b)
            (handler h e).
Proof.
  destruct e; simpl;
    try (unfold init, selectProvince, selectCity, selectDistrict, selectVillage, settle,
           resetMap, read);
    frame.
Qed.

Lemma elements_stay (h : host) (es : list event) (d : dom) :
  (province_info (document (run h es (initial d))) = None <-> province_info d = None) /\
  (province_info_content (document (run h es (initial d))) = None
   <-> province_info_content d = None).
Proof.
  assert (H : forall s,
             is_some (province_info (document (run h es s)))
               = is_some (province_info (document s)) /\
             is_some (province_info_content (document (run h es s)))
               = is_some (province_info_content (document s))).
  { induction es as [|e es IH]; intros s; [split; reflexivity|]. simpl.
    destruct (IH (step h s e)) as [-> ->].
    apply (elements_handler h e _ _ s). split; reflexivity. }
  destruct (H (initial d)) as [H1 H2]. cbn [document initial] in H1, H2.
  unfold is_some in *.
  split.
  - destruct (province_info (document (run h es (initial d)))), (province_info d);
      split; intros; congruence.
  - destruct (province_info_content (document (run h es (initial d)))),
      (province_info_content d); split; intros; congruence.
Qed.


Lemma nth_error_appended {A : Type} (l : list A) (a b : A) :
  nth_error ((l ++ [a]) ++ [b]) (List.length l) = Some a.
Proof.
  rewrite <- app_assoc. rewrite nth_error_app2 by lia.
  now rewrite Nat.sub_diag.
Qed.

Lemma remove_nth_last {A : Type} (l : list A) (a : A) :
  remove_nth (List.length l) (l ++ [a]) = l.
Proof. induction l as [|x l IH]; simpl; [reflexivity | now rewrite IH]. Qed.

Lemma remove_nth_appended {A : Type} (l : list A) (a b : A) :
  remove_nth (List.length l) ((l ++ [a]) ++ [b]) = l ++ [b].
Proof. induction l as [|x l IH]; simpl; [reflexivity | now rewrite IH]. Qed.

Lemma nth_error_last {A : Type} (l : list A) (a : A) :
  nth_error (l ++ [a]) (List.length l) = Some a.
Proof. rewrite nth_error_app2 by lia. now rewrite Nat.sub_diag. Qed.

(** *** What a selection leaves, and what the arrival of a response does *)

Section Arrivals.
Variable h : host.

(** A selection with a code asks for the data of the code and touches
    neither the map nor the variables of the layers. *)
Lemma select_asks (lvl : level) (code : string) (s : state) :
  code <> "" ->
  let s' := step h s (select lvl code) in
  pending s' = pending s ++ [request lvl code] /\
  map s' = map s /\ next_lid s' = next_lid s /\
  (forall sl, slot_get sl s' = slot_get sl s) /\
  selectedLocation s' = chosen lvl code (selectedLocation s) /\
  document s'
  = match lvl with
    | Province => with_info DisplayBlock (with_content PanelLoading (document s))
    | _ => document s
    end.
Proof.
  intros Hc s'. subst s'. unfold step, chosen. rewrite (stored_code code Hc).
  destruct lvl; cbn [select handler request].
  - unfold selectProvince. rewrite (nonempty_code code Hc).
    repeat split; try reflexivity. now intros [].
  - rewrite (selectCity_code code s Hc). repeat split; try reflexivity. now intros [].
  - rewrite (selectDistrict_code code s Hc). repeat split; try reflexivity.
    now intros [].
  - rewrite (selectVillage_code code s Hc). repeat split; try reflexivity.
    now intros [].
Qed.

Lemma select_Inv (lvl : level) (code : string) (s : state) :
  Inv s -> Inv (step h s (select lvl code)).
Proof. intros HI. destruct lvl; apply (Inv_handler h _ s HI). Qed.

Lemma waiting_Inv (i : nat) (s : state) :
  Inv s -> Inv (set_pending (remove_nth i (pending s)) s).
Proof. apply Inv_ext; try reflexivity. intros []; reflexivity. Qed.

(** The coordinate of a province arrives. *)
Lemma province_arrives (s : state) (i : nat) (code : string) (o : outcome)
    (r1 r2 : Q) (m : map_state) (data : value) (lat lng : jsnum) :
  Inv s -> map s = Some m ->
  nth_error (pending s) i = Some (KProvinceGeo code) ->
  geo_of h o = Some (data, lat, lng) ->
  is_nan lat = false -> is_nan lng = false -> latLng_ok h lat lng = true ->
  let s' := step h s (ESettle i o r1 r2) in
  viewport s' = Some (limited h (maxBounds m) (lat, lng) 8, 8%Z) /\
  (exists l, shape l = Marker Province lat lng data /\
             currentProvinceLayer s' = Some l /\
             live_markers Province s' = [l]) /\
  (forall x y, province_info (document s) = Some x ->
               province_info_content (document s) = Some y ->
               province_info_content (document s') = Some (PanelInfo data)).
Proof.
  intros HI Hm Hn Hg Hlat Hlng Hok s'. subst s'. unfold step. cbn [handler].
  rewrite (settle_found h i o r1 r2 _ s Hn). cbn [resume].
  destruct (province_placed h code o data lat lng _ m (waiting_Inv i s HI) Hm Hg
              Hlat Hlng Hok) as (Hv & Hheld & Hlive & _ & _ & Hpanel).
  split; [exact Hv|]. split; [|exact Hpanel].
  eexists. split; [|split; [exact Hheld | exact Hlive]]. reflexivity.
Qed.

(** The coordinate of a city arrives. *)
Lemma city_arrives (s : state) (i : nat) (code : string) (o : outcome)
    (r1 r2 : Q) (m : map_state) (data : value) (lat lng : jsnum) :
  Inv s -> map s = Some m ->
  nth_error (pending s) i = Some (KCityGeo code) ->
  geo_of h o = Some (data, lat, lng) ->
  is_nan lat = false -> is_nan lng = false -> latLng_ok h lat lng = true ->
  let s' := step h s (ESettle i o r1 r2) in
  viewport s' = Some (limited h (maxBounds m) (lat, lng) 10, 10%Z) /\
  exists l, shape l = Marker City lat lng data /\
            currentCityLayer s' = Some l /\
            live_markers City s' = [l].
Proof.
  intros HI Hm Hn Hg Hlat Hlng Hok s'. subst s'. unfold step. cbn [handler].
  rewrite (settle_found h i o r1 r2 _ s Hn). cbn [resume].
  destruct (city_placed h code o data lat lng _ m (waiting_Inv i s HI) Hm Hg
              Hlat Hlng Hok) as (Hv & Hheld & Hlive & _).
  split; [exact Hv|].
  eexists. split; [|split; [exact Hheld | exact Hlive]]. reflexivity.
Qed.

Lemma detail_of_inv (o : outcome) (detail : value) :
  detail_of o = Some detail ->
  exists response, o = Fulfilled response /\
                   success_and_data response = Ok (Some detail).
Proof.
  unfold detail_of. destruct o as [|response]; [discriminate|].
  destruct (success_and_data response) as [[x|]|] eqn:E; try discriminate.
  intros [= ->]. now exists response.
Qed.

(** The detail of a district or of a village arrives: the coordinate of
    the city that is selected at this moment is asked for, and nothing else
    happens; without a selected city nothing happens at all. *)
Lemma district_detail_arrives (s : state) (i : nat) (code : string) (o : outcome)
    (r1 r2 : Q) (detail : value) :
  nth_error (pending s) i = Some (KDistrictDetail code) ->
  detail_of o = Some detail ->
  step h s (ESettle i o r1 r2)
  = if selected (city (selectedLocation s))
    then set_pending (remove_nth i (pending s)
                        ++ [KDistrictCityGeo code detail
                              (code_in (city (selectedLocation s)))]) s
    else set_pending (remove_nth i (pending s)) s.
Proof.
  intros Hn Hd. destruct (detail_of_inv o detail Hd) as (response & -> & Hsd).
  unfold step. cbn [handler]. rewrite (settle_found h i _ r1 r2 _ s Hn).
  cbn [resume]. unfold resume_DistrictDetail, exec, try_catch, bind, settled, lift,
    gets, ret, await, modify.
  rewrite Hsd. cbn.
  destruct (selected (city (selectedLocation s))); reflexivity.
Qed.

Lemma village_detail_arrives (s : state) (i : nat) (code : string) (o : outcome)
    (r1 r2 : Q) (detail : value) :
  nth_error (pending s) i = Some (KVillageDetail code) ->
  detail_of o = Some detail ->
  step h s (ESettle i o r1 r2)
  = if selected (city (selectedLocation s))
    then set_pending (remove_nth i (pending s)
                        ++ [KVillageCityGeo code detail
                              (code_in (city (selectedLocation s)))]) s
    else set_pending (remove_nth i (pending s)) s.
Proof.
  intros Hn Hd. destruct (detail_of_inv o detail Hd) as (response & -> & Hsd).
  unfold step. cbn [handler]. rewrite (settle_found h i _ r1 r2 _ s Hn).
  cbn [resume]. unfold resume_VillageDetail, exec, try_catch, bind, settled, lift,
    gets, ret, await, modify.
  rewrite Hsd. cbn.
  destruct (selected (city (selectedLocation s))); reflexivity.
Qed.

(** The coordinate of the city arrives, for a district and for a village. *)
Lemma district_geo_arrives (s : state) (i : nat) (code city : string)
    (detail : value) (o : outcome) (r1 r2 : Q) (m : map_state) (data : value)
    (cityLat cityLng : jsnum) :
  Inv s -> map s = Some m ->
  nth_error (pending s) i = Some (KDistrictCityGeo code detail city) ->
  geo_of h o = Some (data, cityLat, cityLng) ->
  let lat := num_add h cityLat (jitter h r1 (1 # 10)) in
  let lng := num_add h cityLng (jitter h r2 (1 # 10)) in
  latLng_ok h lat lng = true ->
  let s' := step h s (ESettle i o r1 r2) in
  viewport s' = Some (limited h (maxBounds m) (lat, lng) 12, 12%Z) /\
  currentDistrictLayer s'
    = Some {| lid := next_lid s; shape := Marker District lat lng detail |} /\
  live_markers District s'
    = [{| lid := next_lid s; shape := Marker District lat lng detail |}].
Proof.
  intros HI Hm Hn Hg lat lng Hok s'. subst s'. unfold step. cbn [handler].
  rewrite (settle_found h i o r1 r2 _ s Hn). cbn [resume].
  destruct (district_placed h code detail o r1 r2 data cityLat cityLng _ m
              (waiting_Inv i s HI) Hm Hg Hok) as (Hheld & Hlive & _ & Hv).
  split; [exact Hv|]. split; [exact Hheld | exact Hlive].
Qed.

Lemma village_geo_arrives (s : state) (i : nat) (code city : string)
    (detail : value) (o : outcome) (r1 r2 : Q) (m : map_state) (data : value)
    (cityLat cityLng : jsnum) :
  Inv s -> map s = Some m ->
  nth_error (pending s) i = Some (KVillageCityGeo code detail city) ->
  geo_of h o = Some (data, cityLat, cityLng) ->
  let lat := num_add h cityLat (jitter h r1 (2 # 10)) in
  let lng := num_add h cityLng (jitter h r2 (2 # 10)) in
  latLng_ok h lat lng = true ->
  let s' := step h s (ESettle i o r1 r2) in
  viewport s' = Some (limited h (maxBounds m) (lat, lng) 14, 14%Z) /\
  currentVillageLayer s'
    = Some {| lid := next_lid s; shape := Marker Village lat lng detail |} /\
  live_markers Village s'
    = [{| lid := next_lid s; shape := Marker Village lat lng detail |}].
Proof.
  intros HI Hm Hn Hg lat lng Hok s'. subst s'. unfold step. cbn [handler].
  rewrite (settle_found h i o r1 r2 _ s Hn). cbn [resume].
  destruct (village_placed h code detail o r1 r2 data cityLat cityLng _ m
              (waiting_Inv i s HI) Hm Hg Hok) as (Hheld & Hlive & _ & Hv).
  split; [exact Hv|]. split; [exact Hheld | exact Hlive].
Qed.

End Arrivals.



(** ** Overlays *)



(** ** Zoom and approximate positions *)

Lemma within_weaken (b1 b2 : Q) (x c : jsnum) :
  b1 <= b2 -> within b1 x c -> within b2 x c.
Proof.
  unfold within. destruct x as [|a], c as [|b]; try tauto. intros Hb [H1 H2].
  split; lra.
Qed.




Lemma resume_DistrictDetail_no_city (code : string) (o : outcome) (s : state) :
  city (selectedLocation s) = None ->
  exec (resume_DistrictDetail code o) s = s.
Proof.
  intros Hc. unfold resume_DistrictDetail, exec, try_catch, bind, settled, lift, gets.
  destruct o as [|response]; [reflexivity|]. cbn.
  destruct (success_and_data response) as [[data|]|]; try reflexivity.
  now rewrite Hc.
Qed.

Lemma resume_VillageDetail_no_city (code : string) (o : outcome) (s : state) :
  city (selectedLocation s) = None ->
  exec (resume_VillageDetail code o) s = s.
Proof.
  intros Hc. unfold resume_VillageDetail, exec, try_catch, bind, settled, lift, gets.
  destruct o as [|response]; [reflexivity|]. cbn.
  destruct (success_and_data response) as [[data|]|]; try reflexivity.
  now rewrite Hc.
Qed.


(** In doubles the offset itself can pass the 0.05 of the claim: it does
    for a draw of 0. *)
Lemma offset_beyond_bound_in_doubles :
  exists off, jitter Reference.browser 0 (1 # 10) = Num off /\ off < - (5 # 100).
Proof. vm_compute. eexists. split; reflexivity. Qed.



End Claims.

(** * Further properties of the methods *)

(** ** Responses and failures *)

Module Robust.
Import Polygon App Logic Protocol Rules Overlays Frames.
Local Open Scope js_scope.

Lemma returns_resume (h : host) (t : task) (o : outcome) (r1 r2 : Q) :
  returns (resume h t o r1 r2).
Proof. destruct t; simpl; autounfold with methods; apply returns_try; returns. Qed.

Lemma returns_settle (h : host) (i : nat) (o : outcome) (r1 r2 : Q) :
  returns (settle h i o r1 r2).
Proof.
  unfold settle. apply returns_bind; [apply returns_gets | intros ts].
  destruct (nth_error ts i); [|apply returns_ret].
  apply returns_bind; [apply returns_modify | intros _; apply returns_resume].
Qed.

(** X1. No response makes the page throw: whatever a request settles
    with, and in whatever state, the continuation of every method returns,
    and so does the delivery of a response.  Selecting a province, city,
    district or village with a non-empty code returns as well.  (Only
    [init], [resetMap] and the selections of "none" can throw.) *)
Theorem no_request_or_response_throws (h : host) :
  (forall t o r1 r2, returns (resume h t o r1 r2)) /\
  (forall i o r1 r2, returns (settle h i o r1 r2)) /\
  (forall c code,
      returns (selectProvince h (String c code)) /\
      returns (selectCity (String c code)) /\
      returns (selectDistrict (String c code)) /\
      returns (selectVillage (String c code))).
Proof.
  split; [|split].
  - apply returns_resume.
  - apply returns_settle.
  - intros c code. unfold selectProvince, selectCity, selectDistrict, selectVillage.
    cbn [String.eqb]. repeat split; apply returns_try; returns.
Qed.

Lemma truthy_get_prop (k : string) (v : value) :
  truthy v = true -> exists x, get_prop k v = Ok x.
Proof. destruct v; simpl; try discriminate; eauto. Qed.

Lemma data_truthy (response data : value) :
  success_and_data response = Ok (Some data) -> truthy data = true.
Proof.
  unfold success_and_data.
  destruct (get_prop "success" response) as [ok|]; [|discriminate].
  destruct (truthy ok); [|discriminate].
  destruct (get_prop "data" response) as [d|]; [|discriminate].
  destruct (truthy d) eqn:Ht; [|discriminate]. now intros [= <-].
Qed.

Lemma unusable_cases (h : host) (o : outcome) :
  usable h o = false ->
  o = Rejected \/
  (exists response, o = Fulfilled response /\
     ((exists e, success_and_data response = Throw e) \/
      success_and_data response = Ok None \/
      exists data latv lngv,
        success_and_data response = Ok (Some data) /\
        get_prop "lat" data = Ok latv /\ get_prop "lng" data = Ok lngv /\
        negb (is_nan (parseFloat h latv)) && negb (is_nan (parseFloat h lngv)) = false)).
Proof.
  unfold usable, geo_of. intros Hn. destruct o as [|response]; [now left|]. right.
  exists response. split; [reflexivity|].
  destruct (success_and_data response) as [[data|]|e] eqn:Hsd; eauto.
  pose proof (data_truthy response data Hsd) as Ht.
  destruct (truthy_get_prop "lat" data Ht) as [latv Hlat].
  destruct (truthy_get_prop "lng" data Ht) as [lngv Hlng].
  rewrite Hlat, Hlng in Hn. right. right. exists data, latv, lngv. auto.
Qed.



End Robust.

(** ** Selecting "none" below the province *)

Module NoneSelection.
Import Polygon App Logic Protocol Rules Overlays Frames Counting.
Local Open Scope js_scope.

Lemma without_in_slot (s : state) (m : map_state) (sl : slot) (l0 : layer) :
  Inv s -> map s = Some m -> slot_get sl s = Some l0 ->
  without l0 (layers m) = filter (fun l => negb (in_slot sl l)) (layers m).
Proof.
  intros HI Hm Hg. unfold without. apply filter_ext_in. intros l Hin.
  assert (Hin' : In l (live_layers s)) by (unfold live_layers; now rewrite Hm).
  destruct (Nat.eqb_spec (lid l) (lid l0)) as [He|Hne]; simpl.
  - pose proof (held_ident s HI sl l0 l Hg Hin' He) as ->.
    now rewrite (held_kind s HI sl l0 Hg).
  - destruct (in_slot sl l) eqn:Hs; [|reflexivity]. exfalso.
    assert (Hf : In l (filter (in_slot sl) (live_layers s)))
      by (apply filter_In; split; assumption).
    apply (live_in_slot_held s HI) in Hf. congruence.
Qed.

Lemma none_in_slot (s : state) (sl : slot) :
  Inv s -> slot_get sl s = None ->
  filter (fun l => negb (in_slot sl l)) (live_layers s) = live_layers s.
Proof.
  intros HI Hg. apply forallb_filter_id. apply forallb_forall. intros l Hin.
  destruct (in_slot sl l) eqn:Hs; [|reflexivity]. exfalso.
  assert (Hf : In l (filter (in_slot sl) (live_layers s)))
    by (apply filter_In; split; assumption).
  apply (live_in_slot_held s HI) in Hf. congruence.
Qed.

(** [if (v) { map.removeLayer(v); v = null }] on a page with a map: the
    layers of the kind of [v] leave the map, nothing else does. *)
Lemma forget_block {B : Type} (sl : slot) (rest : M B) (s : state) (m : map_state) :
  Inv s -> map s = Some m ->
  exists s',
    (cur <- gets (slot_get sl);;
     match cur with
     | Some l => map_removeLayer l;; modify (slot_set sl None)
     | None => ret tt
     end;;
     rest) s = rest s' /\
    live_layers s' = filter (fun l => negb (in_slot sl l)) (live_layers s) /\
    slot_get sl s' = None /\
    viewport s' = viewport s /\
    selectedLocation s' = selectedLocation s /\
    document s' = document s /\
    pending s' = pending s.
Proof.
  intros HI Hm. unfold bind, gets. destruct (slot_get sl s) as [l0|] eqn:Hg.
  - unfold map_removeLayer, modify. rewrite Hm. cbn. eexists. split; [reflexivity|].
    unfold live_layers, viewport. rewrite Hm.
    rewrite <- (without_in_slot s m sl l0 HI Hm Hg).
    destruct sl; repeat split; try reflexivity.
  - exists s. split; [reflexivity|]. rewrite (none_in_slot s sl HI Hg).
    repeat split; try reflexivity; exact Hg.
Qed.

Lemma filter_filter_keep {A : Type} (p q : A -> bool) (l : list A) :
  (forall x, p x = true -> q x = true) ->
  filter p (filter q l) = filter p l.
Proof.
  intros Hpq. induction l as [|x l IH]; simpl; [reflexivity|].
  destruct (q x) eqn:Hq; simpl.
  - now rewrite IH.
  - destruct (p x) eqn:Hp; [|exact IH]. apply Hpq in Hp. congruence.
Qed.

(** X3. On a page with a map, selecting "none" for the city, the
    district or the village returns, and takes the marker of that level,
    and nothing else, off the map.  In particular the boundary of the city
    and the markers of the deeper levels stay on the map, although the
    deeper fields of the selection are cleared. *)
Theorem select_none_removes_own_marker (h : host) (d : dom) (es : list event) :
  let s := run h es (initial d) in
  has_map s = true ->
  (outcome_of (selectCity "") s = Ok tt /\
   live_layers (exec (selectCity "") s)
     = filter (fun l => negb (is_marker City l)) (live_layers s) /\
   currentCityLayer (exec (selectCity "") s) = None /\
   live_boundaries City (exec (selectCity "") s) = live_boundaries City s /\
   live_markers District (exec (selectCity "") s) = live_markers District s /\
   live_markers Village (exec (selectCity "") s) = live_markers Village s /\
   viewport (exec (selectCity "") s) = viewport s) /\
  (outcome_of (selectDistrict "") s = Ok tt /\
   live_layers (exec (selectDistrict "") s)
     = filter (fun l => negb (is_marker District l)) (live_layers s) /\
   currentDistrictLayer (exec (selectDistrict "") s) = None /\
   live_markers Village (exec (selectDistrict "") s) = live_markers Village s /\
   viewport (exec (selectDistrict "") s) = viewport s) /\
  (outcome_of (selectVillage "") s = Ok tt /\
   live_layers (exec (selectVillage "") s)
     = filter (fun l => negb (is_marker Village l)) (live_layers s) /\
   currentVillageLayer (exec (selectVillage "") s) = None /\
   viewport (exec (selectVillage "") s) = viewport s).
Proof.
  intros s Hmap. pose proof (Inv_reachable h d es) as HI. fold s in HI.
  unfold has_map in Hmap. destruct (map s) as [m|] eqn:Hm; [clear Hmap|discriminate].
  assert (Hf : forall lvl, filter (fun l => negb (in_slot (marker_slot lvl) l)) (live_layers s)
                           = filter (fun l => negb (is_marker lvl l)) (live_layers s)).
  { intros lvl. apply filter_ext. intros l. now rewrite is_marker_in_slot. }
  split; [|split].
  - destruct (forget_block SCity
                (clearDistrictSelector;;
                 modify (fun s => set_selectedLocation
                           {| province := province (selectedLocation s); city := None;
                              district := None; village := None |} s)) s m HI Hm)
      as (s' & Hrun & Hlive & Hheld & Hview & _).
    unfold outcome_of, exec, selectCity. cbn [String.eqb].
    change currentCityLayer with (slot_get SCity).
    change set_currentCityLayer with (slot_set SCity). rewrite Hrun.
    cbn. unfold live_markers, live_boundaries.
    change (live_layers (set_selectedLocation _ _)) with (live_layers s').
    change (viewport (set_selectedLocation _ _)) with (viewport s').
    pose proof (Hf City) as Hf'. cbn [marker_slot] in Hf'. rewrite Hlive, Hf'.
    repeat split; auto.
    + apply filter_filter_keep. intros l. unfold is_boundary, is_marker.
      destruct (shape l); [discriminate | reflexivity].
    + apply filter_filter_keep. intros l. unfold is_marker.
      destruct (shape l) as [[] ? ? ?|]; (discriminate || reflexivity).
    + apply filter_filter_keep. intros l. unfold is_marker.
      destruct (shape l) as [[] ? ? ?|]; (discriminate || reflexivity).
  - destruct (forget_block SDistrict
                (clearVillageSelector;;
                 modify (fun s => set_selectedLocation
                           {| province := province (selectedLocation s);
                              city := city (selectedLocation s);
                              district := None; village := None |} s)) s m HI Hm)
      as (s' & Hrun & Hlive & Hheld & Hview & _).
    unfold outcome_of, exec, selectDistrict. cbn [String.eqb].
    change currentDistrictLayer with (slot_get SDistrict).
    change set_currentDistrictLayer with (slot_set SDistrict). rewrite Hrun.
    cbn. unfold live_markers.
    change (live_layers (set_selectedLocation _ _)) with (live_layers s').
    change (viewport (set_selectedLocation _ _)) with (viewport s').
    pose proof (Hf District) as Hf'. cbn [marker_slot] in Hf'. rewrite Hlive, Hf'.
    repeat split; auto.
    apply filter_filter_keep. intros l. unfold is_marker.
    destruct (shape l) as [[] ? ? ?|]; (discriminate || reflexivity).
  - destruct (forget_block SVillage
                (modify (fun s => set_selectedLocation
                           {| province := province (selectedLocation s);
                              city := city (selectedLocation s);
                              district := district (selectedLocation s);
                              village := None |} s)) s m HI Hm)
      as (s' & Hrun & Hlive & Hheld & Hview & _).
    unfold outcome_of, exec, selectVillage. cbn [String.eqb].
    change currentVillageLayer with (slot_get SVillage).
    change set_currentVillageLayer with (slot_set SVillage). rewrite Hrun.
    cbn.
    change (live_layers (set_selectedLocation _ _)) with (live_layers s').
    change (viewport (set_selectedLocation _ _)) with (viewport s').
    pose proof (Hf Village) as Hf'. cbn [marker_slot] in Hf'. rewrite Hlive, Hf'.
    repeat split; auto.
Qed.

Lemma select_none_removes_own_marker_witness :
  has_map (run Reference.browser
             [EInit; ESelectCity "3171"; ESettle 0 (Fulfilled Reference.jakarta) 0 0]
             (initial Reference.page)) = true /\
  live_layers
    (exec (selectCity "")
       (run Reference.browser
          [EInit; ESelectCity "3171"; ESettle 0 (Fulfilled Reference.jakarta) 0 0]
          (initial Reference.page)))
  = filter (fun l => negb (is_marker City l))
      (live_layers
         (run Reference.browser
            [EInit; ESelectCity "3171"; ESettle 0 (Fulfilled Reference.jakarta) 0 0]
            (initial Reference.page))).
Proof.
  split; [reflexivity|].
  pose proof (select_none_removes_own_marker Reference.browser Reference.page
                [EInit; ESelectCity "3171"; ESettle 0 (Fulfilled Reference.jakarta) 0 0])
    as H.
  cbv zeta in H. exact (proj1 (proj2 (proj1 (H eq_refl)))).
Defined.

End NoneSelection.

(** ** The dependent selectors *)

Module SelectorFacts.
Import Polygon App Logic Protocol Rules Overlays Frames.
Local Open Scope js_scope.

Lemma get_prop_field (k : string) (item : value) :
  nullish item = false -> get_prop k item = Ok (field k item).
Proof. destruct item; simpl; intros H; try discriminate; reflexivity. Qed.

Lemma options_from_records (kcode kname : string) (items : list value) :
  forallb (fun item => negb (nullish item)) items = true ->
  options_from kcode kname items
  = Ok (List.map (fun item => (field kcode item, field kname item)) items).
Proof.
  induction items as [|item items IH]; simpl; intros H; [reflexivity|].
  apply andb_true_iff in H as [Hi Hr]. apply negb_true_iff in Hi.
  rewrite !get_prop_field by exact Hi. now rewrite IH.
Qed.

Lemma options_from_nullish (kcode kname : string) (items : list value) :
  forallb (fun item => negb (nullish item)) items = false ->
  exists e, options_from kcode kname items = Throw e.
Proof.
  induction items as [|item items IH]; simpl; intros H; [discriminate|].
  destruct (nullish item) eqn:Hi; simpl in H.
  - destruct item; try discriminate; simpl; eauto.
  - rewrite !get_prop_field by exact Hi. destruct (IH H) as [e ->]. eauto.
Qed.

Ltac protocol :=
  intros s sel Hsel; split;
  [ intros c code;
    unfold exec, bind, gets, try_catch, on_document, modify, await;
    cbn [String.eqb]; rewrite Hsel; cbn; rewrite Hsel; repeat split; reflexivity
  | intros o;
    unfold exec, try_catch, bind, settled, lift, on_document, modify, answered, ret, throw;
    destruct o as [|response]; cbn;
    [ rewrite Hsel; repeat split; reflexivity |];
    destruct (success_and_data response) as [[data|]|e]; cbn;
    [ | rewrite ?Hsel; repeat split; try reflexivity; now destruct s
      | rewrite Hsel; repeat split; reflexivity ];
    destruct data as [| | | | |items|]; cbn; rewrite ?Hsel; cbn;
      try (repeat split; reflexivity);
    destruct (forallb (fun item => negb (nullish item)) items) eqn:Hall;
    [ rewrite (options_from_records _ _ items Hall); cbn; rewrite Hsel;
      repeat split; reflexivity
    | match goal with
      | |- context [options_from ?a ?b items] =>
          destruct (options_from_nullish a b items Hall) as [e ->]
      end;
      cbn; rewrite Hsel; repeat split; reflexivity ] ].



End SelectorFacts.

(** ** The requests of the selection chain *)

Module RequestFacts.
Import Polygon App Logic Protocol Rules Overlays Frames Placement Claims.
Local Open Scope js_scope.

Section Chains.
Variables (p : list task) (t : task).

Lemma chain_keep {A : Type} (m : M A) :
  preserves (fun s => pending s = p) m ->
  hoare (fun s => pending s = p) m (chained p t).
Proof. intros Hm s Hs. left. now apply Hm. Qed.

Lemma chain_bind {A B : Type} (m : M A) (k : A -> M B) :
  preserves (fun s => pending s = p) m ->
  (forall a, hoare (fun s => pending s = p) (k a) (chained p t)) ->
  hoare (fun s => pending s = p) (bind m k) (chained p t).
Proof.
  intros Hm Hk. apply hoare_bind with (R := fun s => pending s = p);
    [exact Hm | intros s Hs; now left | exact Hk].
Qed.

Lemma chain_try (m handler : M unit) :
  hoare (fun s => pending s = p) m (chained p t) ->
  preserves (chained p t) handler ->
  hoare (fun s => pending s = p) (try_catch m handler) (chained p t).
Proof. intros Hm Hh. apply hoare_try with (R := chained p t); auto. Qed.

Lemma chain_await (t' : task) :
  (follow_ups t' < follow_ups t)%nat ->
  hoare (fun s => pending s = p) (await t') (chained p t).
Proof.
  intros Hlt s Hs. right. exists t'. split; [|exact Hlt].
  unfold exec, await, modify. cbn. now rewrite Hs.
Qed.

Lemma chained_frame (f : state -> state) :
  (forall s, pending (f s) = pending s) -> preserves (chained p t) (modify f).
Proof.
  intros Hf s Hs. unfold exec, modify, chained in *. cbn. now rewrite Hf.
Qed.
End Chains.

Ltac chain :=
  repeat first
    [ apply chain_try; [ | first [ apply preserves_ret
                                 | apply chained_frame; reflexivity ] ]
    | apply chain_await; simpl; lia
    | apply chain_bind; [ solve [ frame ] | intro ]
    | match goal with
      | |- hoare _ (match ?x with _ => _ end) _ => destruct x
      | |- hoare _ (let _ := _ in _) _ => cbv zeta
      end
    | apply chain_keep; solve [ frame ]
    | progress autounfold with methods ].

Lemma resume_chained (h : host) (t : task) (o : outcome) (r1 r2 : Q) (p : list task) :
  hoare (fun s => pending s = p) (resume h t o r1 r2) (chained p t).
Proof. destruct t; simpl; chain. Qed.

Lemma outstanding_app (p q : list task) :
  outstanding (p ++ q) = (outstanding p + outstanding q)%nat.
Proof. unfold outstanding. now rewrite map_app, list_sum_app. Qed.

Lemma outstanding_remove (i : nat) (p : list task) (t : task) :
  nth_error p i = Some t ->
  outstanding p = (S (follow_ups t) + outstanding (remove_nth i p))%nat.
Proof.
  revert i. induction p as [|x p IH]; intros [|i]; simpl; try discriminate.
  - now intros [= ->].
  - intros Hn. unfold outstanding in *. simpl. rewrite (IH i Hn). lia.
Qed.

Lemma length_le_outstanding (p : list task) : (List.length p <= outstanding p)%nat.
Proof. unfold outstanding. induction p as [|x p IH]; simpl; lia. Qed.

Lemma settle_outstanding (h : host) (i : nat) (o : outcome) (r1 r2 : Q) (t : task)
    (s : state) :
  nth_error (pending s) i = Some t ->
  (outstanding (pending (step h s (ESettle i o r1 r2))) < outstanding (pending s))%nat.
Proof.
  intros Hn. unfold step. cbn [handler]. rewrite (settle_found h i o r1 r2 t s Hn).
  rewrite (outstanding_remove i (pending s) t Hn).
  destruct (resume_chained h t o r1 r2 (remove_nth i (pending s))
              (set_pending (remove_nth i (pending s)) s) eq_refl) as [->|(t' & -> & Hlt)].
  - lia.
  - rewrite outstanding_app. unfold outstanding at 2. simpl. lia.
Qed.

Lemma pending_resetMap (h : host) (p : list task) :
  preserves (fun s => pending s = p) (resetMap h).
Proof. unfold resetMap, read. frame. Qed.

Lemma user_outstanding (h : host) (e : event) (s : state) :
  is_user e = true ->
  (outstanding (pending (step h s e)) <= 3 + outstanding (pending s))%nat.
Proof.
  intros Hu. unfold step.
  assert (Hsame : forall m : M unit,
             preserves (fun s' => pending s' = pending s) m ->
             (outstanding (pending (exec m s)) <= 3 + outstanding (pending s))%nat).
  { intros m Hm. rewrite (Hm s eq_refl). lia. }
  destruct e as [|code|code|code|code| |]; cbn [handler]; try discriminate.
  - apply Hsame. unfold init. frame.
  - destruct code as [|c code].
    + apply Hsame. unfold selectProvince. cbn [String.eqb].
      apply preserves_bind; [apply pending_resetMap | intros _; frame].
    + destruct (selectProvince_code h (String c code) s) as (_ & -> & _); [discriminate|].
      rewrite outstanding_app. unfold outstanding at 2. simpl. lia.
  - destruct code as [|c code].
    + apply Hsame. unfold selectCity. cbn [String.eqb]. frame.
    + rewrite (selectCity_code (String c code) s) by discriminate.
      cbn [pending set_pending]. rewrite outstanding_app.
      unfold outstanding at 2. simpl. lia.
  - destruct code as [|c code].
    + apply Hsame. unfold selectDistrict. cbn [String.eqb]. frame.
    + rewrite (selectDistrict_code (String c code) s) by discriminate.
      cbn [pending set_pending]. rewrite outstanding_app.
      unfold outstanding at 2. simpl. lia.
  - destruct code as [|c code].
    + apply Hsame. unfold selectVillage. cbn [String.eqb]. frame.
    + rewrite (selectVillage_code (String c code) s) by discriminate.
      cbn [pending set_pending]. rewrite outstanding_app.
      unfold outstanding at 2. simpl. lia.
  - apply Hsame. apply pending_resetMap.
Qed.

Lemma settle_missing (h : host) (i : nat) (o : outcome) (r1 r2 : Q) (s : state) :
  nth_error (pending s) i = None -> step h s (ESettle i o r1 r2) = s.
Proof.
  intros Hn. unfold step, exec. cbn [handler]. unfold settle.
  rewrite bind_gets_eq, Hn. reflexivity.
Qed.

Lemma delivered_bound (h : host) (es : list event) (s : state) :
  (delivered h es s + outstanding (pending (run h es s))
   <= outstanding (pending s) + 3 * List.length (filter is_user es))%nat.
Proof.
  revert s. induction es as [|e es IH]; intros s; [simpl; lia|].
  cbn [delivered run fold_left filter]. specialize (IH (step h s e)).
  change (fold_left (step h) es (step h s e)) with (run h es (step h s e)).
  destruct (is_user e) eqn:Hu.
  - pose proof (user_outstanding h e s Hu) as Hs.
    destruct e; try discriminate; cbn [List.length]; lia.
  - destruct e as [| | | | | |i o r1 r2]; try discriminate.
    destruct (Nat.ltb_spec i (List.length (pending s))) as [Hlt|Hge].
    + destruct (nth_error (pending s) i) as [t|] eqn:Hn;
        [|apply nth_error_None in Hn; lia].
      pose proof (settle_outstanding h i o r1 r2 t s Hn). lia.
    + assert (Hn : nth_error (pending s) i = None) by now apply nth_error_None.
      rewrite (settle_missing h i o r1 r2 s Hn) in *. lia.
Qed.

(** X5. The selection chain cannot flood the API.  Along every run of
    the page, the responses delivered so far and the requests still pending
    add up to at most three per user action: a selection causes one request,
    whose answer causes at most one more, whose answer causes at most one
    more (the province list loaded at start-up is outside this model).  And
    the chain always comes to an end: the answer to a pending request
    strictly decreases the number of requests that are pending or can still
    follow. *)
Theorem three_requests_per_action (h : host) (d : dom) (es : list event) :
  (delivered h es (initial d) + List.length (pending (run h es (initial d)))
   <= 3 * List.length (filter is_user es))%nat /\
  (forall s i o r1 r2 t,
      nth_error (pending s) i = Some t ->
      (outstanding (pending (step h s (ESettle i o r1 r2)))
       < outstanding (pending s))%nat).
Proof.
  split.
  - pose proof (delivered_bound h es (initial d)) as H.
    pose proof (length_le_outstanding (pending (run h es (initial d)))) as Hl.
    cbn [pending initial] in H. unfold outstanding at 2 in H. simpl in H. lia.
  - intros s i o r1 r2 t. apply settle_outstanding.
Qed.

Lemma three_requests_per_action_witness :
  nth_error (pending (step Reference.browser Reference.ready (ESelectDistrict "317101"))) 0
    = Some (KDistrictDetail "317101") /\
  (outstanding
     (pending (step Reference.browser
                 (step Reference.browser Reference.ready (ESelectDistrict "317101"))
                 (ESettle 0 (Fulfilled (Reference.detail_body "GAMBIR")) 0 0)))
   < outstanding
       (pending (step Reference.browser Reference.ready (ESelectDistrict "317101"))))%nat.
Proof.
  split; [reflexivity|].
  exact (proj2 (three_requests_per_action Reference.browser Reference.page [])
           (step Reference.browser Reference.ready (ESelectDistrict "317101")) 0%nat
           (Fulfilled (Reference.detail_body "GAMBIR")) 0 0 (KDistrictDetail "317101")
           eq_refl).
Defined.

End RequestFacts.

(** ** What is on the map *)

Module LayerFacts.
Import Polygon App Logic Protocol Rules Overlays Frames PolygonFacts.
Local Open Scope js_scope.

Lemma wf_modify (f : state -> state) :
  (forall s l, In l (live_layers (f s)) -> In l (live_layers s)) ->
  (forall s sl l, slot_get sl (f s) = Some l -> slot_get sl s = Some l) ->
  preserves all_well_formed (modify f).
Proof.
  intros Hl Hg s [W1 W2]. unfold exec, modify. cbn. split.
  - intros l Hin. apply W1, Hl, Hin.
  - intros sl l Hs. apply (W2 sl), Hg, Hs.
Qed.

Lemma wf_on_document (f : dom -> dom) : preserves all_well_formed (on_document f).
Proof. apply wf_modify; intros s; [auto | intros sl; destruct sl; auto]. Qed.

Lemma wf_await (t : task) : preserves all_well_formed (await t).
Proof. apply wf_modify; intros s; [auto | intros sl; destruct sl; auto]. Qed.

Lemma wf_select (f : state -> selection) :
  preserves all_well_formed (modify (fun s => set_selectedLocation (f s) s)).
Proof. apply wf_modify; intros s; [auto | intros sl; destruct sl; auto]. Qed.

Lemma wf_unset (sl : slot) : preserves all_well_formed (modify (slot_set sl None)).
Proof.
  apply wf_modify; intros s.
  - rewrite live_slot_set. auto.
  - intros sl' l. destruct sl, sl'; cbn; auto; discriminate.
Qed.

Lemma wf_unbind_province :
  preserves all_well_formed (modify (set_provinceBoundaryLayer (Bound None))).
Proof. apply wf_modify; intros s; [auto | intros sl; destruct sl; auto]. Qed.

Lemma wf_unbind_city :
  preserves all_well_formed (modify (set_cityBoundaryLayer (Bound None))).
Proof. apply wf_modify; intros s; [auto | intros sl; destruct sl; auto]. Qed.

Lemma wf_map_setView (h : host) (c : jsnum * jsnum) (z : Z) :
  preserves all_well_formed (map_setView h c z).
Proof.
  intros s [W1 W2]. unfold exec, map_setView. destruct (map s) as [m|] eqn:Hm; cbn;
    [|now split].
  split.
  - intros l Hin. apply W1. unfold live_layers in *. rewrite Hm. exact Hin.
  - intros sl l. rewrite slot_get_set_map. apply W2.
Qed.

Lemma wf_map_removeLayer (l0 : layer) : preserves all_well_formed (map_removeLayer l0).
Proof.
  intros s [W1 W2]. unfold exec, map_removeLayer. destruct (map s) as [m|] eqn:Hm; cbn;
    [|now split].
  split.
  - intros l Hin. apply W1. unfold live_layers in *. rewrite Hm. cbn in Hin.
    now apply In_without in Hin.
  - intros sl l. rewrite slot_get_set_map. apply W2.
Qed.

Lemma wf_map_setMaxBounds (h : host) (b : bounds) :
  preserves all_well_formed (map_setMaxBounds h b).
Proof.
  intros s [W1 W2]. unfold exec, map_setMaxBounds.
  destruct (map s) as [m|] eqn:Hm; cbn; [|now split].
  split.
  - intros l Hin. apply W1. unfold live_layers in *. rewrite Hm. exact Hin.
  - intros sl l. rewrite slot_get_set_map. apply W2.
Qed.

Lemma wf_L_map (c : jsnum * jsnum) (z : Z) : preserves all_well_formed (L_map c z).
Proof.
  intros s [W1 W2]. unfold exec, L_map. destruct (map s) as [m|] eqn:Hm; cbn;
    [now split|].
  split.
  - intros l [].
  - intros sl l. rewrite slot_get_set_map. apply W2.
Qed.

Lemma wf_init (h : host) : preserves all_well_formed (init h).
Proof.
  unfold init. apply preserves_bind; [apply wf_L_map | intros _].
  apply wf_map_setMaxBounds.
Qed.

Lemma wf_place {B : Type} (sl : slot) (b : bool) (sh : overlay) (e : error)
    (rest : M B) :
  well_formed sh = true ->
  preserves all_well_formed rest ->
  preserves all_well_formed
    (l <- (if b then new_layer sh else throw e);;
     l <- addTo_map l;;
     modify (slot_set sl (Some l));;
     rest).
Proof.
  intros Hsh Hrest s [W1 W2]. unfold exec, bind. destruct b; cbn; [|now split].
  assert (Wn : all_well_formed (set_next_lid (S (next_lid s)) s)).
  { split; [exact W1 | intros sl' l; rewrite slot_get_set_next; apply W2]. }
  unfold addTo_map. cbn [map set_next_lid].
  destruct (map s) as [m|] eqn:Hm; cbn; [|exact Wn].
  apply Hrest. split.
  - intros l. rewrite live_slot_set. unfold live_layers. cbn. intros Hin.
    apply in_app_or in Hin as [Hin|[<-|[]]]; [|exact Hsh].
    apply W1. unfold live_layers. now rewrite Hm.
  - intros sl' l. destruct (slot_eqb sl sl') eqn:He.
    + apply slot_eqb_eq in He as <-. rewrite slot_get_set_same. now intros [= <-].
    + rewrite slot_get_set_other.
      * rewrite slot_get_set_map, slot_get_set_next. apply W2.
      * intros ->. destruct sl'; discriminate.
Qed.

Lemma wf_place_last (sl : slot) (b : bool) (sh : overlay) (e : error) :
  well_formed sh = true ->
  preserves all_well_formed
    (l <- (if b then new_layer sh else throw e);;
     l <- addTo_map l;;
     modify (slot_set sl (Some l))).
Proof.
  intros Hsh s W.
  pose proof (wf_place sl b sh e (ret tt) Hsh (preserves_ret _ tt) s W) as H.
  unfold exec, bind in *. destruct b; cbn in *; [|exact H].
  unfold addTo_map in *. cbn [map set_next_lid] in *.
  destruct (map s); exact H.
Qed.

Lemma wf_lift {A B : Type} (r : result A) (k : A -> M B) :
  (forall a, r = Ok a -> preserves all_well_formed (k a)) ->
  preserves all_well_formed (bind (lift r) k).
Proof.
  intros Hk s W. unfold exec, bind, lift. destruct r as [a|e]; [|exact W].
  now apply (Hk a eq_refl).
Qed.

#[local] Hint Resolve wf_on_document wf_await wf_select wf_unset wf_unbind_province
  wf_unbind_city wf_map_setView wf_map_removeLayer wf_init : frames.

Ltac wf_step :=
  lazymatch goal with
  | |- preserves all_well_formed _ =>
      first [ solve [ eauto 2 with frames ]
            | with_slot (@wf_place unit); [ solve [ cbn; assumption | reflexivity ] | ]
            | with_slot wf_place_last; [ solve [ cbn; assumption | reflexivity ] ]
            | with_slot wf_unset
            | solve [ apply wf_modify; intros ?s; [ auto | intros sl; destruct sl; auto ] ]
            | lazymatch goal with
              | |- preserves _ (match ?x with _ => _ end) => destruct x eqn:?
              | |- preserves _ (modify (fun s => set_selectedLocation _ s)) =>
                  apply wf_select
              | |- preserves _ (modify (set_selectedLocation _)) =>
                  apply (wf_select (fun _ => _))
              end
            | frame_rule ]
  end.

Ltac wf := repeat wf_step.

Section WellFormed.
Variable h : host.

Lemma rings_well_formed (lvl : level) (pc : value) (r : ring) (rs : list ring) :
  polygons_of h pc = Ok (r :: rs) -> well_formed (Boundary lvl (r :: rs)) = true.
Proof.
  intros Hp. apply polygons_of_length in Hp. cbn [well_formed].
  apply forallb_forall. intros x Hx. rewrite Forall_forall in Hp.
  apply Nat.leb_le. now apply Hp.
Qed.

Lemma wf_showProvinceBoundary (g : value) :
  preserves all_well_formed (showProvinceBoundary h g).
Proof.
  unfold showProvinceBoundary. apply preserves_try; [|apply preserves_ret].
  destruct (truthy g); [|apply preserves_ret].
  apply preserves_bind; [apply preserves_lift | intros path].
  destruct (truthy path); [|apply preserves_ret].
  apply preserves_bind; [apply preserves_gets | intros cur].
  apply preserves_bind; [destruct cur; [apply wf_map_removeLayer | apply preserves_ret]
                        | intros _].
  destruct (decode_path h path) as [pc|]; [|apply preserves_ret].
  apply wf_lift. intros [|r rs] Hp; [apply preserves_ret|].
  unfold L_polygon. apply (wf_place_last SProvinceBoundary).
  now apply (rings_well_formed Province pc).
Qed.

Lemma wf_showCityBoundary (g : value) :
  preserves all_well_formed (showCityBoundary h g).
Proof.
  unfold showCityBoundary. apply preserves_try; [|apply preserves_ret].
  destruct (truthy g); [|apply preserves_ret].
  apply preserves_bind; [apply preserves_lift | intros path].
  destruct (truthy path); [|apply preserves_ret].
  apply preserves_bind; [apply preserves_gets | intros cur].
  apply preserves_bind; [destruct cur; [apply wf_map_removeLayer | apply preserves_ret]
                        | intros _].
  destruct (decode_path h path) as [pc|]; [|apply preserves_ret].
  apply wf_lift. intros [|r rs] Hp; [apply preserves_ret|].
  unfold L_polygon. apply (wf_place_last SCityBoundary).
  now apply (rings_well_formed City pc).
Qed.

Hint Resolve wf_showProvinceBoundary wf_showCityBoundary : frames.

Lemma wf_resume (t : task) (o : outcome) (r1 r2 : Q) :
  preserves all_well_formed (resume h t o r1 r2).
Proof. destruct t; wf. Qed.

Lemma wf_resetMap : preserves all_well_formed (resetMap h).
Proof. unfold resetMap, read. wf. Qed.

Lemma wf_handler (e : event) : preserves all_well_formed (handler h e).
Proof.
  destruct e; simpl.
  - apply wf_init.
  - unfold selectProvince. destruct (String.eqb code "").
    + apply preserves_bind; [apply wf_resetMap | intros _; wf].
    + wf.
  - unfold selectCity. wf.
  - unfold selectDistrict. wf.
  - unfold selectVillage. wf.
  - apply wf_resetMap.
  - unfold settle. apply preserves_bind; [apply preserves_gets | intros ts].
    destruct (nth_error ts i) as [t|]; [|apply preserves_ret].
    apply preserves_bind; [wf | intros _; apply wf_resume].
Qed.
End WellFormed.

Lemma wf_reachable (h : host) (d : dom) (es : list event) :
  all_well_formed (run h es (initial d)).
Proof.
  assert (H : forall s, all_well_formed s -> all_well_formed (run h es s)).
  { induction es as [|e es IH]; intros s W; [exact W|].
    simpl. apply IH. now apply wf_handler. }
  apply H. split; [intros l [] | intros sl l; destruct sl; discriminate].
Qed.

(** X6. Whatever the responses were, every province or city marker on
    the map has a numeric latitude and longitude, and every boundary on the
    map has at least one ring, each ring with at least three points.  This
    is what the script checks itself, for every host: it does not depend on
    what Leaflet accepts. *)
Theorem layers_are_well_formed (h : host) (d : dom) (es : list event) :
  let s := run h es (initial d) in
  (forall l lat lng popup,
      In l (live_layers s) ->
      shape l = Marker Province lat lng popup \/ shape l = Marker City lat lng popup ->
      is_nan lat = false /\ is_nan lng = false) /\
  (forall l lvl rings,
      In l (live_layers s) -> shape l = Boundary lvl rings ->
      rings <> [] /\ Forall (fun r => (3 <= List.length r)%nat) rings).
Proof.
  intros s. destruct (wf_reachable h d es) as [W _]. fold s in W. split.
  - intros l lat lng popup Hin Hsh. specialize (W l Hin).
    destruct Hsh as [Hsh|Hsh]; rewrite Hsh in W; cbn in W;
      apply andb_true_iff in W as [Ha Hb];
      apply negb_true_iff in Ha, Hb; now split.
  - intros l lvl rings Hin Hsh. specialize (W l Hin). rewrite Hsh in W. cbn in W.
    destruct rings as [|r rs]; [discriminate|]. split; [discriminate|].
    apply Forall_forall. intros x Hx. rewrite forallb_forall in W.
    apply Nat.leb_le. now apply W.
Qed.

Lemma layers_are_well_formed_witness :
  (In {| lid := 0;
         shape := Marker Province (Num (-62 # 10)) (Num (1068 # 10))
                    Reference.jakarta_data |}
      (live_layers
         (run Reference.browser
            [EInit; ESelectProvince "31"; ESettle 0 (Fulfilled Reference.jakarta) 0 0]
            (initial Reference.page)))) /\
  (is_nan (Num (-62 # 10)) = false /\ is_nan (Num (1068 # 10)) = false).
Proof.
  assert (Hin : In {| lid := 0;
                      shape := Marker Province (Num (-62 # 10)) (Num (1068 # 10))
                                 Reference.jakarta_data |}
                   (live_layers
                      (run Reference.browser
                         [EInit; ESelectProvince "31";
                          ESettle 0 (Fulfilled Reference.jakarta) 0 0]
                         (initial Reference.page)))).
  { vm_compute. left. reflexivity. }
  split; [exact Hin|].
  pose proof (layers_are_well_formed Reference.browser Reference.page
                [EInit; ESelectProvince "31";
                 ESettle 0 (Fulfilled Reference.jakarta) 0 0]) as H.
  cbv zeta in H.
  exact (proj1 H _ (Num (-62 # 10)) (Num (1068 # 10)) Reference.jakarta_data Hin
           (or_introl eq_refl)).
Defined.

End LayerFacts.

(** ** The provinces table *)

Module TableFacts.
Import Protocol Table.
Local Open Scope table_scope.

Lemma record_field (k : string) (item : value) :
  nullish item = false -> get_prop k item = Ok (field k item).
Proof. destruct item; simpl; intros H; try discriminate; reflexivity. Qed.

Lemma in_skipn {A : Type} (n : nat) (l : list A) (x : A) :
  In x (skipn n l) -> In x l.
Proof. intros H. rewrite <- (firstn_skipn n l). apply in_or_app. now right. Qed.

Lemma in_firstn {A : Type} (n : nat) (l : list A) (x : A) :
  In x (firstn n l) -> In x l.
Proof. intros H. rewrite <- (firstn_skipn n l). apply in_or_app. now left. Qed.

Lemma mod5_shift (i r : nat) :
  (i mod 5 = 0)%nat -> (r < 5)%nat -> ((r + i) mod 5 = r)%nat.
Proof.
  intros Hi Hr. pose proof (Nat.div_mod_eq i 5) as Hd. rewrite Hi, Nat.add_0_r in Hd.
  rewrite Hd, (Nat.mul_comm 5), Nat.Div0.mod_add. now apply Nat.mod_small.
Qed.

Lemma schedule_short (i : nat) (batch : list value) :
  (i mod 5 = 0)%nat -> (List.length batch <= 5)%nat ->
  schedule i batch = List.map Requested batch.
Proof.
  intros Hi Hlen.
  assert (H1 : ((S i) mod 5 = 1)%nat) by (apply (mod5_shift i 1 Hi); lia).
  assert (H2 : ((S (S i)) mod 5 = 2)%nat) by (apply (mod5_shift i 2 Hi); lia).
  assert (H3 : ((S (S (S i))) mod 5 = 3)%nat) by (apply (mod5_shift i 3 Hi); lia).
  assert (H4 : ((S (S (S (S i)))) mod 5 = 4)%nat) by (apply (mod5_shift i 4 Hi); lia).
  destruct batch as [|a [|b [|c [|d [|e [|f rest]]]]]]; simpl in Hlen; try lia;
    unfold schedule, batchSize; rewrite ?H1, ?H2, ?H3, ?H4; cbn [Nat.eqb andb app List.map];
    try reflexivity.
  destruct (_ mod 5 =? 0)%nat; reflexivity.
Qed.

Lemma schedule_full (i : nat) (a b c d e : value) (rest : list value) :
  (i mod 5 = 0)%nat -> rest <> [] ->
  schedule i (a :: b :: c :: d :: e :: rest)
  = List.map Requested [a; b; c; d; e] ++ [Waited] ++ schedule (i + 5) rest.
Proof.
  intros Hi Hrest.
  assert (H1 : ((S i) mod 5 = 1)%nat) by (apply (mod5_shift i 1 Hi); lia).
  assert (H2 : ((S (S i)) mod 5 = 2)%nat) by (apply (mod5_shift i 2 Hi); lia).
  assert (H3 : ((S (S (S i))) mod 5 = 3)%nat) by (apply (mod5_shift i 3 Hi); lia).
  assert (H4 : ((S (S (S (S i)))) mod 5 = 4)%nat) by (apply (mod5_shift i 4 Hi); lia).
  assert (H5 : ((S (S (S (S (S i))))) mod 5 = 0)%nat).
  { change (S (S (S (S (S i))))) with (5 + i)%nat.
    rewrite <- (Nat.mul_1_l 5) at 1. rewrite Nat.add_comm, Nat.Div0.mod_add. exact Hi. }
  destruct rest as [|f rest]; [congruence|].
  cbn [schedule]. unfold batchSize. rewrite H1, H2, H3, H4, H5.
  cbn [Nat.eqb andb negb app List.map].
  replace (i + 5)%nat with (S (S (S (S (S i))))) by lia. reflexivity.
Qed.

Section Facts.
Variable h : host.
Variable to_text : value -> string.
Variable selector_ok : string -> bool.
Variable answers : nat -> App.outcome.

Lemma set_cells_answer (key : string) (o : App.outcome) (rows : list row) (i : nat)
    (c2 c3 c4 : cell) :
  first_row key rows = Some i ->
  (forall r, shown h o r
             = {| row_code := row_code r; capital := c2; population := c3; area := c4 |}) ->
  set_cells i c2 c3 c4 rows = answer h key o rows.
Proof.
  intros Hf Hs. revert i Hf. induction rows as [|r rows IH]; intros i Hf; [discriminate|].
  simpl in *. destruct (String.eqb (row_code r) key).
  - injection Hf as <-. simpl. now rewrite Hs.
  - destruct (first_row key rows) as [j|]; [|discriminate].
    injection Hf as <-. simpl. now rewrite (IH j eq_refl).
Qed.

Lemma answer_missing (key : string) (o : App.outcome) (rows : list row) :
  first_row key rows = None -> answer h key o rows = rows.
Proof.
  induction rows as [|r rows IH]; simpl; [reflexivity|].
  destruct (String.eqb (row_code r) key); [discriminate|].
  destruct (first_row key rows); [discriminate|]. intros _. now rewrite IH.
Qed.

Lemma answer_unchanged (key : string) (o : App.outcome) (rows : list row) :
  (forall r, shown h o r = r) -> answer h key o rows = rows.
Proof.
  intros Hs. induction rows as [|r rows IH]; simpl; [reflexivity|].
  destruct (String.eqb (row_code r) key); [now rewrite Hs | now rewrite IH].
Qed.

Lemma geo_record (response geo : value) :
  App.success_and_data response = Ok (Some geo) -> nullish geo = false.
Proof.
  unfold App.success_and_data.
  destruct (get_prop "success" response) as [ok|]; [|discriminate].
  destruct (truthy ok); [|discriminate].
  destruct (get_prop "data" response) as [data|]; [|discriminate].
  destruct (truthy data) eqn:Ht; [|discriminate].
  intros [= <-]. destruct data; try reflexivity; discriminate.
Qed.

(** A callback on a table of rows, for a province that is a record with
    a code that fits a selector: it returns. *)
Lemma detail_returns (province : value) (o : App.outcome) (rows : list row)
    (l : list effect) :
  fit to_text selector_ok province = true ->
  detail h to_text selector_ok province o {| tbody := Some (Rows rows); log := l |}
  = (Ok tt, {| tbody := Some (Rows (answer h (to_text (code_of province)) o rows));
               log := l ++ [Requested (code_of province)] |}).
Proof.
  unfold fit. intros Hfit. apply andb_true_iff in Hfit as [Hn Hok].
  apply negb_true_iff in Hn.
  unfold detail, try_catch, bind, lift, request, modify, code_of.
  rewrite (record_field "kode_provinsi" province Hn). cbn.
  destruct o as [|response]; cbn.
  - unfold querySelector. cbn. unfold code_of in Hok. rewrite Hok.
    destruct (first_row _ rows) as [i|] eqn:Hf; cbn.
    + unfold write_cells, modify. cbn.
      now rewrite (set_cells_answer _ App.Rejected rows i _ _ _ Hf).
    + now rewrite answer_missing.
  - destruct (App.success_and_data response) as [[geo|]|e] eqn:Hsd; cbn.
    + unfold querySelector. cbn. unfold code_of in Hok. rewrite Hok.
      destruct (first_row _ rows) as [i|] eqn:Hf; cbn.
      * pose proof (geo_record response geo Hsd) as Hg.
        rewrite !(record_field _ geo Hg). unfold write_cells, modify. cbn.
        rewrite (set_cells_answer _ (App.Fulfilled response) rows i _ _ _ Hf);
          [reflexivity|].
        intros r. cbn. now rewrite Hsd.
      * now rewrite answer_missing.
    + rewrite answer_unchanged; [reflexivity|]. intros r. cbn. now rewrite Hsd.
    + unfold querySelector. cbn. unfold code_of in Hok. rewrite Hok.
      destruct (first_row _ rows) as [i|] eqn:Hf; cbn.
      * unfold write_cells, modify. cbn.
        rewrite (set_cells_answer _ (App.Fulfilled response) rows i _ _ _ Hf);
          [reflexivity|].
        intros r. cbn. now rewrite Hsd.
      * now rewrite answer_missing.
Qed.

Lemma promise_all_returns (i : nat) (batch : list value) (rows : list row)
    (l : list effect) :
  forallb (fit to_text selector_ok) batch = true ->
  promise_all (callbacks h to_text selector_ok i batch answers)
    {| tbody := Some (Rows rows); log := l |}
  = (Ok tt, {| tbody := Some (Rows (answer_all h to_text answers i batch rows));
               log := l ++ List.map Requested (List.map code_of batch) |}).
Proof.
  revert i rows l. induction batch as [|province batch IH]; intros i rows l Hfit.
  - simpl. now rewrite app_nil_r.
  - simpl in Hfit. apply andb_true_iff in Hfit as [Hp Hb].
    cbn [callbacks promise_all]. rewrite (detail_returns province _ rows l Hp).
    rewrite (IH (S i) _ _ Hb). cbn [List.map answer_all]. now rewrite <- app_assoc.
Qed.

Lemma answer_all_app (j : nat) (a b : list value) (rows : list row) :
  answer_all h to_text answers j (a ++ b) rows
  = answer_all h to_text answers (j + List.length a) b
      (answer_all h to_text answers j a rows).
Proof.
  revert j rows. induction a as [|x a IH]; intros j rows; simpl.
  - now rewrite Nat.add_0_r.
  - rewrite IH. f_equal. lia.
Qed.

(** With enough fuel the loop runs to its end. *)
Lemma batches_complete (provinces : list value) (fuel i : nat) (rows : list row)
    (l : list effect) :
  forallb (fit to_text selector_ok) provinces = true ->
  (i mod 5 = 0)%nat ->
  (List.length provinces - i < fuel)%nat ->
  batches h to_text selector_ok fuel i provinces answers
    {| tbody := Some (Rows rows); log := l |}
  = Some (Ok tt,
          {| tbody := Some (Rows (answer_all h to_text answers i (skipn i provinces) rows));
             log := l ++ schedule i (List.map code_of (skipn i provinces)) |}).
Proof.
  intros Hfit. revert i rows l. induction fuel as [|fuel IH]; intros i rows l Hi Hfuel.
  - lia.
  - cbn [batches]. destruct (Nat.ltb_spec i (List.length provinces)) as [Hlt|Hge].
    + unfold slice, batchSize. replace (i + 5 - i)%nat with 5%nat by lia.
      set (rest := skipn i provinces).
      assert (Hrest : forallb (fit to_text selector_ok) rest = true).
      { apply forallb_forall. intros x Hx. rewrite forallb_forall in Hfit.
        apply Hfit. unfold rest in Hx. eapply in_skipn. exact Hx. }
      assert (Hlen : List.length rest = (List.length provinces - i)%nat)
        by (unfold rest; apply length_skipn).
      assert (Hnext : skipn (i + 5) provinces = skipn 5 rest).
      { unfold rest. rewrite skipn_skipn. f_equal. lia. }
      assert (Hbatch : forallb (fit to_text selector_ok) (firstn 5 rest) = true).
      { apply forallb_forall. intros x Hx. rewrite forallb_forall in Hrest.
        apply Hrest. eapply in_firstn. exact Hx. }
      rewrite (promise_all_returns i (firstn 5 rest) rows l Hbatch).
      destruct (Nat.ltb_spec (i + 5) (List.length provinces)) as [Hmore|Hlast].
      * assert (Hrows : answer_all h to_text answers i rest rows
                        = answer_all h to_text answers (i + 5) (skipn 5 rest)
                            (answer_all h to_text answers i (firstn 5 rest) rows)).
        { rewrite <- (firstn_skipn 5 rest) at 1. rewrite answer_all_app.
          f_equal. rewrite length_firstn. lia. }
        assert (Hlog : schedule i (List.map code_of rest)
                       = List.map Requested (List.map code_of (firstn 5 rest))
                         ++ [Waited] ++ schedule (i + 5) (List.map code_of (skipn 5 rest))).
        { destruct rest as [|a [|b [|c [|d [|e rest']]]]]; simpl in Hlen; try lia.
          cbn [firstn skipn List.map].
          rewrite (schedule_full i); [reflexivity | exact Hi |].
          destruct rest'; [simpl in Hlen; lia | discriminate]. }
        cbn [delay modify tbody log].
        rewrite IH.
        -- rewrite Hnext, Hrows, Hlog, <- !app_assoc. reflexivity.
        -- rewrite <- (Nat.mul_1_l 5) at 1. rewrite Nat.Div0.mod_add. exact Hi.
        -- lia.
      * cbn [ret].
        assert (Hshort : firstn 5 rest = rest) by (apply firstn_all2; lia).
        rewrite Hshort.
        assert (Hdone : batches h to_text selector_ok fuel (i + 5) provinces answers
                          {| tbody := Some (Rows (answer_all h to_text answers i rest rows));
                             log := l ++ List.map Requested (List.map code_of rest) |}
                        = Some (Ok tt,
                                {| tbody := Some (Rows (answer_all h to_text answers i rest
                                                          rows));
                                   log := l ++ List.map Requested
                                                 (List.map code_of rest) |})).
        { destruct fuel as [|fuel']; [lia|]. cbn [batches].
          destruct (Nat.ltb_spec (i + 5) (List.length provinces)); [lia | reflexivity]. }
        rewrite Hdone. rewrite schedule_short; [reflexivity | exact Hi |].
        rewrite length_map. lia.
    + assert (Hs : skipn i provinces = []) by (apply skipn_all2; lia).
      rewrite Hs. simpl. now rewrite app_nil_r.
Qed.

Lemma batches_terminate (provinces : list value) (fuel i : nat) (p : page) :
  (List.length provinces - i < fuel)%nat ->
  exists r p', batches h to_text selector_ok fuel i provinces answers p = Some (r, p').
Proof.
  revert i p. induction fuel as [|fuel IH]; intros i p Hfuel; [lia|].
  cbn [batches]. destruct (Nat.ltb_spec i (List.length provinces)) as [Hlt|Hge];
    [|eauto].
  destruct (promise_all _ p) as [[[]|e] p']; [|eauto].
  destruct (Nat.ltb_spec (i + batchSize) (List.length provinces)); cbn;
    apply IH; unfold batchSize; lia.
Qed.

Lemma basic_rows_records (provinces : list value) :
  forallb (fit to_text selector_ok) provinces = true ->
  basic_rows to_text provinces = Ok (List.map (basic_row to_text) provinces).
Proof.
  induction provinces as [|province rest IH]; simpl; intros Hfit; [reflexivity|].
  apply andb_true_iff in Hfit as [Hp Hr]. apply andb_true_iff in Hp as [Hn _].
  apply negb_true_iff in Hn. rewrite (record_field _ province Hn), (IH Hr).
  reflexivity.
Qed.

Lemma row_code_shown (o : App.outcome) (r : row) : row_code (shown h o r) = row_code r.
Proof.
  unfold shown. destruct o as [|response]; [reflexivity|].
  destruct (App.success_and_data response) as [[geo|]|]; reflexivity.
Qed.

Lemma answer_past (key : string) (o : App.outcome) (done rows : list row) :
  ~ In key (List.map row_code done) ->
  answer h key o (done ++ rows) = done ++ answer h key o rows.
Proof.
  induction done as [|r done IH]; simpl; intros Hnot; [reflexivity|].
  destruct (String.eqb_spec (row_code r) key) as [He|Hne]; [tauto|].
  rewrite IH; [reflexivity | tauto].
Qed.

Lemma answer_all_basic (j : nat) (provinces : list value) (done : list row) :
  NoDup (List.map (fun province => to_text (code_of province)) provinces) ->
  (forall province, In province provinces ->
                    ~ In (to_text (code_of province)) (List.map row_code done)) ->
  answer_all h to_text answers j provinces (done ++ List.map (basic_row to_text) provinces)
  = done ++ final_rows h to_text answers j provinces.
Proof.
  revert j done. induction provinces as [|province rest IH]; intros j done Hnd Hdone;
    [reflexivity|].
  cbn [answer_all List.map final_rows]. rewrite answer_past by (apply Hdone; now left).
  cbn [answer basic_row row_code]. rewrite String.eqb_refl.
  change (done ++ ?x :: ?y) with (done ++ [x] ++ y). rewrite app_assoc.
  inversion Hnd as [|? ? Hnotin Hnd']; subst.
  rewrite IH; [now rewrite <- app_assoc | exact Hnd' |].
  intros q Hq Hin. rewrite map_app in Hin. apply in_app_or in Hin as [Hin|Hin].
  - apply (Hdone q); [now right | exact Hin].
  - simpl in Hin. destruct Hin as [Hin|[]]. rewrite row_code_shown in Hin.
    cbn [basic_row row_code] in Hin. apply Hnotin. rewrite Hin.
    apply in_map_iff. now exists q.
Qed.

Lemma final_rows_nth (i j : nat) (provinces : list value) (province : value) :
  nth_error provinces j = Some province ->
  nth_error (final_rows h to_text answers i provinces) j
  = Some (shown h (answers (i + j)%nat) (basic_row to_text province)).
Proof.
  revert i j. induction provinces as [|x rest IH]; intros i [|j]; simpl; try discriminate.
  - intros [= ->]. now rewrite Nat.add_0_r.
  - intros Hn. rewrite (IH (S i) j Hn). do 3 f_equal. lia.
Qed.

Lemma final_rows_length (i : nat) (provinces : list value) :
  List.length (final_rows h to_text answers i provinces) = List.length provinces.
Proof. revert i. induction provinces as [|x rest IH]; intros i; simpl; auto. Qed.

End Facts.

(** X7. The loop of [loadDetailedProvinceData] comes to an end for every
    list and all answers.  On a table of rows, for records whose codes fit
    a selector, it returns after asking for every province exactly once, in
    the order of the list, with a pause after every fifth request and none
    after the last: five requests at most go out together. *)
Theorem requests_are_paced (h : host) (to_text : value -> string)
    (selector_ok : string -> bool) (answers : nat -> App.outcome)
    (provinces : list value) :
  (forall p, exists r p',
      loadDetailedProvinceData h to_text selector_ok provinces answers p = Some (r, p')) /\
  (forall rows l,
      forallb (fit to_text selector_ok) provinces = true ->
      exists rows',
        loadDetailedProvinceData h to_text selector_ok provinces answers
          {| tbody := Some (Rows rows); log := l |}
        = Some (Ok tt, {| tbody := Some (Rows rows');
                          log := l ++ schedule 0 (List.map code_of provinces) |})).
Proof.
  split.
  - intros p. apply batches_terminate. lia.
  - intros rows l Hfit. eexists. unfold loadDetailedProvinceData.
    rewrite (batches_complete h to_text selector_ok answers provinces _ 0 rows l Hfit);
      [reflexivity | reflexivity | lia].
Qed.

Lemma requests_are_paced_witness :
  forallb (fit text any_selector) six = true /\
  exists rows',
    loadDetailedProvinceData Reference.browser text any_selector six six_answers
      {| tbody := Some (Rows []); log := [] |}
    = Some (Ok tt, {| tbody := Some (Rows rows');
                      log := [] ++ schedule 0 (List.map code_of six) |}).
Proof.
  split; [reflexivity|].
  exact (proj2 (requests_are_paced Reference.browser text any_selector six_answers six)
           [] [] eq_refl).
Defined.



End TableFacts.

(** ** The charts *)

Module ChartFacts.
Import Protocol Charts.

Lemma insert_perm {A : Type} (cmp : A -> A -> jsnum) (x : A) (l : list A) :
  Permutation (insert cmp x l) (x :: l).
Proof.
  induction l as [|y l IH]; simpl; [apply Permutation_refl|].
  destruct (positive (cmp x y)); [|apply Permutation_refl].
  apply perm_trans with (y :: x :: l); [now apply perm_skip | apply perm_swap].
Qed.

Lemma sort_perm {A : Type} (cmp : A -> A -> jsnum) (l : list A) :
  Permutation (sort cmp l) l.
Proof.
  induction l as [|x l IH]; simpl; [apply perm_nil|].
  apply perm_trans with (x :: sort cmp l); [apply insert_perm | now apply perm_skip].
Qed.

Section Facts.
Variable h : host.
Variable k : string.

Lemma not_below_total (a b : detailed) :
  numeric h k a -> numeric h k b ->
  if positive (largest_first h k a b) then not_below h k b a else not_below h k a b.
Proof.
  unfold numeric, largest_first, not_below, num_sub, positive.
  destruct (quantity h k a) as [|x], (quantity h k b) as [|y]; try discriminate.
  intros _ _. destruct (Qle_bool (y - x) 0) eqn:Hle; simpl.
  - apply Qle_bool_iff in Hle. lra.
  - assert (Hn : ~ y - x <= 0) by (rewrite <- Qle_bool_iff; congruence). lra.
Qed.

Lemma not_below_trans (a b c : detailed) :
  not_below h k a b -> not_below h k b c -> not_below h k a c.
Proof.
  unfold not_below.
  destruct (quantity h k a), (quantity h k b), (quantity h k c); try tauto. lra.
Qed.

Lemma insert_sorted (x : detailed) (l : list detailed) :
  numeric h k x -> Forall (numeric h k) l ->
  StronglySorted (not_below h k) l ->
  StronglySorted (not_below h k) (insert (largest_first h k) x l).
Proof.
  intros Hx Hl Hs. induction Hs as [|y l Hs IH Hy]; simpl.
  - constructor; constructor.
  - inversion Hl as [|? ? Hny Hl']; subst.
    pose proof (not_below_total x y Hx Hny) as Ht.
    destruct (positive (largest_first h k x y)).
    + constructor; [now apply IH|].
      apply Forall_forall. intros z Hz.
      apply (Permutation_in _ (insert_perm _ x l)) in Hz. destruct Hz as [<-|Hz];
        [exact Ht|].
      rewrite Forall_forall in Hy. now apply Hy.
    + constructor; [now constructor|]. constructor; [exact Ht|].
      apply Forall_forall. intros z Hz. rewrite Forall_forall in Hy.
      apply (not_below_trans x y z Ht). now apply Hy.
Qed.

Lemma sort_sorted (l : list detailed) :
  Forall (numeric h k) l ->
  StronglySorted (not_below h k) (sort (largest_first h k) l).
Proof.
  induction l as [|x l IH]; simpl; intros Hl; [constructor|].
  inversion Hl as [|? ? Hx Hl']; subst.
  apply insert_sorted; [exact Hx | | now apply IH].
  apply Forall_forall. intros z Hz.
  apply (Permutation_in _ (sort_perm _ l)) in Hz.
  rewrite Forall_forall in Hl'. now apply Hl'.
Qed.

Lemma sorted_split (n : nat) (l : list detailed) :
  StronglySorted (not_below h k) l ->
  StronglySorted (not_below h k) (firstn n l) /\
  forall a b, In a (firstn n l) -> In b (skipn n l) -> not_below h k a b.
Proof.
  intros Hs. revert n. induction Hs as [|x l Hs IH Hx]; intros n.
  - rewrite firstn_nil, skipn_nil. split; [constructor | intros a b []].
  - destruct n as [|n]; simpl; [split; [constructor | intros a b []]|].
    destruct (IH n) as [IH1 IH2]. rewrite Forall_forall in Hx. split.
    + constructor; [exact IH1|]. apply Forall_forall. intros z Hz.
      apply Hx. rewrite <- (firstn_skipn n l). apply in_or_app. now left.
    + intros a b [<-|Ha] Hb.
      * apply Hx. rewrite <- (firstn_skipn n l). apply in_or_app. now right.
      * now apply IH2.
Qed.

(** The filter keeps, in their order, the elements that carry the
    quantity. *)
Lemma keep_charted (data kept : list detailed) :
  keep k data = Ok kept ->
  Forall (charted k) kept /\
  (forall p, In p kept -> In p data) /\
  (List.length kept <= List.length data)%nat.
Proof.
  revert kept. induction data as [|p data IH]; simpl; intros kept Hk.
  - injection Hk as <-. repeat split; [constructor | auto | simpl; lia].
  - destruct (carries k p) as [b|] eqn:Hc; [|discriminate].
    destruct (keep k data) as [kept'|]; [|discriminate].
    destruct (IH kept' eq_refl) as (H1 & H2 & H3).
    injection Hk as <-. destruct b; repeat split.
    + constructor; [exact Hc | exact H1].
    + intros q [<-|Hq]; [now left | right; now apply H2].
    + simpl. lia.
    + exact H1.
    + intros q Hq. right. now apply H2.
    + lia.
Qed.

Lemma charted_name (p : detailed) :
  charted k p -> exists n, nama_provinsi p = Ok n.
Proof.
  unfold charted, carries, geo, nama_provinsi. destruct p as [province|province g].
  - destruct province; simpl; try discriminate; eauto.
  - eauto.
Qed.

Lemma names_charted (ps : list detailed) :
  Forall (charted k) ps -> exists ns, names ps = Ok ns /\ List.length ns = List.length ps.
Proof.
  induction 1 as [|p ps Hp _ IH]; simpl; [now exists []|].
  destruct (charted_name p Hp) as [n ->]. destruct IH as (ns & -> & Hlen).
  exists (n :: ns). simpl. now rewrite Hlen.
Qed.

End Facts.



Lemma with_geo_cases (province : value) (o : App.outcome) :
  with_geo province o = Plain province \/ exists g, with_geo province o = Merged province g.
Proof.
  unfold with_geo. destruct (get_prop "kode_provinsi" province); [|now left].
  destruct o as [|geoResponse]; [now left|].
  destruct (get_prop "success" geoResponse) as [ok|]; [|now left].
  destruct (truthy ok); [|now left].
  destruct (get_prop "data" geoResponse) as [data|]; [|now left].
  right. now exists data.
Qed.

Lemma carries_record (k : string) (province : value) (o : App.outcome) :
  nullish province = false -> exists b, carries k (with_geo province o) = Ok b.
Proof.
  intros Hn. unfold carries.
  destruct (with_geo_cases province o) as [->|[g ->]]; simpl.
  - destruct province; try discriminate; simpl;
      try (now exists false).
    destruct (truthy (lookup_field "geo" fields)) eqn:Ht; [|now exists false].
    destruct (lookup_field "geo" fields); simpl in *; try discriminate; eauto.
  - destruct (truthy g) eqn:Ht; [|now exists false].
    destruct g; simpl in *; try discriminate; eauto.
Qed.

Lemma name_record (province : value) (o : App.outcome) :
  nullish province = false ->
  nama_provinsi (with_geo province o) = Ok (field "nama_provinsi" province).
Proof.
  intros Hn. destruct (with_geo_cases province o) as [->|[g ->]]; simpl;
    [|reflexivity].
  destruct province; try discriminate; reflexivity.
Qed.

Lemma keep_records (k : string) (j : nat) (provinces : list value)
    (answers : nat -> App.outcome) :
  forallb (fun p => negb (nullish p)) provinces = true ->
  exists kept, keep k (merge_all j provinces answers) = Ok kept.
Proof.
  revert j. induction provinces as [|province rest IH]; intros j Hall; simpl;
    [now exists []|].
  simpl in Hall. apply andb_true_iff in Hall as [Hp Hr]. apply negb_true_iff in Hp.
  destruct (carries_record k province (answers j) Hp) as [b ->].
  destruct (IH (S j) Hr) as [kept ->]. eauto.
Qed.

Lemma merge_all_length (j : nat) (provinces : list value)
    (answers : nat -> App.outcome) :
  List.length (merge_all j provinces answers) = List.length provinces.
Proof. revert j. induction provinces as [|x rest IH]; intros j; simpl; auto. Qed.

Lemma merge_all_in (j : nat) (provinces : list value) (answers : nat -> App.outcome)
    (p : detailed) :
  In p (merge_all j provinces answers) ->
  exists i province, nth_error provinces i = Some province /\
                     p = with_geo province (answers (j + i)%nat).
Proof.
  revert j. induction provinces as [|x rest IH]; intros j; simpl; [intros []|].
  intros [<-|Hin].
  - exists 0%nat, x. split; [reflexivity|]. now rewrite Nat.add_0_r.
  - destruct (IH (S j) Hin) as (i & province & Hn & ->).
    exists (S i), province. split; [exact Hn|]. do 2 f_equal. lia.
Qed.

Lemma names_in (ps : list detailed) (ns : list value) (n : value) :
  names ps = Ok ns -> In n ns -> exists p, In p ps /\ nama_provinsi p = Ok n.
Proof.
  revert ns. induction ps as [|p ps IH]; simpl; intros ns Hns Hin.
  - injection Hns as <-. destruct Hin.
  - destruct (nama_provinsi p) as [m|] eqn:Hm; [|discriminate].
    destruct (names ps) as [ms|]; [|discriminate].
    injection Hns as <-. destruct Hin as [<-|Hin]; [eauto|].
    destruct (IH ms eq_refl Hin) as (q & Hq & Hn). eauto.
Qed.

Lemma nth_error_firstn_inv {A : Type} (n i : nat) (l : list A) (x : A) :
  nth_error (firstn n l) i = Some x -> (i < n)%nat /\ nth_error l i = Some x.
Proof.
  revert i l. induction n as [|n IH]; intros i l; simpl.
  - destruct i; discriminate.
  - destruct l as [|y l]; [destruct i; discriminate|].
    destruct i as [|i]; simpl; [intros [= ->]; split; [lia | reflexivity]|].
    intros Hn. destruct (IH i l Hn). split; [lia | assumption].
Qed.



End ChartFacts.

(** ** The boundary toggles of the second version *)

Module ToggleFacts.
Import Polygon App Logic Toggles.
Local Open Scope js_scope.

Section Facts.
Variable h : host.
Variable to_text : value -> string.
Variable latLngs : value -> option (list ring).
Variable bounds_view : list ring -> option ((jsnum * jsnum) * Z).

Lemma truthy_path (g : value) :
  truthy g = true -> exists path, get_prop "path" g = Ok path.
Proof. destruct g; simpl; try discriminate; eauto. Qed.

Lemma show_dead (g : value) (s : state) :
  undeclared s ->
  showProvinceBoundary h to_text latLngs g s = (Ok tt, s) /\
  showCityBoundary h to_text latLngs g s = (Ok tt, s).
Proof.
  intros [Hp Hc]. unfold showProvinceBoundary, showCityBoundary, try_catch.
  destruct (truthy g) eqn:Hg; [|split; reflexivity].
  destruct (truthy_path g Hg) as [path Hpath].
  unfold read, gets, throw, lift, ret, bind. rewrite Hpath.
  destruct (truthy path); [|split; reflexivity].
  cbv beta. rewrite Hp, Hc. split; reflexivity.
Qed.

Lemma resume_toggle_dead (o : outcome) (s : state) :
  undeclared s ->
  resume_toggleProvinceBoundary h to_text latLngs bounds_view o s = (Ok tt, s) /\
  resume_toggleCityBoundary h to_text latLngs bounds_view o s = (Ok tt, s).
Proof.
  intros [Hp Hc]. unfold resume_toggleProvinceBoundary, resume_toggleCityBoundary, try_catch.
  unfold settled, read, gets, throw, lift, ret, bind.
  destruct o as [|response]; [split; reflexivity|]. cbv beta iota.
  destruct (success_and_data response) as [[data|]|e] eqn:Hsd; try (split; reflexivity).
  assert (Ht : truthy data = true).
  { unfold success_and_data in Hsd.
    destruct (get_prop "success" response) as [ok|]; [|discriminate].
    destruct (truthy ok); [|discriminate].
    destruct (get_prop "data" response) as [d|]; [|discriminate].
    destruct (truthy d) eqn:Ht; [|discriminate]. now injection Hsd as <-. }
  destruct (truthy_path data Ht) as [path Hpath].
  cbv beta iota. rewrite Hpath.
  destruct (truthy path); [|split; reflexivity].
  cbv beta. rewrite Hp, Hc. split; reflexivity.
Qed.

End Facts.

(** X11. In the second version of the script the boundary code is dead.
    While [provinceBoundaryLayer] and [cityBoundaryLayer] are unbound (the
    script never declares them, and assigns them only after it has read
    them), [showProvinceBoundary] and [showCityBoundary] return without
    any effect, whatever the record; so do the two toggles when the
    response to their request arrives, whatever it is; and switching a
    toggle off, or on with nothing selected, fails with a ReferenceError
    (the promise of the method is rejected).  Nothing of this changes the
    state, so the names stay unbound. *)
Theorem boundary_toggles_are_dead (h : host) (to_text : value -> string)
    (latLngs : value -> option (list ring))
    (bounds_view : list ring -> option ((jsnum * jsnum) * Z)) (s : state) :
  undeclared s ->
  (forall g,
      showProvinceBoundary h to_text latLngs g s = (Ok tt, s) /\
      showCityBoundary h to_text latLngs g s = (Ok tt, s)) /\
  (forall o,
      resume_toggleProvinceBoundary h to_text latLngs bounds_view o s = (Ok tt, s) /\
      resume_toggleCityBoundary h to_text latLngs bounds_view o s = (Ok tt, s)) /\
  (forall show,
      (show && selected (province (selectedLocation s)) = false ->
       toggleProvinceBoundary show s = (Throw ReferenceError, s)) /\
      (show && selected (city (selectedLocation s)) = false ->
       toggleCityBoundary show s = (Throw ReferenceError, s))).
Proof.
  intros Hu. split; [|split].
  - intros g. now apply show_dead.
  - intros o. now apply resume_toggle_dead.
  - destruct Hu as [Hp Hc]. intros show.
    unfold toggleProvinceBoundary, toggleCityBoundary, read, gets, throw, bind.
    cbv beta. split; intros ->; [rewrite Hp | rewrite Hc]; reflexivity.
Qed.

Lemma boundary_toggles_are_dead_witness :
  undeclared Reference.ready /\
  showProvinceBoundary Reference.browser Table.text no_rings Reference.jakarta_data
    Reference.ready = (Ok tt, Reference.ready) /\
  toggleProvinceBoundary false Reference.ready = (Throw ReferenceError, Reference.ready).
Proof.
  assert (Hu : undeclared Reference.ready) by (split; reflexivity).
  split; [exact Hu|].
  pose proof (boundary_toggles_are_dead Reference.browser Table.text no_rings no_view
                Reference.ready Hu) as H.
  split.
  - exact (proj1 (proj1 H Reference.jakarta_data)).
  - exact (proj1 (proj2 (proj2 H) false) eq_refl).
Defined.

End ToggleFacts.

(** ** The map of the first version *)

Module FirstFacts.
Import Polygon App Logic Protocol Rules Overlays Frames First.
Local Open Scope js_scope.

Section Facts.
Variable h : host.

(** One turn of the loop on a page with a map: for a [null] entry the
    [catch] throws in its turn and nothing has changed; for any other entry
    the turn returns, with the marker of [mark] or with nothing at all. *)
Lemma addProvinceMarker_effect (province : value) (o : outcome) (s : state)
    (m : map_state) :
  map s = Some m ->
  addProvinceMarker h province o s
  = if nullish province then (Throw TypeError, s)
    else
      (Ok tt,
       match mark h province o with
       | Some sh =>
           set_map (Some {| center := center m; zoom := zoom m;
                            layers := layers m ++ [{| lid := next_lid s; shape := sh |}];
                            maxBounds := maxBounds m |})
             (set_next_lid (S (next_lid s)) s)
       | None => s
       end).
Proof.
  intros Hm. unfold addProvinceMarker, mark, try_catch, geo_of.
  unfold settled, lift, ret, throw, bind.
  destruct province; simpl; try reflexivity;
    (destruct o as [|response]; [reflexivity|]; cbv beta iota;
     destruct (success_and_data response) as [[geoData|]|e]; try reflexivity;
     cbv beta iota;
     destruct (get_prop "lat" geoData) as [latv|]; [|reflexivity];
     destruct (get_prop "lng" geoData) as [lngv|]; [|reflexivity];
     cbv beta iota zeta;
     destruct (negb (is_nan (parseFloat h latv)) && negb (is_nan (parseFloat h lngv)));
       [|reflexivity];
     unfold L_marker; cbn [andb];
     destruct (latLng_ok h (parseFloat h latv) (parseFloat h lngv)); [|reflexivity];
     unfold new_layer, addTo_map; cbn; rewrite Hm; reflexivity).
Qed.

(** The loop returns when no entry is [null], and otherwise throws at the
    first [null] entry; the markers are those of the entries before it. *)
Lemma addProvinceMarkers_effect (provinces : list value) (answers : nat -> outcome)
    (j : nat) (s : state) (m : map_state) :
  map s = Some m ->
  exists s',
    addProvinceMarkers h j provinces answers s
    = (if forallb (fun p => negb (nullish p)) provinces then Ok tt
       else Throw TypeError, s') /\
    live_layers s'
      = live_layers s ++ numbered (next_lid s) (marks h j provinces answers) /\
    viewport s' = viewport s /\
    document s' = document s /\
    selectedLocation s' = selectedLocation s.
Proof.
  revert j s m. induction provinces as [|province rest IH]; intros j s m Hm.
  - exists s. cbn. rewrite app_nil_r. repeat split; reflexivity.
  - cbn [addProvinceMarkers marks forallb]. unfold bind at 1.
    rewrite (addProvinceMarker_effect province (answers j) s m Hm).
    destruct (nullish province); cbn [negb andb].
    { exists s. cbn. rewrite app_nil_r. repeat split; reflexivity. }
    destruct (mark h province (answers j)) as [sh|].
    + destruct (IH (S j)
                  (set_map (Some {| center := center m; zoom := zoom m;
                                    layers := layers m
                                              ++ [{| lid := next_lid s; shape := sh |}];
                                    maxBounds := maxBounds m |})
                     (set_next_lid (S (next_lid s)) s))
                  {| center := center m; zoom := zoom m;
                     layers := layers m ++ [{| lid := next_lid s; shape := sh |}];
                     maxBounds := maxBounds m |}
                  eq_refl)
        as (s' & -> & Hlive & Hview & Hdoc & Hsel).
      exists s'. split; [reflexivity|]. rewrite Hlive, Hview, Hdoc, Hsel.
      unfold live_layers, viewport. cbn. rewrite Hm. cbn [numbered].
      rewrite <- app_assoc. repeat split; reflexivity.
    + destruct (IH (S j) s m Hm) as (s' & -> & Hlive & Hview & Hdoc & Hsel).
      exists s'. repeat split; assumption.
Qed.

Lemma marks_length (provinces : list value) (answers : nat -> outcome) (j : nat) :
  (List.length (marks h j provinces answers) <= List.length provinces)%nat.
Proof.
  revert j. induction provinces as [|province rest IH]; intros j; simpl; [lia|].
  specialize (IH (S j)).
  destruct (nullish province); [simpl; lia|].
  destruct (mark h province (answers j)); simpl; lia.
Qed.

(** No entry from the first [null] on has a marker. *)
Lemma marks_stop (before after : list value) (entry : value)
    (answers : nat -> outcome) (j : nat) :
  nullish entry = true ->
  forallb (fun p => negb (nullish p)) before = true ->
  marks h j (before ++ entry :: after) answers = marks h j before answers.
Proof.
  intros He. revert j. induction before as [|p before IH]; intros j Hb; simpl.
  - now rewrite He.
  - simpl in Hb. apply andb_true_iff in Hb as [Hp Hb]. apply negb_true_iff in Hp.
    rewrite Hp. rewrite (IH (S j) Hb). reflexivity.
Qed.

Lemma live_resume_selectProvince (o : outcome) (L : list layer) (b : bounds) :
  preserves (fun s => live_layers s = L /\ has_map s = true /\ has_bounds b s)
    (resume_selectProvince h o).
Proof. unfold resume_selectProvince, has_map. frame. Qed.

Lemma live_act (a : action) (L : list layer) (b : bounds) :
  preserves (fun s => live_layers s = L /\ has_map s = true /\ has_bounds b s)
    (act h a).
Proof.
  destruct a as [code o|]; unfold act, selectProvince, First.resetMap.
  - apply preserves_bind;
      [|intros asked; destruct asked;
        [apply live_resume_selectProvince | apply preserves_ret]].
    unfold has_map. destruct (String.eqb code ""); frame.
  - unfold has_map. frame.
Qed.

Lemma live_acts (l : list action) (L : list layer) (b : bounds) (s : state) :
  live_layers s = L /\ has_map s = true /\ has_bounds b s ->
  live_layers (acts h l s) = L /\ has_map (acts h l s) = true /\
  has_bounds b (acts h l s).
Proof.
  revert s. induction l as [|a l IH]; intros s Hs; [exact Hs|].
  simpl. apply IH. now apply live_act.
Qed.

End Facts.



(** On a page without the selector, a [null] entry between two provinces
    whose requests succeed: the first province has its marker, the last one
    has none. *)
Lemma null_entry_ends_the_markers :
  let provinces :=
    [VObj [("kode_provinsi", VStr "31"); ("nama_provinsi", VStr "DKI JAKARTA")];
     VNull;
     VObj [("kode_provinsi", VStr "11"); ("nama_provinsi", VStr "ACEH")]] in
  let answers := fun j : nat =>
    match j with
    | O => Fulfilled Reference.jakarta
    | _ => Fulfilled Reference.aceh
    end in
  List.map shape
    (live_layers
       (exec (resume_loadProvincesData Reference.browser false
                (Fulfilled (provinces_body provinces)) answers) First.ready))
  = [Marker Province (Num (-62 # 10)) (Num (1068 # 10)) Reference.jakarta_data].
Proof. vm_compute. reflexivity. Qed.

(** X13. In the first version the reset works and the markers are
    permanent.  [init] gives the map its bounds and leaves the view on the
    default coordinate, as these bounds limit it, at the default zoom.  On a
    page with a map, after any sequence of province selections (with
    whatever responses) and resets, the layers on the map are the ones that
    were there, and [resetMap] returns normally with the view where [init]
    has put it and the info panel, if the page has one, hidden. *)
Theorem first_version_keeps_markers (h : host) (l : list action) (s : state)
    (m : map_state) (b : bounds) :
  map s = Some m -> maxBounds m = Some b ->
  live_layers (acts h l s) = live_layers s /\
  outcome_of (First.resetMap h) (acts h l s) = Ok tt /\
  viewport (exec (First.resetMap h) (acts h l s))
    = Some (limitCenter h b First.DEFAULT_COORDINATE First.DEFAULT_ZOOM,
            First.DEFAULT_ZOOM) /\
  live_layers (exec (First.resetMap h) (acts h l s)) = live_layers s /\
  province_info (document (exec (First.resetMap h) (acts h l s)))
    = option_map (fun _ => DisplayNone) (province_info (document (acts h l s))) /\
  (forall s0, map s0 = None ->
     outcome_of (First.init h) s0 = Ok tt /\
     has_bounds First.INDONESIA_BOUNDS (exec (First.init h) s0) /\
     viewport (exec (First.init h) s0)
       = Some (limitCenter h First.INDONESIA_BOUNDS First.DEFAULT_COORDINATE
                 First.DEFAULT_ZOOM, First.DEFAULT_ZOOM)).
Proof.
  intros Hm Hb.
  assert (H0 : live_layers s = live_layers s /\ has_map s = true /\ has_bounds b s).
  { split; [reflexivity|]. unfold has_map, has_bounds. now rewrite Hm. }
  destruct (live_acts h l (live_layers s) b s H0) as (Hlive & Hmap & Hbounds).
  split; [exact Hlive|].
  unfold has_map in Hmap. unfold has_bounds in Hbounds.
  destruct (map (acts h l s)) as [m'|] eqn:Hm'; [|discriminate].
  unfold First.resetMap, outcome_of, exec, bind, map_setView, on_document, modify.
  rewrite Hm'. cbn. unfold live_layers in *. rewrite Hm' in Hlive. cbn.
  rewrite Hbounds. cbn [limited].
  repeat (split; [first [reflexivity | exact Hlive]|]).
  intros s0 H0m.
  unfold First.init, L_map, map_setMaxBounds, has_bounds, viewport.
  unfold outcome_of, exec, bind, modify. cbn. rewrite H0m. cbn.
  repeat split; reflexivity.
Qed.

Lemma first_version_keeps_markers_witness :
  (map First.ready = Some First.fresh_map /\
   maxBounds First.fresh_map = Some First.INDONESIA_BOUNDS) /\
  viewport
    (exec (First.resetMap Reference.browser)
       (acts Reference.browser [Select "31" (Fulfilled Reference.jakarta)] First.ready))
  = Some (limitCenter Reference.browser First.INDONESIA_BOUNDS First.DEFAULT_COORDINATE
            First.DEFAULT_ZOOM, First.DEFAULT_ZOOM).
Proof.
  split; [split; reflexivity|].
  exact (proj1 (proj2 (proj2
    (first_version_keeps_markers Reference.browser
       [Select "31" (Fulfilled Reference.jakarta)] First.ready First.fresh_map
       First.INDONESIA_BOUNDS eq_refl eq_refl)))).
Defined.

End FirstFacts.

(** ** The provinces table of the first version *)

Module RenderedFacts.
Import Protocol Charts Rendered ChartFacts.

Section Facts.
Variable h : host.

Lemma render_record (province : value) (o : App.outcome) :
  nullish province = false ->
  render h (with_geo province o) = Ok (line_of h province o).
Proof.
  intros Hn. unfold render, line_of.
  destruct (with_geo_cases province o) as [->|[g ->]]; simpl.
  - destruct province; try discriminate; reflexivity.
  - reflexivity.
Qed.

Lemma render_nullish (province : value) (o : App.outcome) :
  nullish province = true -> exists e, render h (with_geo province o) = Throw e.
Proof.
  intros Hn. unfold render, with_geo.
  destruct province; try discriminate; simpl; eauto.
Qed.

Lemma render_all_records (j : nat) (provinces : list value)
    (answers : nat -> App.outcome) :
  forallb (fun p => negb (nullish p)) provinces = true ->
  render_all h (merge_all j provinces answers) = Ok (lines_of h j provinces answers).
Proof.
  revert j. induction provinces as [|province rest IH]; intros j Hall; [reflexivity|].
  simpl in Hall. apply andb_true_iff in Hall as [Hp Hr]. apply negb_true_iff in Hp.
  cbn [merge_all render_all lines_of].
  now rewrite (render_record province _ Hp), (IH (S j) Hr).
Qed.

Lemma render_all_nullish (j : nat) (provinces : list value)
    (answers : nat -> App.outcome) :
  forallb (fun p => negb (nullish p)) provinces = false ->
  exists e, render_all h (merge_all j provinces answers) = Throw e.
Proof.
  revert j. induction provinces as [|province rest IH]; intros j Hall; [discriminate|].
  simpl in Hall. cbn [merge_all render_all].
  destruct (nullish province) eqn:Hp; simpl in Hall.
  - destruct (render_nullish province (answers j) Hp) as [e ->]. eauto.
  - rewrite (render_record province _ Hp). destruct (IH (S j) Hall) as [e ->]. eauto.
Qed.

Lemma lines_of_nth (i j : nat) (provinces : list value) (answers : nat -> App.outcome)
    (province : value) :
  nth_error provinces j = Some province ->
  nth_error (lines_of h i provinces answers) j
  = Some (line_of h province (answers (i + j)%nat)).
Proof.
  revert i j. induction provinces as [|x rest IH]; intros i [|j]; simpl; try discriminate.
  - intros [= ->]. now rewrite Nat.add_0_r.
  - intros Hn. rewrite (IH (S i) j Hn). do 3 f_equal. lia.
Qed.

Lemma lines_of_length (i : nat) (provinces : list value) (answers : nat -> App.outcome) :
  List.length (lines_of h i provinces answers) = List.length provinces.
Proof. revert i. induction provinces as [|x rest IH]; intros i; simpl; auto. Qed.

End Facts.



End RenderedFacts.

(** ** [utils.debounce] *)

Module DebounceFacts.
Import Debounce.

Section Debounced.
Variable A : Type.
Variable wait : nat.

Abbreviation state := (Debounce.state A).
Abbreviation event := (Debounce.event A).
Abbreviation step := (Debounce.step A wait).
Abbreviation run := (Debounce.run A wait).

Lemma run_cons (e : event) (es : list event) (s : state) :
  run (e :: es) s = run es (step s e).
Proof. reflexivity. Qed.

Lemma clear_own (t : timer A) :
  filter (fun t' => negb (tid t' =? tid t)%nat) [t] = [].
Proof. cbn. now rewrite Nat.eqb_refl. Qed.

(** A call leaves its own timer and no other. *)
Lemma call_sets_one (a : A) (s : state) :
  at_most_one s ->
  step s (Call a) =
    {| now := now s;
       timers := [{| tid := next_tid s; due := now s + wait; args := a |}];
       next_tid := S (next_tid s);
       timeout := Some (next_tid s);
       invoked := invoked s |}.
Proof.
  intros [Hnone | (t & Hone & Hname & _)];
    cbn [Debounce.step]; unfold executedFunction, setTimeout, clearTimeout.
  - destruct (timeout s); cbn; rewrite Hnone; reflexivity.
  - rewrite Hname. cbn [timers now next_tid invoked Debounce.timeout].
    rewrite Hone, clear_own. reflexivity.
Qed.

Lemma fire_idle (s : state) : timers s = [] -> step s Fire = s.
Proof. intros H. cbn. now rewrite H. Qed.

Lemma fire_early (t : timer A) (s : state) :
  timers s = [t] -> (now s < due t)%nat -> step s Fire = s.
Proof.
  intros H Hlt. cbn. rewrite H. cbn.
  destruct (Nat.leb_spec (due t) (now s)); [lia | reflexivity].
Qed.

Lemma fire_due (t : timer A) (s : state) :
  timers s = [t] -> timeout s = Some (tid t) -> (due t <= now s)%nat ->
  step s Fire =
    {| now := now s; timers := []; next_tid := next_tid s; timeout := timeout s;
       invoked := invoked s ++ [args t] |}.
Proof.
  intros H Hname Hle. cbn. rewrite H. cbn.
  destruct (Nat.leb_spec (due t) (now s)); [| lia].
  unfold later, func, clearTimeout. cbn. rewrite Hname. reflexivity.
Qed.

Lemma step_at_most_one (s : state) (e : event) :
  at_most_one s -> at_most_one (step s e).
Proof.
  intros H. destruct e as [a | |].
  - rewrite (call_sets_one a s H). right.
    exists {| tid := next_tid s; due := now s + wait; args := a |}.
    cbn. repeat split. lia.
  - destruct H as [H | (t & H1 & H2 & H3)]; [left | right; exists t]; cbn; auto.
  - destruct H as [H | (t & H1 & H2 & H3)].
    + rewrite (fire_idle s H). now left.
    + destruct (Nat.leb_spec (due t) (now s)).
      * rewrite (fire_due t s H1 H2) by assumption. now left.
      * rewrite (fire_early t s H1) by assumption. right. now exists t.
Qed.

Lemma run_at_most_one (es : list event) (s : state) :
  at_most_one s -> at_most_one (run es s).
Proof.
  revert s. induction es as [| e es IH]; intros s H; [exact H |].
  rewrite run_cons. apply IH, step_at_most_one, H.
Qed.

Lemma run_invoked (es : list event) (s : state) :
  at_most_one s ->
  invoked (run es s) = invoked s ++ ahead s es ++ deliveries A wait es.
Proof.
  revert s. induction es as [| e es IH]; intros s H.
  - unfold ahead. cbn. destruct (timers s) as [| t [| ? ?]]; now rewrite ?app_nil_r.
  - rewrite run_cons, (IH _ (step_at_most_one s e H)). destruct e as [a | |].
    + rewrite (call_sets_one a s H). unfold ahead at 1.
      cbn [timers now due args invoked deliveries].
      replace (now s + wait - now s)%nat with wait by lia.
      unfold ahead. destruct (timers s) as [| t [| ? ?]]; reflexivity.
    + unfold ahead. cbn [Debounce.step timers now invoked deliveries].
      destruct (timers s) as [| t [| ? ?]]; try reflexivity.
      cbn [served]. now replace (due t - S (now s))%nat with (pred (due t - now s)) by lia.
    + destruct H as [H | (t & H1 & H2 & H3)].
      * rewrite (fire_idle s H). unfold ahead. rewrite H. reflexivity.
      * destruct (Nat.leb_spec (due t) (now s)) as [Hle | Hlt].
        -- rewrite (fire_due t s H1 H2 Hle). unfold ahead.
           cbn [timers invoked deliveries]. rewrite H1.
           replace (due t - now s)%nat with 0%nat by lia. cbn [served app].
           now rewrite <- app_assoc.
        -- rewrite (fire_early t s H1 Hlt). unfold ahead. rewrite H1.
           cbn [deliveries served].
           destruct (due t - now s)%nat eqn:E; [lia | reflexivity].
Qed.

(** [served], said with the events: the browser gets to the timer after
    at least [left] milliseconds, and no call is made before that. *)
Lemma served_iff (left : nat) (es : list event) :
  served left es = true <->
  exists before after,
    es = before ++ Fire :: after /\ quiet before /\ (left <= elapsed before)%nat.
Proof.
  revert left. induction es as [| e es IH]; intros left.
  - split; [discriminate |]. intros (b & a & H & _). now destruct b.
  - destruct e as [a | |]; cbn [served].
    + split; [discriminate |]. intros (b & a' & H & Hq & _).
      destruct b as [| e b]; [discriminate |]. injection H as He _. subst e. discriminate.
    + rewrite IH. split.
      * intros (b & a & -> & Hq & Hle). exists (Tick :: b), a.
        repeat split; [exact Hq | cbn; unfold elapsed in Hle; lia].
      * intros (b & a & H & Hq & Hle). destruct b as [| e b]; [discriminate |].
        injection H as He Hes. subst e es. exists b, a. repeat split; [exact Hq |].
        unfold elapsed in *. cbn in Hle. lia.
    + destruct left as [| n].
      * split; [| reflexivity]. intros _. exists [], es. repeat split. cbn. lia.
      * rewrite IH. split.
        -- intros (b & a & -> & Hq & Hle). exists (Fire :: b), a.
           repeat split; [exact Hq | exact Hle].
        -- intros (b & a & H & Hq & Hle). destruct b as [| e b]; [cbn in Hle; lia |].
           injection H as He Hes. subst e es. exists b, a. repeat split; [exact Hq | exact Hle].
Qed.

(** X15. [utils.debounce(func, wait)] passes on exactly the calls that are
    followed by [wait] milliseconds without another call, in their order and
    each once: whatever the calls, the passing of time and the moments at
    which the browser runs due timers, the calls of [func] are the
    [deliveries] of the events. *)
Theorem debounce_delivers_the_settled_calls (es : list event) :
  invoked (run es initial) = deliveries A wait es.
Proof.
  rewrite run_invoked by now left. reflexivity.
Qed.

(** X16. The debounced function never has more than one timer pending, and
    the pending one is the one its variable [timeout] names: every call
    clears the timer of the call before it. *)
Theorem debounce_keeps_one_timer (es : list event) :
  (List.length (timers (run es initial)) <= 1)%nat /\
  forall t, In t (timers (run es initial)) ->
    timeout (run es initial) = Some (tid t).
Proof.
  destruct (run_at_most_one es initial (or_introl eq_refl)) as [H | (t & H1 & H2 & _)].
  - rewrite H. split; [cbn; lia | intros ? []].
  - rewrite H1. split; [cbn; lia |]. intros t' [<- | []]. exact H2.
Qed.

End Debounced.

End DebounceFacts.

